(** * cwt: worktree state store, branch lifecycle manager and PTY sessions

    A shallow embedding of the Go packages [internal/worktree],
    [internal/pty] and [internal/tui] of the cwt repository, the properties
    of them that the specification states, and further properties of the
    code.

    Conventions.
    - A Go [string] is a byte string: [string] in records, [list ascii]
      where the code walks over the bytes.
    - [map[string]*T] is a [gmap string T]; writing through the pointer
      stored in the map is an insert at the same key.
    - Go [int] is a 64-bit integer: [Z] with the wrap-around written out
      where the code does arithmetic on it.
    - The outside world (file system, git, clock, random source, the
      processes behind a pseudo-terminal) is explicit state, and what it
      answers is an argument of the operation. *)

From Stdlib Require Import ZArith Ascii String List Lia Decimal DecimalN DecimalZ DecimalFacts
  Permutation.
From stdpp Require Import base option list gmap strings sorting.

Local Open Scope Z_scope.

(** ** Bytes *)

Abbreviation bytes := (list ascii).

Definition byte_val (c : ascii) : Z := Z.of_N (N_of_ascii c).
Definition byte_of (z : Z) : ascii := ascii_of_N (Z.to_N z).

Definition B (s : string) : bytes := list_ascii_of_string s.
Definition S_ (b : bytes) : string := string_of_list_ascii b.

Definition dquote : ascii := "034"%char.
Definition backslash : ascii := "092"%char.
Definition linefeed : ascii := "010"%char.

Definition hex_digit (z : Z) : ascii :=
  if z <? 10 then byte_of (48 + z) else byte_of (87 + z).

(** [encoding/hex.EncodeToString]: two lower-case digits per byte. *)
Definition hex_EncodeToString (b : bytes) : bytes :=
  flat_map (fun c => [hex_digit (byte_val c / 16); hex_digit (byte_val c mod 16)]) b.

(** ** UTF-8, as package [unicode/utf8] defines it *)

Module utf8.

Definition RuneError : Z := 65533.
Definition MaxRune : Z := 1114111.
Definition RuneSelf : Z := 128.

Definition in_range (lo hi : Z) (c : ascii) : bool :=
  (lo <=? byte_val c) && (byte_val c <=? hi).

Definition is_cont : ascii -> bool := in_range 128 191.

(** The range accepted for the second byte, by leading byte
    ([acceptRanges] of the Go package). *)
Definition second_lo (b0 : Z) : Z :=
  if b0 =? 224 then 160 else if b0 =? 240 then 144 else 128.
Definition second_hi (b0 : Z) : Z :=
  if b0 =? 237 then 159 else if b0 =? 244 then 143 else 191.

(** [utf8.DecodeRune]: the first rune of [s] and its width in bytes. An
    empty input gives [(RuneError, 0)], an ill-formed or truncated
    sequence [(RuneError, 1)]. *)
Definition DecodeRune (s : bytes) : Z * nat :=
  match s with
  | [] => (RuneError, 0%nat)
  | c0 :: t =>
    let b0 := byte_val c0 in
    if b0 <? 128 then (b0, 1%nat)
    else if (194 <=? b0) && (b0 <=? 223) then
      match t with
      | c1 :: _ =>
        if is_cont c1 then ((b0 - 192) * 64 + (byte_val c1 - 128), 2%nat)
        else (RuneError, 1%nat)
      | _ => (RuneError, 1%nat)
      end
    else if (224 <=? b0) && (b0 <=? 239) then
      match t with
      | c1 :: c2 :: _ =>
        if in_range (second_lo b0) (second_hi b0) c1 && is_cont c2
        then ((b0 - 224) * 4096 + (byte_val c1 - 128) * 64 + (byte_val c2 - 128), 3%nat)
        else (RuneError, 1%nat)
      | _ => (RuneError, 1%nat)
      end
    else if (240 <=? b0) && (b0 <=? 244) then
      match t with
      | c1 :: c2 :: c3 :: _ =>
        if in_range (second_lo b0) (second_hi b0) c1 && is_cont c2 && is_cont c3
        then ((b0 - 240) * 262144 + (byte_val c1 - 128) * 4096
              + (byte_val c2 - 128) * 64 + (byte_val c3 - 128), 4%nat)
        else (RuneError, 1%nat)
      | _ => (RuneError, 1%nat)
      end
    else (RuneError, 1%nat)
  end.

(** [utf8.AppendRune] / [utf8.EncodeRune]: surrogates and values outside
    the Unicode range are written as U+FFFD. *)
Definition EncodeRune (r : Z) : bytes :=
  let r := if (r <? 0) || (MaxRune <? r) || ((55296 <=? r) && (r <=? 57343))
           then RuneError else r in
  if r <? 128 then [byte_of r]
  else if r <? 2048 then [byte_of (192 + r / 64); byte_of (128 + r mod 64)]
  else if r <? 65536 then
    [byte_of (224 + r / 4096); byte_of (128 + (r / 64) mod 64); byte_of (128 + r mod 64)]
  else
    [byte_of (240 + r / 262144); byte_of (128 + (r / 4096) mod 64);
     byte_of (128 + (r / 64) mod 64); byte_of (128 + r mod 64)].

(** The runes of a string in the order of a Go [for _, r := range s]
    loop: every ill-formed byte counts as one U+FFFD. [pending] is the
    number of continuation bytes of the current rune still to be passed
    over. *)
Fixpoint runes_from (pending : nat) (s : bytes) : list Z :=
  match s with
  | [] => []
  | _ :: t =>
    match pending with
    | S k => runes_from k t
    | O => let '(r, size) := DecodeRune s in r :: runes_from (Nat.pred size) t
    end
  end.

Definition runes (s : bytes) : list Z := runes_from 0 s.

(** [utf8.Valid]. *)
Fixpoint valid_from (pending : nat) (s : bytes) : bool :=
  match s with
  | [] => true
  | _ :: t =>
    match pending with
    | S k => valid_from k t
    | O =>
      let '(r, size) := DecodeRune s in
      negb ((r =? RuneError) && (size =? 1)%nat) && valid_from (Nat.pred size) t
    end
  end.

Definition Valid (s : bytes) : bool := valid_from 0 s.
Definition ValidString (s : string) : bool := Valid (B s).

End utf8.

(** ** JSON text, as package [encoding/json] writes and reads it

    The model covers what the state file needs: objects, arrays, strings,
    integers, booleans and null. Number literals with a fraction or an
    exponent are not covered (the reader reports them as malformed). *)

Module json.

#[warnings="-register-all"]
Inductive value : Type :=
  | JNull
  | JBool (b : bool)
  | JNum (n : Z)
  | JStr (s : string)
  | JArr (l : list value)
  | JObj (l : list (string * value)).

(** *** Writing *)

(** One byte below [utf8.RuneSelf] inside a string literal, with HTML
    escaping on (the default of [json.Marshal]). *)
Definition escape_ascii (c : ascii) : bytes :=
  let b := byte_val c in
  if (b =? 34) || (b =? 92) then [backslash; c]
  else if b =? 8 then B "\b"
  else if b =? 12 then B "\f"
  else if b =? 10 then B "\n"
  else if b =? 13 then B "\r"
  else if b =? 9 then B "\t"
  else if (b <? 32) || (b =? 60) || (b =? 62) || (b =? 38)
  then B "\u00" ++ [hex_digit (b / 16); hex_digit (b mod 16)]
  else [c].

(** The body of a string literal ([appendString] of encode.go): a byte
    that is not part of well-formed UTF-8 is written as the escape of
    U+FFFD, U+2028 and U+2029 are escaped, every other rune is copied.
    [pending] bytes of the current rune are still to be copied ([emit]) or
    passed over. *)
Fixpoint appendString_from (pending : nat) (emit : bool) (s : bytes) : bytes :=
  match s with
  | [] => []
  | c :: t =>
    match pending with
    | S k => (if emit then [c] else []) ++ appendString_from k emit t
    | O =>
      if byte_val c <? utf8.RuneSelf then escape_ascii c ++ appendString_from 0 true t
      else
        let '(r, size) := utf8.DecodeRune s in
        if (r =? utf8.RuneError) && (size =? 1)%nat
        then (B "\u" ++ B "fffd") ++ appendString_from 0 true t
        else if (r =? 8232) || (r =? 8233)
        then (B "\u202" ++ [hex_digit (r mod 16)]) ++ appendString_from (Nat.pred size) false t
        else c :: appendString_from (Nat.pred size) true t
    end
  end.

Definition quote (s : string) : bytes :=
  [dquote] ++ appendString_from 0 true (B s) ++ [dquote].

Fixpoint uint_chars (u : uint) : bytes :=
  match u with
  | Nil => []
  | D0 u => "0"%char :: uint_chars u
  | D1 u => "1"%char :: uint_chars u
  | D2 u => "2"%char :: uint_chars u
  | D3 u => "3"%char :: uint_chars u
  | D4 u => "4"%char :: uint_chars u
  | D5 u => "5"%char :: uint_chars u
  | D6 u => "6"%char :: uint_chars u
  | D7 u => "7"%char :: uint_chars u
  | D8 u => "8"%char :: uint_chars u
  | D9 u => "9"%char :: uint_chars u
  end.

Definition number (n : Z) : bytes :=
  match Z.to_int n with
  | Pos u => uint_chars u
  | Neg u => "-"%char :: uint_chars u
  end.

Definition newline (depth : nat) : bytes :=
  linefeed :: concat (replicate depth (B "  ")).

(** [json.MarshalIndent v "" "  "], for a value at nesting [depth]. *)
Fixpoint render (depth : nat) (v : value) : bytes :=
  match v with
  | JNull => B "null"
  | JBool true => B "true"
  | JBool false => B "false"
  | JNum n => number n
  | JStr s => quote s
  | JArr [] => B "[]"
  | JArr (x :: xs) =>
    B "[" ++ newline (S depth) ++ render (S depth) x
    ++ (fix elems (l : list value) : bytes :=
          match l with
          | [] => []
          | y :: ys => B "," ++ newline (S depth) ++ render (S depth) y ++ elems ys
          end) xs
    ++ newline depth ++ B "]"
  | JObj [] => B "{}"
  | JObj ((k, x) :: xs) =>
    B "{" ++ newline (S depth) ++ quote k ++ B ": " ++ render (S depth) x
    ++ (fix members (l : list (string * value)) : bytes :=
          match l with
          | [] => []
          | (k', y) :: ys =>
            B "," ++ newline (S depth) ++ quote k' ++ B ": " ++ render (S depth) y ++ members ys
          end) xs
    ++ newline depth ++ B "}"
  end.

Definition MarshalIndent (v : value) : bytes := render 0 v.

(** *** Reading *)

Definition is_ws (c : ascii) : bool :=
  let b := byte_val c in (b =? 32) || (b =? 9) || (b =? 13) || (b =? 10).

Fixpoint skip_ws (s : bytes) : bytes :=
  match s with
  | c :: t => if is_ws c then skip_ws t else s
  | [] => []
  end.

Definition hex_val (c : ascii) : option Z :=
  let b := byte_val c in
  if (48 <=? b) && (b <=? 57) then Some (b - 48)
  else if (97 <=? b) && (b <=? 102) then Some (b - 87)
  else if (65 <=? b) && (b <=? 70) then Some (b - 55)
  else None.

(** [getu4]: the value of four hexadecimal digits. *)
Definition getu4 (a b c d : ascii) : option Z :=
  match hex_val a, hex_val b, hex_val c, hex_val d with
  | Some x, Some y, Some z, Some w => Some (((x * 16 + y) * 16 + z) * 16 + w)
  | _, _, _, _ => None
  end.

Definition is_surrogate (r : Z) : bool := (55296 <=? r) && (r <? 57344).

(** [utf16.DecodeRune]: a high and a low surrogate make one rune, every
    other pair makes U+FFFD. *)
Definition utf16_DecodeRune (r1 r2 : Z) : Z :=
  if (55296 <=? r1) && (r1 <? 56320) && (56320 <=? r2) && (r2 <? 57344)
  then (r1 - 55296) * 1024 + (r2 - 56320) + 65536
  else utf8.RuneError.

(** The character a one-letter escape stands for. *)
Definition simple_escape (e : ascii) : option ascii :=
  let b := byte_val e in
  if (b =? 34) || (b =? 92) || (b =? 47) then Some e
  else if b =? 98 then Some (byte_of 8)
  else if b =? 102 then Some (byte_of 12)
  else if b =? 110 then Some (byte_of 10)
  else if b =? 114 then Some (byte_of 13)
  else if b =? 116 then Some (byte_of 9)
  else None.

Definition emit (pre : bytes) (r : option (bytes * bytes)) : option (bytes * bytes) :=
  match r with
  | Some (out, rest) => Some (pre ++ out, rest)
  | None => None
  end.

(** The body of a string literal up to its closing quote ([unquote] of
    decode.go, together with the scanner's check of the literal): the
    decoded bytes and what follows the literal. Bytes that are not
    well-formed UTF-8 are replaced by U+FFFD. *)
Fixpoint unquote_from (pending : nat) (s : bytes) : option (bytes * bytes) :=
  match s with
  | [] => None
  | c :: t =>
    match pending with
    | S k => unquote_from k t
    | O =>
      let b := byte_val c in
      if b =? 34 then Some ([], t)
      else if b =? 92 then
        match t with
        | [] => None
        | e :: t1 =>
          match simple_escape e with
          | Some x => emit [x] (unquote_from 0 t1)
          | None =>
            if byte_val e =? 117 then
              match t1 with
              | h1 :: h2 :: h3 :: h4 :: t5 =>
                match getu4 h1 h2 h3 h4 with
                | None => None
                | Some rr =>
                  if is_surrogate rr then
                    match t5 with
                    | b1 :: u1 :: g1 :: g2 :: g3 :: g4 :: t11 =>
                      match (if (byte_val b1 =? 92) && (byte_val u1 =? 117)
                             then getu4 g1 g2 g3 g4 else None) with
                      | Some rr1 =>
                        if utf16_DecodeRune rr rr1 =? utf8.RuneError
                        then emit (utf8.EncodeRune utf8.RuneError) (unquote_from 0 t5)
                        else emit (utf8.EncodeRune (utf16_DecodeRune rr rr1)) (unquote_from 0 t11)
                      | None => emit (utf8.EncodeRune utf8.RuneError) (unquote_from 0 t5)
                      end
                    | _ => emit (utf8.EncodeRune utf8.RuneError) (unquote_from 0 t5)
                    end
                  else emit (utf8.EncodeRune rr) (unquote_from 0 t5)
                end
              | _ => None
              end
            else None
          end
        end
      else if b <? 32 then None
      else if b <? utf8.RuneSelf then emit [c] (unquote_from 0 t)
      else
        let '(rr, size) := utf8.DecodeRune s in
        emit (utf8.EncodeRune rr) (unquote_from (Nat.pred size) t)
    end
  end.

Definition digit_of (c : ascii) : option (uint -> uint) :=
  let b := byte_val c in
  if b =? 48 then Some D0 else if b =? 49 then Some D1
  else if b =? 50 then Some D2 else if b =? 51 then Some D3
  else if b =? 52 then Some D4 else if b =? 53 then Some D5
  else if b =? 54 then Some D6 else if b =? 55 then Some D7
  else if b =? 56 then Some D8 else if b =? 57 then Some D9
  else None.

Fixpoint read_uint (s : bytes) : uint * bytes :=
  match s with
  | c :: t =>
    match digit_of c with
    | Some d => let '(u, r) := read_uint t in (d u, r)
    | None => (Nil, s)
    end
  | [] => (Nil, [])
  end.

Definition starts_fraction (s : bytes) : bool :=
  match s with
  | c :: _ => let b := byte_val c in (b =? 46) || (b =? 101) || (b =? 69)
  | [] => false
  end.

(** An integer literal: an optional minus sign and digits without a
    leading zero (the literal 0 apart). *)
Definition parse_number (s : bytes) : option (value * bytes) :=
  let '(neg, s1) :=
    match s with
    | c :: t => if byte_val c =? 45 then (true, t) else (false, s)
    | [] => (false, s)
    end in
  let '(u, r) := read_uint s1 in
  if uint_beq (unorm u) u && negb (starts_fraction r)
  then Some (JNum (Z.of_int (if neg then Neg u else Pos u)), r)
  else None.

Fixpoint strip_prefix (p s : bytes) : option bytes :=
  match p, s with
  | [], _ => Some s
  | a :: p', c :: s' => if Ascii.eqb a c then strip_prefix p' s' else None
  | _ :: _, [] => None
  end.

Definition literal (word : string) (v : value) (s : bytes) : option (value * bytes) :=
  match strip_prefix (B word) s with
  | Some r => Some (v, r)
  | None => None
  end.

(** A value, the elements of an array after its opening bracket, and the
    members of an object after its opening brace. [fuel] bounds the number
    of values read. *)
Fixpoint parse_value (fuel : nat) (s : bytes) : option (value * bytes) :=
  match fuel with
  | O => None
  | S f =>
    match skip_ws s with
    | [] => None
    | c :: r =>
      let b := byte_val c in
      if b =? 110 then literal "null" JNull (c :: r)
      else if b =? 116 then literal "true" (JBool true) (c :: r)
      else if b =? 102 then literal "false" (JBool false) (c :: r)
      else if b =? 34 then
        match unquote_from 0 r with
        | Some (str, r') => Some (JStr (S_ str), r')
        | None => None
        end
      else if b =? 91 then
        match skip_ws r with
        | c' :: r' =>
          if byte_val c' =? 93 then Some (JArr [], r')
          else match parse_elems f r with
               | Some (l, r'') => Some (JArr l, r'')
               | None => None
               end
        | [] => None
        end
      else if b =? 123 then
        match skip_ws r with
        | c' :: r' =>
          if byte_val c' =? 125 then Some (JObj [], r')
          else match parse_members f r with
               | Some (l, r'') => Some (JObj l, r'')
               | None => None
               end
        | [] => None
        end
      else parse_number (c :: r)
    end
  end
with parse_elems (fuel : nat) (s : bytes) : option (list value * bytes) :=
  match fuel with
  | O => None
  | S f =>
    match parse_value f s with
    | None => None
    | Some (v, r) =>
      match skip_ws r with
      | c :: r' =>
        if byte_val c =? 44 then
          match parse_elems f r' with
          | Some (l, r'') => Some (v :: l, r'')
          | None => None
          end
        else if byte_val c =? 93 then Some ([v], r')
        else None
      | [] => None
      end
    end
  end
with parse_members (fuel : nat) (s : bytes) : option (list (string * value) * bytes) :=
  match fuel with
  | O => None
  | S f =>
    match skip_ws s with
    | q :: r0 =>
      if byte_val q =? 34 then
        match unquote_from 0 r0 with
        | None => None
        | Some (k, r1) =>
          match skip_ws r1 with
          | col :: r2 =>
            if byte_val col =? 58 then
              match parse_value f r2 with
              | None => None
              | Some (v, r3) =>
                match skip_ws r3 with
                | c :: r4 =>
                  if byte_val c =? 44 then
                    match parse_members f r4 with
                    | Some (l, r5) => Some ((S_ k, v) :: l, r5)
                    | None => None
                    end
                  else if byte_val c =? 125 then Some ([(S_ k, v)], r4)
                  else None
                | [] => None
                end
              end
            else None
          | [] => None
          end
        end
      else None
    | [] => None
    end
  end.

(** A whole document: one value, blanks around it, nothing else. *)
Definition parse (data : bytes) : option value :=
  match parse_value (S (length data)) data with
  | Some (v, r) => match skip_ws r with [] => Some v | _ => None end
  | None => None
  end.

End json.

(** ** Errors *)

(** The error values the modelled code can produce or pass on. *)
#[warnings="-register-all"]
Inductive error : Type :=
  | ENOENT (path : string)          (* os: no such file; os.IsNotExist holds *)
  | EOther (op path : string)       (* any other failure of a system call *)
  | SyntaxError                     (* encoding/json: malformed text *)
  | UnmarshalTypeError              (* encoding/json: a value of the wrong kind *)
  | ExitError (args : list string)  (* os/exec: the command failed *)
  | ErrClosedPipe                   (* io.ErrClosedPipe *)
  | ErrFileClosed                   (* os.ErrClosed *)
  | ErrProcessDone                  (* os.ErrProcessDone *)
  | Errorf (msg : string) (cause : option error). (* fmt.Errorf, %w when there is a cause *)

Inductive result (A : Type) : Type :=
  | Ok (a : A)
  | Err (e : error).
Arguments Ok {A} a.
Arguments Err {A} e.

Definition os_IsNotExist (e : error) : bool :=
  match e with ENOENT _ => true | _ => false end.

(** ** Files *)

(** [filepath.Join], without the normalisation of [filepath.Clean]. *)
Definition filepath_Join (elems : list string) : string := String.concat "/" elems.

(** What precedes the last slash of [s], if it has one. *)
Fixpoint before_last_slash (s : string) : option string :=
  match s with
  | EmptyString => None
  | String c s' =>
    match before_last_slash s' with
    | Some d => Some (String c d)
    | None => if Ascii.eqb c "/" then Some EmptyString else None
    end
  end.

(** [filepath.Dir], without the normalisation of [filepath.Clean]. *)
Definition filepath_Dir (s : string) : string :=
  match before_last_slash s with
  | Some EmptyString => "/"
  | Some d => d
  | None => "."
  end.

(** The part of the file system the store touches: the directories that
    exist and the contents of the regular files. *)
Record FS : Type := mkFS {
  dirs : gset string;
  files : gmap string bytes;
}.

(** [os.MkdirAll]: [fault] is the error the system answers, if any. *)
Definition os_MkdirAll (fault : option error) (dir : string) (fs : FS) : FS * option error :=
  match fault with
  | Some e => (fs, Some e)
  | None => (mkFS ({[dir]} ∪ dirs fs) (files fs), None)
  end.

(** What the system does with the write of one file. *)
Inductive write_outcome : Type :=
  | WriteOk
  | OpenFails (e : error)              (* the file could not be opened *)
  | WriteFails (n : nat) (e : error).  (* the write stopped after n bytes, or close failed *)

(** [os.WriteFile]: open with O_WRONLY|O_CREATE|O_TRUNC, which empties an
    existing file, then write the data in place, then close. *)
Definition os_WriteFile (o : write_outcome) (name : string) (data : bytes) (fs : FS)
  : FS * option error :=
  if decide (filepath_Dir name ∈ dirs fs) then
    match o with
    | OpenFails e => (fs, Some e)
    | WriteFails n e => (mkFS (dirs fs) (<[name := take n data]> (files fs)), Some e)
    | WriteOk => (mkFS (dirs fs) (<[name := data]> (files fs)), None)
    end
  else (fs, Some (ENOENT name)).

(** [os.ReadFile]: [fault] is the error the system answers for a file
    that exists, if any. *)
Definition os_ReadFile (fault : option error) (name : string) (fs : FS) : result bytes :=
  match files fs !! name with
  | None => Err (ENOENT name)
  | Some data =>
    match fault with
    | Some e => Err e
    | None => Ok data
    end
  end.

(** [os.Stat], as far as its error goes: a path that is neither a
    directory nor a file does not exist; [fault] is the error the system
    answers for one that exists, if any. *)
Definition os_Stat (fault : option error) (name : string) (fs : FS) : option error :=
  if decide (name ∈ dirs fs) then fault
  else match files fs !! name with
       | Some _ => fault
       | None => Some (ENOENT name)
       end.

(** [strings.Contains]. *)
Fixpoint strings_Contains (s substr : string) : bool :=
  String.prefix substr s
  || match s with
     | EmptyString => false
     | String _ s' => strings_Contains s' substr
     end.

(** ** Package worktree: the persistent state store (state.go) *)

Module worktree.

(** A [time.Time] is represented by its RFC 3339 text with nanoseconds,
    which is all of it that the state file keeps. The monotonic clock
    reading and the identity of the Location are not modelled, and a time
    whose year is outside 0..9999, which [MarshalJSON] refuses, is not a
    value of the model. *)
Definition Time : Type := string.
Definition zero_Time : Time := "0001-01-01T00:00:00Z".

Definition AgentStatus : Type := string.
Definition StatusPending : AgentStatus := "pending".
Definition StatusRunning : AgentStatus := "running".
Definition StatusCompleted : AgentStatus := "completed".
Definition StatusMerging : AgentStatus := "merging".
Definition StatusMerged : AgentStatus := "merged".
Definition StatusFailed : AgentStatus := "failed".

Record Agent : Type := mkAgent {
  ID : string;
  Branch : string;
  Worktree : string;
  Task : string;
  Status : AgentStatus;
  BaseBranch : string;
  BaseCommit : string;
  CreatedAt : Time;
  MergedAt : option Time;  (* *time.Time, omitempty *)
}.

Record MergeRecord : Type := mkMergeRecord {
  AgentID : string;
  MergeRecord_MergedAt : Time;
  MergeCommit : string;
  ConflictsResolved : Z;
  ConflictsEscalated : Z;
}.

(** The [Agents] map of a state is allocated: the states of the program
    come from [NewState] and [LoadState], which both see to it. A nil
    [MergeHistory] slice holds no record, as the empty one does, and both
    are the empty list. *)
Record State : Type := mkState {
  Version : string;
  RepoRoot : string;
  WorktreeDir : string;
  Agents : gmap string Agent;
  MergeHistory : list MergeRecord;
}.

Definition NewState (repoRoot : string) : State :=
  mkState "1.0" repoRoot ".worktrees" ∅ [].

Definition StateFilePath (repoRoot : string) : string :=
  filepath_Join [repoRoot; ".cwt"; "state.json"]%string.

(** *** The JSON form of the records, by their struct tags *)

Definition marshal_Agent (a : Agent) : json.value :=
  json.JObj
    ([("id", json.JStr (ID a)); ("branch", json.JStr (Branch a));
      ("worktree", json.JStr (Worktree a)); ("task", json.JStr (Task a));
      ("status", json.JStr (Status a)); ("baseBranch", json.JStr (BaseBranch a));
      ("baseCommit", json.JStr (BaseCommit a)); ("createdAt", json.JStr (CreatedAt a))]%string
     ++ match MergedAt a with
        | Some t => [("mergedAt"%string, json.JStr t)]
        | None => []
        end).

Definition marshal_MergeRecord (r : MergeRecord) : json.value :=
  json.JObj
    [("agentId", json.JStr (AgentID r)); ("mergedAt", json.JStr (MergeRecord_MergedAt r));
     ("mergeCommit", json.JStr (MergeCommit r));
     ("conflictsResolved", json.JNum (ConflictsResolved r));
     ("conflictsEscalated", json.JNum (ConflictsEscalated r))]%string.

Definition key_le {A} (p q : string * A) : Prop := String.leb p.1 q.1 = true.

#[global] Instance key_le_dec {A} (p q : string * A) : Decision (key_le p q).
Proof. unfold key_le. apply _. Defined.

(** A map is written with its keys in increasing byte order. *)
Definition marshal_Agents (m : gmap string Agent) : json.value :=
  json.JObj (merge_sort key_le (prod_map id marshal_Agent <$> map_to_list m)).

Definition marshal_State (s : State) : json.value :=
  json.JObj
    [("version", json.JStr (Version s)); ("repoRoot", json.JStr (RepoRoot s));
     ("worktreeDir", json.JStr (WorktreeDir s)); ("agents", marshal_Agents (Agents s));
     ("mergeHistory", json.JArr (marshal_MergeRecord <$> MergeHistory s))]%string.

(** The member of an object that sets the field tagged [k]: the last one
    with that name. (The match of names up to letter case, which Go falls
    back to, is not modelled.) *)
Definition field (k : string) (members : list (string * json.value)) : option json.value :=
  foldl (fun acc p => if String.eqb p.1 k then Some p.2 else acc) None members.

(** Decoders: [None] is a value of the wrong kind; an absent member and
    null leave the zero value. *)
Definition dec_string (o : option json.value) : option string :=
  match o with
  | None | Some json.JNull => Some EmptyString
  | Some (json.JStr s) => Some s
  | Some _ => None
  end.

Definition dec_int (o : option json.value) : option Z :=
  match o with
  | None | Some json.JNull => Some 0
  | Some (json.JNum n) => Some n
  | Some _ => None
  end.

Definition dec_Time (o : option json.value) : option Time :=
  match o with
  | None | Some json.JNull => Some zero_Time
  | Some (json.JStr s) => Some s
  | Some _ => None
  end.

Definition dec_Time_ptr (o : option json.value) : option (option Time) :=
  match o with
  | None | Some json.JNull => Some None
  | Some (json.JStr s) => Some (Some s)
  | Some _ => None
  end.

Definition unmarshal_Agent (v : json.value) : option Agent :=
  match v with
  | json.JObj m =>
    id ← dec_string (field "id" m);
    branch ← dec_string (field "branch" m);
    worktree ← dec_string (field "worktree" m);
    task ← dec_string (field "task" m);
    status ← dec_string (field "status" m);
    baseBranch ← dec_string (field "baseBranch" m);
    baseCommit ← dec_string (field "baseCommit" m);
    createdAt ← dec_Time (field "createdAt" m);
    mergedAt ← dec_Time_ptr (field "mergedAt" m);
    Some (mkAgent id branch worktree task status baseBranch baseCommit createdAt mergedAt)
  | _ => None
  end.

Definition unmarshal_MergeRecord (v : json.value) : option MergeRecord :=
  match v with
  | json.JNull => Some (mkMergeRecord EmptyString zero_Time EmptyString 0 0)
  | json.JObj m =>
    agentId ← dec_string (field "agentId" m);
    mergedAt ← dec_Time (field "mergedAt" m);
    mergeCommit ← dec_string (field "mergeCommit" m);
    resolved ← dec_int (field "conflictsResolved" m);
    escalated ← dec_int (field "conflictsEscalated" m);
    Some (mkMergeRecord agentId mergedAt mergeCommit resolved escalated)
  | _ => None
  end.

(** The [agents] member: null or absent leaves the map nil; an object
    sets one entry per member, a later member replacing an earlier one
    with the same key. (An entry that is null would be a nil *Agent; it is
    outside the model and reported as a value of the wrong kind.) *)
Definition unmarshal_Agents (o : option json.value) : option (option (gmap string Agent)) :=
  match o with
  | None | Some json.JNull => Some None
  | Some (json.JObj m) =>
    l ← mapM (fun p => a ← unmarshal_Agent p.2; Some (p.1, a)) m;
    Some (Some (foldl (fun acc p => <[p.1 := p.2]> acc) ∅ l))
  | Some _ => None
  end.

Definition unmarshal_MergeHistory (o : option json.value) : option (list MergeRecord) :=
  match o with
  | None | Some json.JNull => Some []
  | Some (json.JArr l) => mapM unmarshal_MergeRecord l
  | Some _ => None
  end.

(** The struct [json.Unmarshal] leaves in [var state State]: the Agents
    map may still be nil. *)
Record RawState : Type := mkRawState {
  raw_Version : string;
  raw_RepoRoot : string;
  raw_WorktreeDir : string;
  raw_Agents : option (gmap string Agent);
  raw_MergeHistory : list MergeRecord;
}.

Definition unmarshal_State (v : json.value) : option RawState :=
  match v with
  | json.JNull => Some (mkRawState EmptyString EmptyString EmptyString None [])
  | json.JObj m =>
    version ← dec_string (field "version" m);
    repoRoot ← dec_string (field "repoRoot" m);
    worktreeDir ← dec_string (field "worktreeDir" m);
    agents ← unmarshal_Agents (field "agents" m);
    history ← unmarshal_MergeHistory (field "mergeHistory" m);
    Some (mkRawState version repoRoot worktreeDir agents history)
  | _ => None
  end.

(** [json.MarshalIndent(s, "", "  ")]. *)
Definition json_MarshalIndent (s : State) : bytes := json.MarshalIndent (marshal_State s).

(** [json.Unmarshal(data, &state)]. *)
Definition json_Unmarshal (data : bytes) : result RawState :=
  match json.parse data with
  | None => Err SyntaxError
  | Some v =>
    match unmarshal_State v with
    | None => Err UnmarshalTypeError
    | Some raw => Ok raw
    end
  end.

(** *** LoadState and Save *)

(** [LoadState]: [fault] is what the system answers to the read. *)
Definition LoadState (fault : option error) (repoRoot : string) (fs : FS) : result State :=
  let stateFile := StateFilePath repoRoot in
  match os_ReadFile fault stateFile fs with
  | Err err => if os_IsNotExist err then Ok (NewState repoRoot) else Err err
  | Ok data =>
    match json_Unmarshal data with
    | Err err => Err err
    | Ok raw =>
      (* Ensure maps are initialized *)
      Ok (mkState (raw_Version raw) (raw_RepoRoot raw) (raw_WorktreeDir raw)
                  (default ∅ (raw_Agents raw)) (raw_MergeHistory raw))
    end
  end.

(** What the system answers to the two calls of one [Save]. *)
Record SaveIO : Type := mkSaveIO {
  mkdir_fault : option error;
  write_result : write_outcome;
}.

Definition io_ok : SaveIO := mkSaveIO None WriteOk.

(** [State.Save]. In the model [json.MarshalIndent] cannot fail (see
    [Time]), so the second early return of the source has no counterpart. *)
Definition Save (s : State) (io : SaveIO) (fs : FS) : FS * option error :=
  let stateFile := StateFilePath (RepoRoot s) in
  (* Ensure directory exists *)
  match os_MkdirAll (mkdir_fault io) (filepath_Dir stateFile) fs with
  | (fs1, Some err) => (fs1, Some err)
  | (fs1, None) =>
    let data := json_MarshalIndent s in
    os_WriteFile (write_result io) stateFile data fs1
  end.

Definition AddAgent (s : State) (agent : Agent) : State :=
  mkState (Version s) (RepoRoot s) (WorktreeDir s) (<[ID agent := agent]> (Agents s))
          (MergeHistory s).

Definition GetAgent (s : State) (id : string) : option Agent := Agents s !! id.

Definition RemoveAgent (s : State) (id : string) : State :=
  mkState (Version s) (RepoRoot s) (WorktreeDir s) (delete id (Agents s)) (MergeHistory s).

(** A write through the [*Agent] that [GetAgent] returned for [id]. *)
Definition set_agent (s : State) (id : string) (a : Agent) : State :=
  mkState (Version s) (RepoRoot s) (WorktreeDir s) (<[id := a]> (Agents s)) (MergeHistory s).

(** *** The branch lifecycle manager (manager.go) *)

Record Manager : Type := mkManager {
  repoRoot : string;
  state : State;
}.

(** What the outside world answers during one operation: git for each
    command line (the trimmed output and the error of [Manager.git]), the
    clock at the k-th call of [time.Now], the two bytes [rand.Read]
    delivers, and the system's answers to the k-th [Save]. *)
Record Env : Type := mkEnv {
  git_answer : list string -> string * option error;
  clock : nat -> Time;
  random : ascii * ascii;
  save_io : nat -> SaveIO;
}.

(** What an operation does to the outside world, in order. *)
Inductive event : Type :=
  | EvGit (dir : string) (args : list string)
  | EvSave (s : State) (err : option error).

Record Sys : Type := mkSys {
  manager : Manager;
  disk : FS;
  trace : list event;
}.

Definition M (A : Type) : Type := Sys -> A * Sys.

#[global] Instance M_ret : MRet M := fun A a sys => (a, sys).
#[global] Instance M_bind : MBind M := fun A B f c sys => let '(a, sys') := c sys in f a sys'.

Definition get_manager : M Manager := fun sys => (manager sys, sys).

Definition update_state (f : State -> State) : M unit := fun sys =>
  (tt, mkSys (mkManager (repoRoot (manager sys)) (f (state (manager sys)))) (disk sys) (trace sys)).

(** [time.Now().Format("20060102")], read off the RFC 3339 text. *)
Definition Format_20060102 (t : Time) : string :=
  substring 0 4 t +:+ substring 5 2 t +:+ substring 8 2 t.

(** [generateID]. *)
Definition generateID (now : Time) (rnd : ascii * ascii) : string :=
  let timestamp := Format_20060102 now in
  let suffix := S_ (hex_EncodeToString [rnd.1; rnd.2]) in
  "cwt-" +:+ timestamp +:+ "-" +:+ suffix.

(** [Manager.git]. *)
Definition git (env : Env) (args : list string) : M (string * option error) := fun sys =>
  (git_answer env args,
   mkSys (manager sys) (disk sys) (trace sys ++ [EvGit (repoRoot (manager sys)) args])).

(** [m.state.Save()], the k-th of the operation. *)
Definition save (env : Env) (k : nat) : M (option error) := fun sys =>
  let s := state (manager sys) in
  let '(fs, err) := Save s (save_io env k) (disk sys) in
  (err, mkSys (manager sys) fs (trace sys ++ [EvSave s err])).

Definition GetCurrentBranch (env : Env) : M (string * option error) :=
  git env ["rev-parse"; "--abbrev-ref"; "HEAD"]%string.

Definition GetCurrentCommit (env : Env) : M (string * option error) :=
  git env ["rev-parse"; "HEAD"]%string.

Section Slugify.

(** [unicode.ToLower] on the runes from U+0080 on: the Unicode case
    tables, which are not part of the repository. *)
Variable case_table : Z -> Z.

Definition unicode_ToLower (r : Z) : Z :=
  if r <? 128 then (if (65 <=? r) && (r <=? 90) then r + 32 else r) else case_table r.

(** [strings.ToLower]: every rune is mapped and written back; a byte that
    is not well-formed UTF-8 counts as U+FFFD, a negative result is dropped. *)
Definition strings_ToLower (s : bytes) : bytes :=
  flat_map (fun r => let r' := unicode_ToLower r in
                     if r' <? 0 then [] else utf8.EncodeRune r') (utf8.runes s).

(** The class a-z0-9 of the regular expression, on runes. *)
Definition is_lower_alnum (r : Z) : bool :=
  ((97 <=? r) && (r <=? 122)) || ((48 <=? r) && (r <=? 57)).

(** Replacing every match of [[^a-z0-9]+] by a dash: a rune of the class
    a-z0-9 is copied, and each maximal run of other runes gives one dash.
    [in_run] says that the previous rune was part of such a run. *)
Fixpoint replace_runs (in_run : bool) (rs : list Z) : bytes :=
  match rs with
  | [] => []
  | r :: t =>
    if is_lower_alnum r then byte_of r :: replace_runs false t
    else if in_run then replace_runs true t
    else "-"%char :: replace_runs true t
  end.

Definition ReplaceAllString_dash (s : bytes) : bytes := replace_runs false (utf8.runes s).

Fixpoint trim_left_dash (s : bytes) : bytes :=
  match s with
  | c :: t => if Ascii.eqb c "-" then trim_left_dash t else s
  | [] => []
  end.

(** [strings.Trim(s, "-")]. *)
Definition strings_Trim_dash (s : bytes) : bytes :=
  rev (trim_left_dash (rev (trim_left_dash s))).

(** The branch suffix before it is cut to 30 bytes. *)
Definition slug_untruncated (s : bytes) : bytes :=
  (* Convert to lowercase *)
  let s := strings_ToLower s in
  (* Replace non-alphanumeric with dashes *)
  let s := ReplaceAllString_dash s in
  (* Trim dashes *)
  strings_Trim_dash s.

(** [slugify]. *)
Definition slugify (s : string) : string :=
  let s := slug_untruncated (B s) in
  (* Limit length *)
  S_ (if (30 <? Z.of_nat (length s)) then take 30 s else s).

(** [Manager.CreateWorktree]. *)
Definition CreateWorktree (env : Env) (task : string) : M (result Agent) :=
  m ← get_manager;
  (* Generate IDs *)
  let id := generateID (clock env 0) (random env) in
  let slug := slugify task in
  let branch := "cwt/" +:+ id +:+ "/" +:+ slug in
  let worktreePath := filepath_Join [repoRoot m; WorktreeDir (state m); id] in
  (* Get current branch and commit for base *)
  '(baseBranch, err) ← GetCurrentBranch env;
  match err with
  | Some e => mret (Err (Errorf "failed to get current branch" (Some e)))
  | None =>
    '(baseCommit, err) ← GetCurrentCommit env;
    match err with
    | Some e => mret (Err (Errorf "failed to get current commit" (Some e)))
    | None =>
      (* Create worktree with new branch *)
      '(_, err) ← git env ["worktree"; "add"; "-b"; branch; worktreePath]%string;
      match err with
      | Some e => mret (Err (Errorf "failed to create worktree" (Some e)))
      | None =>
        (* Create agent record *)
        let agent := mkAgent id branch worktreePath task StatusRunning
                             baseBranch baseCommit (clock env 1) None in
        (* Save state *)
        _ ← update_state (fun s => AddAgent s agent);
        err ← save env 0;
        match err with
        | Some e =>
          (* Try to clean up worktree on save failure *)
          _ ← git env ["worktree"; "remove"; worktreePath]%string;
          _ ← git env ["branch"; "-D"; branch]%string;
          mret (Err (Errorf "failed to save state" (Some e)))
        | None => mret (Ok agent)
        end
      end
    end
  end.

End Slugify.

Definition not_found (id : string) : error :=
  Errorf ("agent " +:+ id +:+ " not found") None.

(** [Manager.RemoveWorktree]. *)
Definition RemoveWorktree (env : Env) (id : string) : M (option error) :=
  m ← get_manager;
  match GetAgent (state m) id with
  | None => mret (Some (not_found id))
  | Some agent =>
    (* Remove worktree *)
    '(_, err) ← git env ["worktree"; "remove"; Worktree agent]%string;
    _ ← match err with
        | Some _ =>
          (* Try force remove if normal fails *)
          _ ← git env ["worktree"; "remove"; "--force"; Worktree agent]%string; mret tt
        | None => mret tt
        end;
    (* Delete branch *)
    '(_, err) ← git env ["branch"; "-d"; Branch agent]%string;
    _ ← match err with
        | Some _ =>
          (* Force delete if not merged *)
          _ ← git env ["branch"; "-D"; Branch agent]%string; mret tt
        | None => mret tt
        end;
    (* Update state *)
    _ ← update_state (fun s => RemoveAgent s id);
    save env 0
  end.

Definition with_Status (a : Agent) (status : AgentStatus) : Agent :=
  mkAgent (ID a) (Branch a) (Worktree a) (Task a) status (BaseBranch a) (BaseCommit a)
          (CreatedAt a) (MergedAt a).

Definition with_MergedAt (a : Agent) (t : option Time) : Agent :=
  mkAgent (ID a) (Branch a) (Worktree a) (Task a) (Status a) (BaseBranch a) (BaseCommit a)
          (CreatedAt a) t.

(** [Manager.UpdateAgentStatus]. *)
Definition UpdateAgentStatus (env : Env) (id : string) (status : AgentStatus) : M (option error) :=
  m ← get_manager;
  match GetAgent (state m) id with
  | None => mret (Some (not_found id))
  | Some agent =>
    _ ← update_state (fun s => set_agent s id (with_Status agent status));
    save env 0
  end.

(** [Manager.Merge]. The result of the first [Save] is dropped, as in the
    source. *)
Definition Merge (env : Env) (id : string) : M (option error) :=
  m ← get_manager;
  match GetAgent (state m) id with
  | None => mret (Some (not_found id))
  | Some agent =>
    (* Update status *)
    let agent := with_Status agent StatusMerging in
    _ ← update_state (fun s => set_agent s id agent);
    _ ← save env 0;
    (* Checkout base branch *)
    '(_, err) ← git env ["checkout"; BaseBranch agent]%string;
    match err with
    | Some e => mret (Some (Errorf "failed to checkout base branch" (Some e)))
    | None =>
      (* Merge *)
      let msg := "Merge " +:+ ID agent +:+ ": " +:+ Task agent in
      '(_, err) ← git env ["merge"; "--no-ff"; "-m"; msg; Branch agent]%string;
      match err with
      | Some e => mret (Some (Errorf "merge failed" (Some e)))
      | None =>
        (* Update status *)
        let now := clock env 0 in
        let agent := with_MergedAt (with_Status agent StatusMerged) (Some now) in
        _ ← update_state (fun s => set_agent s id agent);
        save env 1
      end
    end
  end.

(** *** The rest of the state store (state.go) *)

(** [State.ListAgents]. A [range] over a map visits every entry once, in
    an order the language leaves open: [visit] is the entries of
    [s.Agents] in the order of this run. *)
Definition ListAgents (visit : list (string * Agent)) : list Agent :=
  foldl (fun agents p => agents ++ [p.2]) [] visit.

(** [State.ListByStatus], with [visit] as in [ListAgents]. *)
Definition ListByStatus (status : AgentStatus) (visit : list (string * Agent)) : list Agent :=
  foldl (fun agents p => if String.eqb (Status p.2) status then agents ++ [p.2] else agents)
        [] visit.

(** *** The rest of the manager (manager.go) *)

(** [NewManager]: [stat_fault] and [read_fault] are what the system
    answers to [os.Stat] and [os.ReadFile] when the path exists. *)
Definition NewManager (stat_fault read_fault : option error) (repoRoot : string) (fs : FS)
  : result Manager :=
  (* Verify this is a git repo *)
  if match os_Stat stat_fault (filepath_Join [repoRoot; ".git"]%string) fs with
     | Some err => os_IsNotExist err
     | None => false
     end
  then Err (Errorf ("not a git repository: " +:+ repoRoot) None)
  else
    match LoadState read_fault repoRoot fs with
    | Err err => Err (Errorf "failed to load state" (Some err))
    | Ok state =>
      let state := mkState (Version state) repoRoot (WorktreeDir state) (Agents state)
                           (MergeHistory state) in
      Ok (mkManager repoRoot state)
    end.

(** [Manager.GetAgent], [Manager.ListAgents], [Manager.State]. *)
Definition Manager_GetAgent (m : Manager) (id : string) : option Agent := GetAgent (state m) id.

Definition Manager_ListAgents (visit : list (string * Agent)) : list Agent := ListAgents visit.

Definition Manager_State (m : Manager) : State := state m.

(** [Manager.GetWorktreePath]. *)
Definition GetWorktreePath (m : Manager) : string :=
  filepath_Join [repoRoot m; WorktreeDir (state m)].

(** [Manager.GetRepoRoot]. *)
Definition GetRepoRoot (m : Manager) : string := repoRoot m.

(** [Manager.GetDiff]. *)
Definition GetDiff (env : Env) (id : string) : M (string * option error) :=
  m ← get_manager;
  match GetAgent (state m) id with
  | None => mret (EmptyString, Some (not_found id))
  | Some agent => git env ["diff"; BaseBranch agent +:+ "..." +:+ Branch agent]%string
  end.

(** [Manager.GetCommits]. *)
Definition GetCommits (env : Env) (id : string) : M (string * option error) :=
  m ← get_manager;
  match GetAgent (state m) id with
  | None => mret (EmptyString, Some (not_found id))
  | Some agent =>
    git env ["log"; "--oneline"; BaseBranch agent +:+ ".." +:+ Branch agent]%string
  end.

(** [Manager.HasConflicts]: the error of [merge-tree] is dropped. *)
Definition HasConflicts (env : Env) (id : string) : M (bool * option error) :=
  m ← get_manager;
  match GetAgent (state m) id with
  | None => mret (false, Some (not_found id))
  | Some agent =>
    (* Get merge base *)
    '(mergeBase, err) ← git env ["merge-base"; BaseBranch agent; Branch agent]%string;
    match err with
    | Some e => mret (false, Some e)
    | None =>
      (* Check merge-tree for conflicts *)
      '(output, _) ← git env ["merge-tree"; mergeBase; BaseBranch agent; Branch agent]%string;
      mret (strings_Contains output "<<<<<<", None)
    end
  end.

End worktree.

(** ** Package pty: ring buffer and session (session.go) *)

(** The processes and pseudo-terminal devices of the operating system, as
    far as stopping a session touches them. *)
Record OS : Type := mkOS {
  open_files : gset nat;  (* descriptors that are open *)
  running : gset nat;     (* processes that have not ended *)
}.

(** [os.File.Close]: closing a file twice is an error. *)
Definition File_Close (fd : nat) (os : OS) : OS * option error :=
  if decide (fd ∈ open_files os)
  then (mkOS (open_files os ∖ {[fd]}) (running os), None)
  else (os, Some ErrFileClosed).

(** [os.Process.Kill]: killing a process that has ended is an error. *)
Definition Process_Kill (pid : nat) (os : OS) : OS * option error :=
  if decide (pid ∈ running os)
  then (mkOS (open_files os) (running os ∖ {[pid]}), None)
  else (os, Some ErrProcessDone).

(** [exec.Cmd], as far as it is used. *)
Record Cmd : Type := mkCmd {
  Process : option nat;
}.

(** What [pty.Start] answers. *)
Inductive start_outcome : Type :=
  | Started (fd pid : nat)
  | StartFails (e : error).

(** What the system does with a write to an open descriptor. *)
Inductive write_answer : Type :=
  | Wrote                              (* all of the data *)
  | WroteOnly (n : nat) (e : error).   (* the first n bytes, then the error *)

(** [os.File.Write]: the count and the error it returns, and what reached
    the device. A closed file takes nothing. *)
Definition File_Write (o : write_answer) (fd : nat) (data : bytes) (os : OS)
  : Z * option error * list (nat * bytes) :=
  if decide (fd ∈ open_files os) then
    match o with
    | Wrote => (Z.of_nat (length data), None, [(fd, data)])
    | WroteOnly n e => (Z.of_nat (length (take n data)), Some e, [(fd, take n data)])
    end
  else (0, Some ErrFileClosed, []).

(** The conversions [uint16(x)] of an [int]. *)
Definition uint16 (z : Z) : Z := z mod 65536.

(** [pty.Setsize]: the error it returns and the window size the device
    got, if it got one; [fault] is the error the system answers on an open
    descriptor, if any. *)
Definition Setsize (fault : option error) (fd : nat) (rows cols : Z) (os : OS)
  : option error * list (nat * Z * Z) :=
  if decide (fd ∈ open_files os) then
    match fault with
    | Some e => (Some e, [])
    | None => (None, [(fd, rows, cols)])
    end
  else (Some (EOther "ioctl" "TIOCSWINSZ"), []).

(** Go [int] arithmetic. *)
Definition int_wrap (z : Z) : Z := (z + 2 ^ 63) mod 2 ^ 64 - 2 ^ 63.
Definition int_add (a b : Z) : Z := int_wrap (a + b).

(** [a % b]; [None] is the run-time panic on a zero divisor. *)
Definition int_rem (a b : Z) : option Z :=
  if b =? 0 then None else Some (int_wrap (Z.rem a b)).

Module pty.

Record RingBuffer : Type := mkRingBuffer {
  data : bytes;
  size : Z;
  start : Z;
  len : Z;
}.

(** The largest allocation of the Go runtime on a 64-bit platform. *)
Definition maxAlloc : Z := 2 ^ 48.

(** [NewRingBuffer]; [None] is the panic of [make] on a length that is
    negative or larger than the runtime can allocate. *)
Definition NewRingBuffer (size : Z) : option RingBuffer :=
  if (size <? 0) || (maxAlloc <? size) then None
  else Some (mkRingBuffer (replicate (Z.to_nat size) Ascii.zero) size 0 0).

(** [r.data[pos] = b]; [None] is the panic on an index out of range. *)
Definition store (d : bytes) (pos : Z) (b : ascii) : option bytes :=
  if (0 <=? pos) && (pos <? Z.of_nat (length d))
  then Some (<[Z.to_nat pos := b]> d) else None.

(** [r.data[pos]]. *)
Definition load (d : bytes) (pos : Z) : option ascii :=
  if 0 <=? pos then d !! Z.to_nat pos else None.

(** One round of the loop of [RingBuffer.Write]. *)
Definition write_byte (r : RingBuffer) (b : ascii) : option RingBuffer :=
  pos ← int_rem (int_add (start r) (len r)) (size r);
  d ← store (data r) pos b;
  if len r <? size r
  then Some (mkRingBuffer d (size r) (start r) (int_add (len r) 1))
  else
    start' ← int_rem (int_add (start r) 1) (size r);
    Some (mkRingBuffer d (size r) start' (len r)).

Fixpoint write_loop (r : RingBuffer) (p : bytes) : option RingBuffer :=
  match p with
  | [] => Some r
  | b :: p' => r' ← write_byte r b; write_loop r' p'
  end.

(** [RingBuffer.Write]: the buffer after the call and the pair it returns;
    [None] is a run-time panic. *)
Definition Write (r : RingBuffer) (p : bytes) : option (RingBuffer * (Z * option error)) :=
  r' ← write_loop r p;
  Some (r', (Z.of_nat (length p), None)).

(** [RingBuffer.Bytes]; [None] is a run-time panic. *)
Definition Bytes (r : RingBuffer) : option bytes :=
  if len r <? 0 then None
  else mapM (fun i => pos ← int_rem (int_add (start r) i) (size r); load (data r) pos)
            (seqZ 0 (len r)).

Record Session : Type := mkSession {
  ID : string;
  Workdir : string;
  Task : string;
  pty : option nat;    (* *os.File *)
  cmd : option Cmd;    (* *exec.Cmd *)
  buffer : RingBuffer;
}.

(** [NewSession]. *)
Definition NewSession (id workdir task : string) : option Session :=
  buffer ← NewRingBuffer (1024 * 1024);
  Some (mkSession id workdir task None None buffer).

(** [Session.Start], up to the start of the reader. *)
Definition Start (o : start_outcome) (s : Session) (os : OS) : Session * OS * option error :=
  match o with
  | StartFails err => (s, os, Some err)
  | Started fd pid =>
    (mkSession (ID s) (Workdir s) (Task s) (Some fd) (Some (mkCmd (Some pid))) (buffer s),
     mkOS ({[fd]} ∪ open_files os) ({[pid]} ∪ running os), None)
  end.

(** [Session.Stop]: the errors of [Close] and [Kill] are dropped. *)
Definition Stop (s : Session) (os : OS) : OS * option error :=
  let os :=
    match pty s with
    | Some f => (File_Close f os).1
    | None => os
    end in
  let os :=
    match cmd s with
    | Some c =>
      match Process c with
      | Some p => (Process_Kill p os).1
      | None => os
      end
    | None => os
    end in
  (os, None).

(** [RingBuffer.String]. *)
Definition RingBuffer_String (r : RingBuffer) : option string :=
  b ← Bytes r; Some (S_ b).

(** [Session.readLoop]: [reads] is what the reads of the device delivered
    before the one that failed (each at most 4096 bytes, the size of the
    buffer read into); the failing read ends the loop. The callback
    [onOutput] is not modelled: the ones the program installs do nothing. *)
Fixpoint readLoop (reads : list bytes) (s : Session) : option Session :=
  match reads with
  | [] => Some s
  | chunk :: reads' =>
    if 0 <? Z.of_nat (length chunk) then
      '(buffer', _) ← Write (buffer s) chunk;
      readLoop reads' (mkSession (ID s) (Workdir s) (Task s) (pty s) (cmd s) buffer')
    else readLoop reads' s
  end.

(** [Session.Write]. *)
Definition Session_Write (o : write_answer) (data : bytes) (s : Session) (os : OS)
  : Z * option error * list (nat * bytes) :=
  match pty s with
  | None => (0, Some ErrClosedPipe, [])
  | Some f => File_Write o f data os
  end.

(** [Session.Output]. *)
Definition Output (s : Session) : option string := RingBuffer_String (buffer s).

(** [Session.Resize]: the arguments are [uint16]s. *)
Definition Resize (fault : option error) (rows cols : Z) (s : Session) (os : OS)
  : option error * list (nat * Z * Z) :=
  match pty s with
  | None => (None, [])
  | Some f => Setsize fault f rows cols os
  end.

End pty.

(** ** Package pty, the variant with a virtual terminal, and the session
    registry that is written against it (its [ResizeAll] passes [int]s to
    [Session.Resize]) *)

Module vt.

Record Session : Type := mkSession {
  ID : string;
  Workdir : string;
  Task : string;
  ptmx : option nat;        (* *os.File *)
  cmd : option Cmd;         (* *exec.Cmd *)
  term : option (Z * Z);    (* vt10x.Terminal: only its size is kept *)
  rows : Z;
  cols : Z;
}.

(** [NewSession]. *)
Definition NewSession (id workdir task : string) : Session :=
  mkSession id workdir task None None None 24 80.

(** [Session.Start], up to the start of the reader; the virtual terminal
    is created before the command is started. *)
Definition Start (o : start_outcome) (s : Session) (os : OS) : Session * OS * option error :=
  let s := mkSession (ID s) (Workdir s) (Task s) (ptmx s) (cmd s)
                     (Some (cols s, rows s)) (rows s) (cols s) in
  match o with
  | StartFails err => (s, os, Some err)
  | Started fd pid =>
    (mkSession (ID s) (Workdir s) (Task s) (Some fd) (Some (mkCmd (Some pid)))
               (term s) (rows s) (cols s),
     mkOS ({[fd]} ∪ open_files os) ({[pid]} ∪ running os), None)
  end.

(** [Session.Stop]: the errors of [Close] and [Kill] are dropped. *)
Definition Stop (s : Session) (os : OS) : OS * option error :=
  let os :=
    match ptmx s with
    | Some f => (File_Close f os).1
    | None => os
    end in
  let os :=
    match cmd s with
    | Some c =>
      match Process c with
      | Some p => (Process_Kill p os).1
      | None => os
      end
    | None => os
    end in
  (os, None).

(** The session registry. *)
Record Manager : Type := mkManager {
  sessions : gmap string Session;
}.

Definition NewManager : Manager := mkManager ∅.

(** [Manager.Spawn]: [o] is what [pty.StartWithSize] answers. *)
Definition Spawn (o : start_outcome) (id workdir task : string) (m : Manager) (os : OS)
  : result Session * Manager * OS :=
  match sessions m !! id with
  | Some _ => (Err (Errorf ("session " +:+ id +:+ " already exists") None), m, os)
  | None =>
    let session := NewSession id workdir task in
    match Start o session os with
    | (_, os', Some err) => (Err (Errorf "failed to start session" (Some err)), m, os')
    | (session, os', None) => (Ok session, mkManager (<[id := session]> (sessions m)), os')
    end
  end.

(** [Manager.Get]. *)
Definition Get (m : Manager) (id : string) : option Session := sessions m !! id.

(** [Manager.Kill]. *)
Definition Kill (id : string) (m : Manager) (os : OS) : option error * Manager * OS :=
  match sessions m !! id with
  | None => (Some (Errorf ("session " +:+ id +:+ " not found") None), m, os)
  | Some session =>
    match Stop session os with
    | (os', Some err) => (Some err, m, os')
    | (os', None) => (None, mkManager (delete id (sessions m)), os')
    end
  end.

(** [Session.Write]. *)
Definition Write (o : write_answer) (data : bytes) (s : Session) (os : OS)
  : Z * option error * list (nat * bytes) :=
  match ptmx s with
  | None => (0, Some ErrClosedPipe, [])
  | Some f => File_Write o f data os
  end.

(** [Session.WriteString]. *)
Definition WriteString (o : write_answer) (str : string) (s : Session) (os : OS)
  : Z * option error * list (nat * bytes) :=
  Write o (B str) s os.

(** [Session.Output]: [screen] is what [term.String()] answers, the text
    the virtual terminal shows. *)
Definition Output (screen : string) (s : Session) : string :=
  match term s with
  | None => EmptyString
  | Some _ => screen
  end.

(** [Session.Resize]. *)
Definition Resize (fault : option error) (rows' cols' : Z) (s : Session) (os : OS)
  : Session * option error * list (nat * Z * Z) :=
  let s := mkSession (ID s) (Workdir s) (Task s) (ptmx s) (cmd s)
                     (match term s with
                      | Some _ => Some (cols', rows')
                      | None => None
                      end) rows' cols' in
  match ptmx s with
  | Some f =>
    let '(err, sizes) := Setsize fault f (uint16 rows') (uint16 cols') os in
    (s, err, sizes)
  | None => (s, None, [])
  end.

(** [Session.Rows] and [Session.Cols]. *)
Definition Rows (s : Session) : Z := rows s.

Definition Cols (s : Session) : Z := cols s.

(** [Manager.List]: [visit] is the entries of the registry in the order the
    [range] of this run visits them. *)
Definition List (visit : list (string * Session)) : list string :=
  foldl (fun ids p => ids ++ [p.1]) [] visit.

(** [Manager.Write]. *)
Definition Manager_Write (o : write_answer) (id : string) (data : bytes) (m : Manager) (os : OS)
  : Z * option error * list (nat * bytes) :=
  match Get m id with
  | None => (0, Some (Errorf ("session " +:+ id +:+ " not found") None), [])
  | Some session => Write o data session os
  end.

(** [Manager.ResizeAll]: the error of each [Resize] is dropped; [faults]
    is what the system answers for the device of each session. *)
Definition ResizeAll (faults : string -> option error) (rows' cols' : Z)
    (visit : list (string * Session)) (m : Manager) (os : OS)
  : Manager * list (nat * Z * Z) :=
  foldl (fun acc p =>
           let '(session, _, sizes) := Resize (faults p.1) rows' cols' p.2 os in
           (mkManager (<[p.1 := session]> (sessions acc.1)), acc.2 ++ sizes))
        (m, []) visit.

(** [Manager.StopAll]. *)
Definition StopAll (visit : list (string * Session)) (m : Manager) (os : OS) : Manager * OS :=
  foldl (fun acc p =>
           let '(os', _) := Stop p.2 acc.2 in
           (mkManager (delete p.1 (sessions acc.1)), os'))
        (m, os) visit.

(** [Manager.Count]. *)
Definition Count (m : Manager) : Z := Z.of_nat (size (sessions m)).

End vt.

(** ** Package tui: the tabs of the terminal interface over the sessions
    and the worktrees

    The model of the interface and the functions that change it. The two
    managers are pointers in the source, shared by every copy of the
    model: they are kept in the [World], next to the system they act on.
    What the styling library draws (the tab bar, the status bar) is not
    part of the embedding. *)

Module tui.

(** [Tab]. The [Agent] pointer is only compared with [nil] and followed to
    the [ID] of the agent, which nothing assigns after the agent is made:
    it is kept as that ID. *)
Record Tab : Type := mkTab {
  ID : string;
  Name : string;
  IsMain : bool;
  SessionID : string;
  Agent : option string;
}.

(** A [func(string)] value in [inputAction]. The only function the source
    stores there is the method value [m.createNewAgent]; [createNewAgent]
    has a pointer receiver, so the value holds the address of the [Model]
    it was taken from, and a call reads and writes that [Model]. These are
    the fields of it that [createNewAgent] uses. *)
Record Receiver : Type := mkReceiver {
  r_tabs : list Tab;
  r_activeTab : Z;
  r_width : Z;
  r_height : Z;
}.

(** [Model], without the two manager pointers. *)
Record Model : Type := mkModel {
  tabs : list Tab;
  activeTab : Z;
  width : Z;
  height : Z;
  inputMode : bool;
  inputBuffer : string;
  inputPrompt : string;
  inputAction : option Receiver;
  quitting : bool;
  ready : bool;
}.

(** What the two manager pointers lead to, and what reached the
    pseudo-terminal devices. *)
Record World : Type := mkWorld {
  wtManager : worktree.Sys;
  ptyManager : vt.Manager;
  system : OS;
  sent : list (nat * bytes);      (* the data written to the devices *)
  sized : list (nat * Z * Z);     (* the window sizes given to the devices *)
}.

(** What the outside answers during one call of the interface: to the
    k-th operation of the worktree manager, to the start of a session, to
    the resizing of the device of each session, to a write, and the order
    in which a [range] visits the session registry. *)
Record Outside : Type := mkOutside {
  manager_env : nat -> worktree.Env;
  start : start_outcome;
  resize_fault : string -> option error;
  write : write_answer;
  range_order : list (string * vt.Session);
}.

(** [tea.KeyMsg]: the key types the source names, the runes of the key and
    what the library's [String()] answers for it. *)
Inductive KeyType : Type :=
  | KeyRunes | KeyEnter | KeyBackspace | KeyTab | KeySpace | KeyEscape
  | KeyUp | KeyDown | KeyRight | KeyLeft | KeyHome | KeyEnd
  | KeyPgUp | KeyPgDown | KeyDelete
  | KeyCtrlA | KeyCtrlB | KeyCtrlC | KeyCtrlD | KeyCtrlE | KeyCtrlF | KeyCtrlG
  | KeyCtrlH | KeyCtrlJ | KeyCtrlK | KeyCtrlL | KeyCtrlN | KeyCtrlO | KeyCtrlP
  | KeyCtrlR | KeyCtrlS | KeyCtrlT | KeyCtrlU | KeyCtrlV | KeyCtrlW | KeyCtrlX
  | KeyCtrlY | KeyCtrlZ
  | KeyOther.

Record KeyMsg : Type := mkKeyMsg {
  key_Type : KeyType;
  key_Runes : list Z;
  key_String : string;
}.

(** [tea.Msg], as far as [Update] tells the messages apart. *)
Inductive Msg : Type :=
  | Key (msg : KeyMsg)
  | WindowSizeMsg (Width Height : Z)
  | tickMsg
  | OtherMsg.

(** [tea.Cmd]: [nil], the next tick, [tea.Quit]. *)
Inductive Cmd : Type :=
  | CmdNil
  | CmdTick
  | CmdQuit.

(** The horizontal ellipsis U+2026, in UTF-8. *)
Definition ellipsis : string := S_ ["226"; "128"; "166"]%char.

(** [truncate]. [None] is the run-time panic of [s[:max-1]] on a negative
    bound; a bound that is not negative is below [len(s)] here. *)
Definition truncate (s : string) (max : Z) : option string :=
  if Z.of_nat (String.length s) <=? max then Some s
  else if int_wrap (max - 1) <? 0 then None
  else if Z.of_nat (String.length s) <? int_wrap (max - 1) then None
  else Some (S_ (take (Z.to_nat (int_wrap (max - 1))) (B s)) +:+ ellipsis).

(** The height left for the session under the tab bar and over the status
    bar: [termHeight := m.height - 2], at least 1. *)
Definition termHeight (height : Z) : Z :=
  let h := int_wrap (height - 2) in
  if h <? 1 then 1 else h.

(** The tab of an agent. *)
Definition agent_tab (agent : worktree.Agent) (name : string) : Tab :=
  mkTab (worktree.ID agent) name false (worktree.ID agent) (Some (worktree.ID agent)).

(** The loop of [NewModel] over the agents: a session and a tab for every
    running agent; an agent whose session does not start is skipped.
    [starts] is what the start of the session of each agent answers. *)
Fixpoint restore (starts : string -> start_outcome) (agents : list worktree.Agent)
    (tabs : list Tab) (pm : vt.Manager) (os : OS) : option (list Tab * vt.Manager * OS) :=
  match agents with
  | [] => Some (tabs, pm, os)
  | agent :: agents =>
    if String.eqb (worktree.Status agent) worktree.StatusRunning then
      match vt.Spawn (starts (worktree.ID agent)) (worktree.ID agent) (worktree.Worktree agent)
                     (worktree.Task agent) pm os with
      | (Err _, pm, os) => restore starts agents tabs pm os
      | (Ok _, pm, os) =>
        name ← truncate (worktree.Task agent) 15;
        restore starts agents (tabs ++ [agent_tab agent name]) pm os
      end
    else restore starts agents tabs pm os
  end.

(** [NewModel]. [visit] is the order in which [ListAgents] goes over the
    agents of the state. *)
Definition NewModel (stat_fault read_fault : option error) (starts : string -> start_outcome)
    (visit : list (string * worktree.Agent)) (repoRoot : string) (fs : FS) (os : OS)
  : option (result (Model * World)) :=
  match worktree.NewManager stat_fault read_fault repoRoot fs with
  | Err err => Some (Err err)
  | Ok wtManager =>
    (* Create main tab *)
    match vt.Spawn (starts "main") "main" repoRoot "Main orchestrator" vt.NewManager os with
    | (Err err, _, _) => Some (Err (Errorf "failed to spawn main session" (Some err)))
    | (Ok _, pm, os) =>
      let tabs := [mkTab "main" "Main" true "main" None] in
      (* Restore existing agents *)
      '(tabs, pm, os) ← restore starts (worktree.Manager_ListAgents visit) tabs pm os;
      Some (Ok (mkModel tabs 0 80 24 false EmptyString EmptyString None false false,
                mkWorld (worktree.mkSys wtManager fs []) pm os [] []))
    end
  end.

(** [keyToBytes]. *)
Definition keyToBytes (msg : KeyMsg) : bytes :=
  match key_Type msg with
  | KeyRunes => concat (utf8.EncodeRune <$> key_Runes msg)
  | KeyEnter => [byte_of 13]
  | KeyBackspace => [byte_of 127]
  | KeyTab => [byte_of 9]
  | KeySpace => [byte_of 32]
  | KeyEscape => [byte_of 27]
  | KeyUp => byte_of 27 :: B "[A"
  | KeyDown => byte_of 27 :: B "[B"
  | KeyRight => byte_of 27 :: B "[C"
  | KeyLeft => byte_of 27 :: B "[D"
  | KeyHome => byte_of 27 :: B "[H"
  | KeyEnd => byte_of 27 :: B "[F"
  | KeyPgUp => byte_of 27 :: B "[5~"
  | KeyPgDown => byte_of 27 :: B "[6~"
  | KeyDelete => byte_of 27 :: B "[3~"
  | KeyCtrlA => [byte_of 1]
  | KeyCtrlB => [byte_of 2]
  | KeyCtrlC => [byte_of 3]
  | KeyCtrlD => [byte_of 4]
  | KeyCtrlE => [byte_of 5]
  | KeyCtrlF => [byte_of 6]
  | KeyCtrlG => [byte_of 7]
  | KeyCtrlH => [byte_of 8]
  | KeyCtrlJ => [byte_of 10]
  | KeyCtrlK => [byte_of 11]
  | KeyCtrlL => [byte_of 12]
  | KeyCtrlN => [byte_of 14]
  | KeyCtrlO => [byte_of 15]
  | KeyCtrlP => [byte_of 16]
  | KeyCtrlR => [byte_of 18]
  | KeyCtrlS => [byte_of 19]
  | KeyCtrlT => [byte_of 20]
  | KeyCtrlU => [byte_of 21]
  | KeyCtrlV => [byte_of 22]
  | KeyCtrlW => [byte_of 23]
  | KeyCtrlX => [byte_of 24]
  | KeyCtrlY => [byte_of 25]
  | KeyCtrlZ => [byte_of 26]
  | KeyOther =>
    (* For unknown keys, try the string representation *)
    if Nat.eqb (String.length (key_String msg)) 1 then B (key_String msg) else []
  end.

Definition set_world_managers (w : World) (wt : worktree.Sys) (pm : vt.Manager) (os : OS)
  : World :=
  mkWorld wt pm os (sent w) (sized w).

Section Interface.

(** The case table of [strings.ToLower], for the slug of a new agent. *)
Variable tbl : Z -> Z.

(** [createNewAgent], a method of [*Model]: on the [Model] the pointer
    leads to. The errors of [RemoveWorktree] and [Resize] are dropped. *)
Definition createNewAgent (out : Outside) (task : string) (m : Receiver) (w : World)
  : option (Receiver * World) :=
  let '(r, wt) := worktree.CreateWorktree tbl (manager_env out 0) task (wtManager w) in
  match r with
  | Err _ => Some (m, set_world_managers w wt (ptyManager w) (system w))
  | Ok agent =>
    match vt.Spawn (start out) (worktree.ID agent) (worktree.Worktree agent)
                   (worktree.Task agent) (ptyManager w) (system w) with
    | (Err _, pm, os) =>
      (* Clean up worktree on failure *)
      let '(_, wt) := worktree.RemoveWorktree (manager_env out 1) (worktree.ID agent) wt in
      Some (m, set_world_managers w wt pm os)
    | (Ok _, pm, os) =>
      (* Resize the new session *)
      let '(pm, sizes) :=
        match vt.Get pm (worktree.ID agent) with
        | Some session =>
          let '(session, _, sizes) :=
            vt.Resize (resize_fault out (worktree.ID agent)) (termHeight (r_height m))
                      (r_width m) session os in
          (vt.mkManager (<[worktree.ID agent := session]> (vt.sessions pm)), sizes)
        | None => (pm, [])
        end in
      name ← truncate task 15;
      let tabs := r_tabs m ++ [agent_tab agent name] in
      Some (mkReceiver tabs (Z.of_nat (length tabs) - 1) (r_width m) (r_height m),
            mkWorld wt pm os (sent w) (sized w ++ sizes))
    end
  end.

(** [closeCurrentTab]; the operation of the worktree manager in it is the
    k-th of the call of the interface. [None] is the run-time panic of
    [m.tabs[m.activeTab]] out of range. The errors of [Kill] and
    [RemoveWorktree] are dropped. *)
Definition closeCurrentTab (out : Outside) (k : nat) (m : Model) (w : World)
  : option (Model * Cmd * World) :=
  if activeTab m =? 0 then Some (m, CmdNil, w) (* Can't close main tab *)
  else if activeTab m <? 0 then None
  else
    tab ← tabs m !! Z.to_nat (activeTab m);
    (* Stop PTY session *)
    let '(_, pm, os) := vt.Kill (SessionID tab) (ptyManager w) (system w) in
    (* Remove worktree if agent *)
    let wt :=
      match Agent tab with
      | Some id => (worktree.RemoveWorktree (manager_env out k) id (wtManager w)).2
      | None => wtManager w
      end in
    (* Remove tab *)
    let tabs := take (Z.to_nat (activeTab m)) (tabs m)
                ++ drop (Z.to_nat (activeTab m + 1)) (tabs m) in
    let activeTab := if Z.of_nat (length tabs) <=? activeTab m
                     then Z.of_nat (length tabs) - 1 else activeTab m in
    Some (mkModel tabs activeTab (width m) (height m) (inputMode m) (inputBuffer m)
                  (inputPrompt m) (inputAction m) (quitting m) (ready m),
          CmdNil, set_world_managers w wt pm os).

(** [mergeCurrentTab]. *)
Definition mergeCurrentTab (out : Outside) (m : Model) (w : World)
  : option (Model * Cmd * World) :=
  if activeTab m =? 0 then Some (m, CmdNil, w)
  else if activeTab m <? 0 then None
  else
    tab ← tabs m !! Z.to_nat (activeTab m);
    match Agent tab with
    | None => Some (m, CmdNil, w)
    | Some id =>
      let '(err, wt) := worktree.Merge (manager_env out 0) id (wtManager w) in
      let w := set_world_managers w wt (ptyManager w) (system w) in
      match err with
      | Some _ => Some (m, CmdNil, w)
      | None => closeCurrentTab out 1 m w (* Close the tab after merge *)
      end
    end.

(** [currentTab]. *)
Definition currentTab (m : Model) : option Tab :=
  if (0 <=? activeTab m) && (activeTab m <? Z.of_nat (length (tabs m)))
  then tabs m !! Z.to_nat (activeTab m)
  else None.

Definition set_input (m : Model) (mode : bool) (buffer : string) : Model :=
  mkModel (tabs m) (activeTab m) (width m) (height m) mode buffer
          (inputPrompt m) (inputAction m) (quitting m) (ready m).

Definition set_activeTab (m : Model) (i : Z) : Model :=
  mkModel (tabs m) i (width m) (height m) (inputMode m) (inputBuffer m)
          (inputPrompt m) (inputAction m) (quitting m) (ready m).

(** [handleInputMode]. The action is called on the [Model] it is bound
    to, which is not the receiver [m] of this call. *)
Definition handleInputMode (out : Outside) (msg : KeyMsg) (m : Model) (w : World)
  : option (Model * Cmd * World) :=
  match key_Type msg with
  | KeyEnter =>
    '(action, w) ←
      match inputAction m with
      | Some bound =>
        if String.eqb (inputBuffer m) EmptyString then Some (Some bound, w)
        else '(bound, w) ← createNewAgent out (inputBuffer m) bound w; Some (Some bound, w)
      | None => Some (None, w)
      end;
    Some (mkModel (tabs m) (activeTab m) (width m) (height m) false EmptyString
                  (inputPrompt m) action (quitting m) (ready m),
          CmdNil, w)
  | KeyEscape => Some (set_input m false EmptyString, CmdNil, w)
  | KeyBackspace =>
    if 0 <? Z.of_nat (String.length (inputBuffer m))
    then Some (set_input m (inputMode m)
                 (S_ (take (String.length (inputBuffer m) - 1)%nat (B (inputBuffer m)))), CmdNil, w)
    else Some (m, CmdNil, w)
  | KeyRunes =>
    Some (set_input m (inputMode m)
            (inputBuffer m +:+ S_ (concat (utf8.EncodeRune <$> key_Runes msg))), CmdNil, w)
  | KeySpace => Some (set_input m (inputMode m) (inputBuffer m +:+ " "), CmdNil, w)
  | _ => Some (m, CmdNil, w)
  end.

(** The fields of [m] of a method value with a pointer receiver that is
    taken from [m]. *)
Definition receiver_of (m : Model) : Receiver :=
  mkReceiver (tabs m) (activeTab m) (width m) (height m).

Definition is_one_of (s : string) (l : list string) : bool := existsb (String.eqb s) l.

(** [handleKeyMsg]. It has a value receiver: [m] is a copy of the model,
    and [m.createNewAgent] is bound to that copy. *)
Definition handleKeyMsg (out : Outside) (msg : KeyMsg) (m : Model) (w : World)
  : option (Model * Cmd * World) :=
  (* Handle input mode first *)
  if inputMode m then handleInputMode out msg m w
  else
    let keyStr := key_String msg in
    if is_one_of keyStr ["alt+left"; "alt+[1;3D"]%string then
      Some (if 0 <? activeTab m then set_activeTab m (activeTab m - 1) else m, CmdNil, w)
    else if is_one_of keyStr ["alt+right"; "alt+[1;3C"]%string then
      Some (if activeTab m <? Z.of_nat (length (tabs m)) - 1
            then set_activeTab m (activeTab m + 1) else m, CmdNil, w)
    else if is_one_of keyStr ["alt+n"]%string then
      Some (mkModel (tabs m) (activeTab m) (width m) (height m) true EmptyString
                    "Task description: "
                    (Some (receiver_of m))
                    (quitting m) (ready m),
            CmdNil, w)
    else if is_one_of keyStr ["alt+w"]%string then
      if 0 <? activeTab m then closeCurrentTab out 0 m w (* Don't close main tab *)
      else Some (m, CmdNil, w)
    else if is_one_of keyStr ["alt+m"]%string then
      if 0 <? activeTab m then mergeCurrentTab out m w
      else Some (m, CmdNil, w)
    else if is_one_of keyStr ["alt+q"; "ctrl+c"]%string then
      let '(pm, os) := vt.StopAll (range_order out) (ptyManager w) (system w) in
      Some (mkModel (tabs m) (activeTab m) (width m) (height m) (inputMode m) (inputBuffer m)
                    (inputPrompt m) (inputAction m) true (ready m),
            CmdQuit, set_world_managers w (wtManager w) pm os)
    else
      (* Forward to active session *)
      match currentTab m with
      | Some tab =>
        match vt.Get (ptyManager w) (SessionID tab) with
        | Some session =>
          (* Convert key message to bytes *)
          let data := keyToBytes msg in
          if 0 <? Z.of_nat (length data) then
            let '(_, _, writes) := vt.Write (write out) data session (system w) in
            Some (m, CmdNil,
                  mkWorld (wtManager w) (ptyManager w) (system w) (sent w ++ writes) (sized w))
          else Some (m, CmdNil, w)
        | None => Some (m, CmdNil, w)
        end
      | None => Some (m, CmdNil, w)
      end.

(** [Update]. *)
Definition Update (out : Outside) (msg : Msg) (m : Model) (w : World)
  : option (Model * Cmd * World) :=
  match msg with
  | Key msg => handleKeyMsg out msg m w
  | WindowSizeMsg Width Height =>
    (* Resize all PTY sessions (account for tab bar and status bar) *)
    let '(pm, sizes) :=
      vt.ResizeAll (resize_fault out) (termHeight Height) Width (range_order out)
                   (ptyManager w) (system w) in
    Some (mkModel (tabs m) (activeTab m) Width Height (inputMode m) (inputBuffer m)
                  (inputPrompt m) (inputAction m) (quitting m) true,
          CmdNil, mkWorld (wtManager w) pm (system w) (sent w) (sized w ++ sizes))
  | tickMsg => Some (m, CmdTick, w)
  | OtherMsg => Some (m, CmdNil, w)
  end.

End Interface.

(** [strings.Split(s, sep)] for the separator of one byte [sep]. *)
Fixpoint strings_Split (sep : ascii) (s : bytes) : list bytes :=
  match s with
  | [] => [[]]
  | c :: s =>
    if Ascii.eqb c sep then [] :: strings_Split sep s
    else
      match strings_Split sep s with
      | line :: lines => (c :: line) :: lines
      | [] => [[c]]
      end
  end.

(** [strings.Join(elems, sep)]. *)
Fixpoint strings_Join (elems : list bytes) (sep : bytes) : bytes :=
  match elems with
  | [] => []
  | [e] => e
  | e :: elems => e ++ sep ++ strings_Join elems sep
  end.

(** The loop of [renderSession] that cuts the lines that are too long;
    [None] is the run-time panic of [line[:m.width]] on a negative
    width. *)
Fixpoint cut_lines (width : Z) (lines : list bytes) : option (list bytes) :=
  match lines with
  | [] => Some []
  | line :: lines =>
    line ← (if width <? Z.of_nat (length line)
            then (if width <? 0 then None else Some (take (Z.to_nat width) line))
            else Some line);
    lines ← cut_lines width lines;
    Some (line :: lines)
  end.

(** [renderSession]. [screen] is the text the virtual terminal of the
    session of the current tab shows. *)
Definition renderSession (screen : string) (m : Model) (w : World) : option bytes :=
  let termHeight := termHeight (height m) in
  match currentTab m with
  | None => Some (replicate (Z.to_nat termHeight) linefeed)
  | Some tab =>
    match vt.Get (ptyManager w) (SessionID tab) with
    | None => Some (replicate (Z.to_nat termHeight) linefeed)
    | Some session =>
      (* Get the virtual terminal output *)
      let output := vt.Output screen session in
      (* Split into lines and take last termHeight lines *)
      let lines := strings_Split linefeed (B output) in
      (* Ensure we have exactly termHeight lines *)
      let lines :=
        if termHeight <? Z.of_nat (length lines)
        then drop (Z.to_nat (Z.of_nat (length lines) - termHeight)) lines
        else lines in
      let lines := lines ++ replicate (Z.to_nat (termHeight - Z.of_nat (length lines))) [] in
      (* Truncate lines that are too long *)
      lines ← cut_lines (width m) lines;
      Some (strings_Join lines [linefeed] ++ [linefeed])
    end
  end.

End tui.


(** * The vocabulary of the properties

    What the statements below speak of: the effect of an operation written
    in closed form, the shape of a slug, well-formed states, the state
    machine of the specification, and sample values. *)

Import json.
Import worktree.

(** ** Stopping a session; the session registry *)

(** The effect of stopping: the descriptor is closed and the process
    killed, when the session has them. *)
Definition stop_effect (f : option nat) (c : option Cmd) (os : OS) : OS :=
  let os := match f with Some f => (File_Close f os).1 | None => os end in
  match c with
  | Some (mkCmd (Some p)) => (Process_Kill p os).1
  | _ => os
  end.

(** ** The state store and the branch lifecycle manager *)

(** The file system after a [Save] that got as far as opening the file:
    the directory exists and the file holds [content]. *)
Definition written (s : State) (content : bytes) (fs : FS) : FS :=
  mkFS ({[RepoRoot s +:+ "/.cwt"]} ∪ dirs fs)
       (<[StateFilePath (RepoRoot s) := content]> (files fs)).

(** The two states [Merge] hands to [Save], and its two git command
    lines. *)
Definition merging_state (s : State) (id : string) (a : Agent) : State :=
  set_agent s id (with_Status a StatusMerging).

Definition merged_state (s : State) (id : string) (a : Agent) (now : Time) : State :=
  set_agent s id (with_MergedAt (with_Status a StatusMerged) (Some now)).

Definition checkout_args (a : Agent) : list string := ["checkout"; BaseBranch a]%string.

Definition merge_args (a : Agent) : list string :=
  ["merge"; "--no-ff"; "-m"; "Merge " +:+ ID a +:+ ": " +:+ Task a; Branch a]%string.

(** The git commands of [RemoveWorktree], the forced ones where the plain
    ones failed. *)
Definition removal_events (env : Env) (root : string) (a : Agent) : list event :=
  [EvGit root ["worktree"; "remove"; Worktree a]%string]
  ++ match (git_answer env ["worktree"; "remove"; Worktree a]%string).2 with
     | Some _ => [EvGit root ["worktree"; "remove"; "--force"; Worktree a]%string]
     | None => []
     end
  ++ [EvGit root ["branch"; "-d"; Branch a]%string]
  ++ match (git_answer env ["branch"; "-d"; Branch a]%string).2 with
     | Some _ => [EvGit root ["branch"; "-D"; Branch a]%string]
     | None => []
     end.

(** *** A sample repository

    One running agent, tracked and saved, in a world in which git and the
    disk succeed. *)

Definition sample_env : Env :=
  mkEnv (fun _ => (EmptyString, None)) (fun _ => "2025-01-04T10:00:00Z"%string)
        ("161"%char, "178"%char) (fun _ => io_ok).

Definition sample_agent : Agent :=
  mkAgent "cwt-20250104-a1b2" "cwt/cwt-20250104-a1b2/add-auth"
          "/r/.worktrees/cwt-20250104-a1b2" "Add auth" StatusRunning "main" "0f3c"
          "2025-01-04T09:00:00Z" None.

Definition sample_state : State :=
  AddAgent (NewState "/r") sample_agent.

Definition sample_sys : Sys :=
  mkSys (mkManager "/r" sample_state) (Save sample_state io_ok (mkFS ∅ ∅)).1 [].

(** *** The state machine of the specification *)

(** Modelled from the spec: the order of the six statuses along
    pending, running, completed, merging, then merged or failed. *)
Definition status_rank (s : AgentStatus) : option nat :=
  if String.eqb s StatusPending then Some 0%nat
  else if String.eqb s StatusRunning then Some 1%nat
  else if String.eqb s StatusCompleted then Some 2%nat
  else if String.eqb s StatusMerging then Some 3%nat
  else if String.eqb s StatusMerged then Some 4%nat
  else if String.eqb s StatusFailed then Some 4%nat
  else None.

(** Modelled from the spec: a transition is valid when it moves forward,
    and it reaches merged only from merging. *)
Definition valid_transition (old new : AgentStatus) : bool :=
  match status_rank old, status_rank new with
  | Some i, Some j =>
    (i <? j)%nat && (negb (String.eqb new StatusMerged) || String.eqb old StatusMerging)
  | _, _ => false
  end.

(** The status of [id] in the tracked state. *)
Definition status_of (sys : Sys) (id : string) : option AgentStatus :=
  Status <$> (Agents (state (manager sys)) !! id).

(** The statuses of [id] in the states handed to [Save], in order. *)
Definition saved_statuses (id : string) (tr : list event) : list (option AgentStatus) :=
  omap (fun ev => match ev with
                  | EvSave s _ => Some (Status <$> (Agents s !! id))
                  | EvGit _ _ => None
                  end) tr.

(** *** More sample values *)

(** A world in which every git command fails. *)
Definition failing_git_env : Env :=
  mkEnv (fun args => (EmptyString, Some (ExitError args))) (fun _ => "2025-01-04T10:00:00Z"%string)
        ("161"%char, "178"%char) (fun _ => io_ok).

(** A case mapping that leaves the runes from U+0080 on as they are. *)
Definition no_case_table : Z -> Z := fun r => r.

Definition empty_sys : Sys := mkSys (mkManager "/r" (NewState "/r")) (mkFS ∅ ∅) [].

(** The agents two creations give when the random source repeats itself. *)
Definition first_agent : Agent :=
  mkAgent "cwt-20250104-a1b2" "cwt/cwt-20250104-a1b2/add-auth"
          "/r/.worktrees/cwt-20250104-a1b2" "Add auth" StatusRunning EmptyString EmptyString
          "2025-01-04T10:00:00Z" None.

Definition second_agent : Agent :=
  mkAgent "cwt-20250104-a1b2" "cwt/cwt-20250104-a1b2/write-unit-tests"
          "/r/.worktrees/cwt-20250104-a1b2" "Write unit tests" StatusRunning EmptyString
          EmptyString "2025-01-04T10:00:00Z" None.

(** ** Slugs *)

Definition is_dash (c : ascii) : bool := byte_val c =? 45.

(** A byte of the alphabet of a slug: a-z, 0-9 or the dash. *)
Definition slug_char (c : ascii) : bool :=
  is_lower_alnum (byte_val c) || is_dash c.

(** No two dashes are adjacent. *)
Fixpoint no_double_dash (s : bytes) : bool :=
  match s with
  | a :: t =>
    match t with
    | b :: _ => negb (is_dash a && is_dash b) && no_double_dash t
    | [] => true
    end
  | [] => true
  end.

Definition all_dashes (s : bytes) : Prop := Forall (fun c => is_dash c = true) s.

Definition not_dash (c : ascii) : bool := negb (is_dash c).

(** A byte string that neither starts nor ends with a dash. *)
Definition no_dash_at_ends (m : bytes) : Prop :=
  match m with c :: _ => is_dash c = false | [] => True end
  ∧ match last m with Some c => is_dash c = false | None => True end.

(** The first rune belongs to the class a-z0-9. *)
Definition starts_word (rs : list Z) : bool :=
  match rs with
  | r :: _ => is_lower_alnum r
  | [] => false
  end.

(** Modelled from the spec: the maximal runs of runes of the class a-z0-9,
    in order. *)
Fixpoint alnum_words (rs : list Z) : list (list Z) :=
  match rs with
  | [] => []
  | r :: t =>
    if is_lower_alnum r then
      match alnum_words t with
      | w :: ws => if starts_word t then (r :: w) :: ws else [r] :: w :: ws
      | [] => [[r]]
      end
    else alnum_words t
  end.

(** Modelled from the spec: the words, with one separator between two of
    them and none at the ends. *)
Fixpoint dash_join (ws : list bytes) : bytes :=
  match ws with
  | [] => []
  | w :: ws' =>
    match ws' with
    | [] => w
    | _ :: _ => w ++ "-"%char :: dash_join ws'
    end
  end.

(** The words as bytes. *)
Definition word_bytes (ws : list (list Z)) : list bytes := map (map byte_of) ws.

(** ** The ring buffer *)

(** The position of the i-th oldest byte. *)
Definition slot (r : pty.RingBuffer) (i : Z) : nat := Z.to_nat ((pty.start r + i) mod pty.size r).

(** A buffer as [pty.NewRingBuffer c] and [pty.Write] leave it. *)
Record wf (c : Z) (r : pty.RingBuffer) : Prop := mk_wf {
  wf_cap : 0 < c <= pty.maxAlloc;
  wf_size : pty.size r = c;
  wf_data : length (pty.data r) = Z.to_nat c;
  wf_start : 0 <= pty.start r < c;
  wf_len : 0 <= pty.len r <= c;
}.

(** The last [n] elements of a list. *)
Definition last_n {A} (n : nat) (l : list A) : list A := drop (length l - n) l.

(** A sequence of calls of [pty.Write]: the buffer after the last call and
    what each call returned. *)
Fixpoint Write_all (r : pty.RingBuffer) (ps : list bytes)
  : option (pty.RingBuffer * list (Z * option error)) :=
  match ps with
  | [] => Some (r, [])
  | p :: ps' =>
    '(r', ret) ← pty.Write r p;
    '(r'', rets) ← Write_all r' ps';
    Some (r'', ret :: rets)
  end.

(** ** UTF-8 and string literals *)

(** A hypothesis set aside, so that the tactics that take boolean
    hypotheses apart leave it alone. *)
Definition keep (P : Prop) : Prop := P.

(** ** JSON documents *)

(** What may follow a value in a document: nothing, a comma, a line feed. *)
Definition delim (rest : bytes) : Prop :=
  match rest with
  | [] => True
  | c :: _ => byte_val c = 44 ∨ byte_val c = 10
  end.

(** The number of values in a value: the fuel that reading it takes. *)
Fixpoint nodes (v : value) : nat :=
  match v with
  | JArr l => S (list_sum (map (fun x => S (nodes x)) l))
  | JObj l => S (list_sum (map (fun p => S (nodes p.2)) l))
  | _ => 1
  end.

(** Every string and every key of the value is well-formed UTF-8. *)
Fixpoint valid_value (v : value) : bool :=
  match v with
  | JStr s => utf8.ValidString s
  | JArr l => forallb valid_value l
  | JObj l => forallb (fun p => utf8.ValidString p.1 && valid_value p.2) l
  | _ => true
  end.

(** The second and later elements of a rendered array, and members of a
    rendered object, each with the comma before it. *)
Fixpoint render_elems (depth : nat) (l : list value) : bytes :=
  match l with
  | [] => []
  | y :: ys => B "," ++ newline (S depth) ++ render (S depth) y ++ render_elems depth ys
  end.

Fixpoint render_members (depth : nat) (l : list (string * value)) : bytes :=
  match l with
  | [] => []
  | (k, y) :: ys =>
    B "," ++ newline (S depth) ++ quote k ++ B ": " ++ render (S depth) y
    ++ render_members depth ys
  end.

(** Only blanks. *)
Definition blank (w : bytes) : Prop := Forall (fun c => is_ws c = true) w.

(** The first byte of a rendered value is not a blank and closes nothing. *)
Definition opens (c : ascii) : Prop :=
  is_ws c = false ∧ byte_val c ≠ 93 ∧ byte_val c ≠ 125.

Definition size_list (l : list value) : nat := list_sum (map (fun x => S (nodes x)) l).

Definition size_members (l : list (string * value)) : nat :=
  list_sum (map (fun p => S (nodes p.2)) l).

Definition valid_member (p : string * value) : bool :=
  utf8.ValidString p.1 && valid_value p.2.

(** With fuel [f], a rendered value, the elements of a rendered array and
    the members of a rendered object are read back, when [f] is at least
    their number of values. *)
Definition value_ok (f : nat) : Prop :=
  ∀ v d w rest,
    (nodes v ≤ f)%nat → valid_value v = true → blank w → delim rest →
    parse_value f (w ++ render d v ++ rest) = Some (v, rest).

Definition elems_ok (f : nat) : Prop :=
  ∀ d x xs rest,
    (size_list (x :: xs) ≤ f)%nat → forallb valid_value (x :: xs) = true →
    parse_elems f (newline (S d) ++ render (S d) x ++ render_elems d xs
                   ++ newline d ++ B "]" ++ rest)
    = Some (x :: xs, rest).

Definition members_ok (f : nat) : Prop :=
  ∀ d k x xs rest,
    (size_members ((k, x) :: xs) ≤ f)%nat → forallb valid_member ((k, x) :: xs) = true →
    parse_members f (newline (S d) ++ quote k ++ B ": " ++ render (S d) x
                     ++ render_members d xs ++ newline d ++ B "}" ++ rest)
    = Some ((k, x) :: xs, rest).

(** ** Saving and loading *)

(** One entry of the agent map, from and to its JSON form. *)
Definition decode_member (p : string * value) : option (string * Agent) :=
  a ← unmarshal_Agent p.2; Some (p.1, a).

Definition encode_member (p : string * Agent) : string * value :=
  prod_map id marshal_Agent p.

(** *** States whose strings are well-formed UTF-8 *)

Definition valid_Agent (a : Agent) : bool :=
  utf8.ValidString (ID a) && utf8.ValidString (Branch a) && utf8.ValidString (Worktree a)
  && utf8.ValidString (Task a) && utf8.ValidString (Status a)
  && utf8.ValidString (BaseBranch a) && utf8.ValidString (BaseCommit a)
  && utf8.ValidString (CreatedAt a)
  && match MergedAt a with Some t => utf8.ValidString t | None => true end.

Definition valid_MergeRecord (r : MergeRecord) : bool :=
  utf8.ValidString (AgentID r) && utf8.ValidString (MergeRecord_MergedAt r)
  && utf8.ValidString (MergeCommit r).

Definition valid_entry (p : string * Agent) : bool :=
  utf8.ValidString p.1 && valid_Agent p.2.

(** Every string of the state, the keys of the agent map included, is
    well-formed UTF-8. *)
Definition valid_State (s : State) : bool :=
  utf8.ValidString (Version s) && utf8.ValidString (RepoRoot s)
  && utf8.ValidString (WorktreeDir s)
  && forallb valid_entry (map_to_list (Agents s))
  && forallb valid_MergeRecord (MergeHistory s).

(** *** Sample states

    A state with a running and a merged agent and one merge record; and a
    state with a task that is not well-formed UTF-8. *)

Definition merged_agent : Agent :=
  mkAgent "cwt-20250103-00ff" "cwt/cwt-20250103-00ff/caf-men" "/r/.worktrees/cwt-20250103-00ff"
          "Café menü <draft> & more" StatusMerged "main" "9a1b"
          "2025-01-03T08:30:00.5+01:00" (Some "2025-01-03T18:00:00+01:00"%string).

Definition history_state : State :=
  mkState "1.0" "/r" ".worktrees"
          (<["cwt-20250103-00ff"%string := merged_agent]> (Agents sample_state))
          [mkMergeRecord "cwt-20250103-00ff" "2025-01-03T18:00:00+01:00" "77aa01" 2 0].

(** The byte 0xFF, and U+FFFD in UTF-8. *)
Definition invalid_task : string := String "255" EmptyString.

Definition replacement_char : string :=
  String "239" (String "191" (String "189" EmptyString)).

Definition ill_formed_state : State :=
  AddAgent (NewState "/r")
    (mkAgent "a" "cwt/a/x" "/r/.worktrees/a" invalid_task StatusRunning "main" "0f3c"
             "2025-01-04T09:00:00Z" None).

(** ** Listing the agents *)

(** [l] is an order in which a [range] over [m] may visit its entries:
    every entry once. *)
Definition visits {A} (m : gmap string A) (l : list (string * A)) : Prop :=
  l ≡ₚ map_to_list m.

(** The agent has the status. *)
Definition has_status (status : AgentStatus) (a : Agent) : bool := String.eqb (Status a) status.

(** ** The manager and its state file *)

(** The path is a directory or a file. *)
Definition path_exists (fs : FS) (name : string) : Prop :=
  name ∈ dirs fs ∨ is_Some (files fs !! name).

(** The state file holds the state the manager has in memory. *)
Definition persisted (sys : Sys) : Prop :=
  files (disk sys) !! StateFilePath (RepoRoot (state (manager sys)))
  = Some (json_MarshalIndent (state (manager sys))).

(** What no operation of the manager touches: its root, and the version,
    root, worktree directory and merge history of its state. *)
Definition header (sys : Sys) : string * string * string * string * list MergeRecord :=
  let s := state (manager sys) in
  (repoRoot (manager sys), Version s, RepoRoot s, WorktreeDir s, MergeHistory s).

(** The states handed to [Save], in order. *)
Definition saved_states (tr : list event) : list State :=
  omap (fun ev => match ev with EvSave s _ => Some s | EvGit _ _ => None end) tr.

(** The agent [CreateWorktree] makes for a task, and its three git command
    lines. *)
Definition new_agent (tbl : Z → Z) (env : Env) (task : string) (sys : Sys) : Agent :=
  let id := generateID (clock env 0) (random env) in
  mkAgent id ("cwt/" +:+ id +:+ "/" +:+ slugify tbl task)
          (filepath_Join [repoRoot (manager sys); WorktreeDir (state (manager sys)); id])
          task StatusRunning
          (git_answer env ["rev-parse"; "--abbrev-ref"; "HEAD"]%string).1
          (git_answer env ["rev-parse"; "HEAD"]%string).1
          (clock env 1) None.

Definition branch_args : list string := ["rev-parse"; "--abbrev-ref"; "HEAD"]%string.

Definition commit_args : list string := ["rev-parse"; "HEAD"]%string.

Definition add_args (a : Agent) : list string :=
  ["worktree"; "add"; "-b"; Branch a; Worktree a]%string.

(** The sample repository, with its [.git] directory. *)
Definition sample_repo : FS :=
  mkFS ({["/r/.git"%string]} ∪ dirs (disk sample_sys)) (files (disk sample_sys)).

(** A byte of a branch name made by [CreateWorktree]: a-z, 0-9, the dash
    or the slash. *)
Definition ref_char (c : ascii) : bool := slug_char c || (byte_val c =? 47).

Definition is_digit (c : ascii) : bool := (48 <=? byte_val c) && (byte_val c <=? 57).

(** A world in which git succeeds and the disk refuses every write. *)
Definition full_disk_env : Env :=
  mkEnv (fun _ => (EmptyString, None)) (fun _ => "2025-01-04T10:00:00Z"%string)
        ("161"%char, "178"%char)
        (fun _ => mkSaveIO None (OpenFails (EOther "open" "/r/.cwt/state.json"))).

(** ** Sessions of work with the manager *)

(** The operations of the manager that change the tracked state. *)
Inductive operation : Type :=
  | OpCreate (task : string)
  | OpRemove (id : string)
  | OpUpdate (id : string) (status : AgentStatus)
  | OpMerge (id : string).

(** One operation, in the world [env], and the error it returns. *)
Definition run_operation (tbl : Z → Z) (env : Env) (o : operation) (sys : Sys)
  : option error * Sys :=
  match o with
  | OpCreate task =>
    let r := CreateWorktree tbl env task sys in
    (match r.1 with Ok _ => None | Err e => Some e end, r.2)
  | OpRemove id => RemoveWorktree env id sys
  | OpUpdate id status => UpdateAgentStatus env id status sys
  | OpMerge id => Merge env id sys
  end.

(** A sequence of operations, each in a world of its own. *)
Definition run_operations (tbl : Z → Z) (history : list (Env * operation)) (sys : Sys) : Sys :=
  foldl (fun sys step => (run_operation tbl step.1 step.2 sys).2) sys history.

(** ** Sessions and their registry *)

(** The descriptors and the processes of the sessions of a registry. *)
Definition descriptors (m : vt.Manager) : gset nat :=
  list_to_set (omap (fun p => vt.ptmx p.2) (map_to_list (vt.sessions m))).

Definition processes (m : vt.Manager) : gset nat :=
  list_to_set (omap (fun p => c ← vt.cmd p.2; Process c) (map_to_list (vt.sessions m))).

(** A session as [Resize] leaves it. *)
Definition resized (rows cols : Z) (s : vt.Session) : vt.Session :=
  vt.mkSession (vt.ID s) (vt.Workdir s) (vt.Task s) (vt.ptmx s) (vt.cmd s)
               (match vt.term s with Some _ => Some (cols, rows) | None => None end)
               rows cols.

(** The descriptor or the process a session has, as a set. *)
Definition one_or_none (x : option nat) : gset nat :=
  match x with
  | Some n => {[n]}
  | None => ∅
  end.

(** A registry with one running session, and the system it runs on. *)
Definition sample_registry : vt.Manager :=
  (vt.Spawn (Started 3 100) "main" "/r" "Main orchestrator" vt.NewManager (mkOS ∅ ∅)).1.2.

Definition sample_os : OS :=
  (vt.Spawn (Started 3 100) "main" "/r" "Main orchestrator" vt.NewManager (mkOS ∅ ∅)).2.

(** ** The terminal interface *)

(** The active tab is one of the tabs. *)
Definition active_tab_in_range (m : tui.Model) : Prop :=
  0 <= tui.activeTab m < Z.of_nat (length (tui.tabs m)).

(** The agent is tracked by the worktree manager of the interface. *)
Definition tracked (w : tui.World) (id : string) : option Agent :=
  GetAgent (state (manager (tui.wtManager w))) id.

(** From [m] to [m'] the tabs stay as they are, or the active tab, which
    is not the first, is closed. *)
Definition keeps_or_closes (m m' : tui.Model) : Prop :=
  tui.tabs m' = tui.tabs m
  ∨ 0 < tui.activeTab m ∧ tui.tabs m' = delete (Z.to_nat (tui.activeTab m)) (tui.tabs m).

(** A step of the interface that goes well: no panic, the active tab stays
    one of the tabs, no tab is added and the first tab stays. *)
Definition good_step (m : tui.Model) (r : option (tui.Model * tui.Cmd * tui.World)) : Prop :=
  ∃ m' cmd w',
    r = Some (m', cmd, w')
    ∧ active_tab_in_range m'
    ∧ keeps_or_closes m m'
    ∧ tui.tabs m' !! 0%nat = tui.tabs m !! 0%nat.

(** A run of the interface: the messages in order, each with what the
    outside answers while it is handled. [None] is a panic. *)
Fixpoint updates (tbl : Z → Z) (history : list (tui.Outside * tui.Msg))
    (m : tui.Model) (w : tui.World) : option (tui.Model * tui.World) :=
  match history with
  | [] => Some (m, w)
  | step :: history =>
    '(m', _, w') ← tui.Update tbl step.1 step.2 m w;
    updates tbl history m' w'
  end.

(** The first tab of the interface. *)
Definition main_tab : tui.Tab := tui.mkTab "main" "Main" true "main" None.

(** The text of some lines, each ended by a line feed. *)
Definition text_of (lines : list bytes) : bytes :=
  concat ((fun line => line ++ [linefeed]) <$> lines).

(** A sample interface: the main tab and the tab of the sample agent,
    which is the active one, each with a running session; and the
    interface before any agent is made. *)
Definition sample_tab : tui.Tab := tui.agent_tab sample_agent "Add auth".

Definition sample_model : tui.Model :=
  tui.mkModel [main_tab; sample_tab] 1 80 24 false EmptyString EmptyString None false true.

Definition sample_world : tui.World :=
  let spawned := vt.Spawn (Started 4 101) (ID sample_agent) (Worktree sample_agent)
                          (Task sample_agent) sample_registry sample_os in
  tui.mkWorld sample_sys spawned.1.2 spawned.2 [] [].

Definition sample_outside : tui.Outside :=
  tui.mkOutside (fun _ => sample_env) (Started 5 102) (fun _ => None) Wrote [].

Definition start_model : tui.Model :=
  tui.mkModel [main_tab] 0 80 24 false EmptyString EmptyString None false true.

Definition start_world : tui.World := tui.mkWorld empty_sys sample_registry sample_os [] [].

(** The keys Alt+N, f-i-x typed at once, Enter, and Alt+W. *)
Definition key_alt_n : tui.KeyMsg := tui.mkKeyMsg tui.KeyRunes [110] "alt+n".

Definition key_fix : tui.KeyMsg := tui.mkKeyMsg tui.KeyRunes [102; 105; 120] "fix".

Definition key_enter : tui.KeyMsg := tui.mkKeyMsg tui.KeyEnter [] "enter".

Definition key_alt_w : tui.KeyMsg := tui.mkKeyMsg tui.KeyRunes [119] "alt+w".

(** The values of a Go [int]. *)
Definition is_int (z : Z) : Prop := - 2 ^ 63 <= z < 2 ^ 63.

(** * Properties *)

(** ** Stopping a session; the session registry *)

Lemma File_Close_twice fd os :
  (File_Close fd (File_Close fd os).1) = ((File_Close fd os).1, Some ErrFileClosed).
Proof.
  unfold File_Close. destruct (decide (fd ∈ open_files os)) as [Hin|Hin]; simpl.
  - rewrite decide_False; [done|]. simpl.
    apply not_elem_of_difference. right. by apply elem_of_singleton.
  - by rewrite decide_False.
Qed.

Lemma Process_Kill_twice pid os :
  (Process_Kill pid (Process_Kill pid os).1) = ((Process_Kill pid os).1, Some ErrProcessDone).
Proof.
  unfold Process_Kill. destruct (decide (pid ∈ running os)) as [Hin|Hin]; simpl.
  - rewrite decide_False; [done|]. simpl.
    apply not_elem_of_difference. right. by apply elem_of_singleton.
  - by rewrite decide_False.
Qed.

Lemma File_Close_Kill_comm fd pid os :
  (File_Close fd (Process_Kill pid os).1).1 = (Process_Kill pid (File_Close fd os).1).1.
Proof.
  unfold File_Close, Process_Kill.
  destruct (decide (pid ∈ running os)), (decide (fd ∈ open_files os)); simpl;
    repeat case_decide; simpl in *; try done.
Qed.

Lemma stop_effect_idem f c os : stop_effect f c (stop_effect f c os) = stop_effect f c os.
Proof.
  unfold stop_effect. destruct f as [f|], c as [[[p|]]|]; simpl; try done;
    rewrite ?File_Close_Kill_comm, ?File_Close_twice; cbn [fst];
    by rewrite ?Process_Kill_twice.
Qed.

Lemma pty_Stop_eq s os : pty.Stop s os = (stop_effect (pty.pty s) (pty.cmd s) os, None).
Proof. unfold pty.Stop, stop_effect. by destruct (pty.cmd s) as [[[p|]]|]. Qed.

Lemma vt_Stop_eq s os : vt.Stop s os = (stop_effect (vt.ptmx s) (vt.cmd s) os, None).
Proof. unfold vt.Stop, stop_effect. by destruct (vt.cmd s) as [[[p|]]|]. Qed.

(** Claim C9.  [Stop] never returns an error, for both kinds of session:
    what closing the descriptor and killing the process answer is dropped.
    A second [Stop] after a first one changes nothing more and returns no
    error, and so does the [Stop] of a session that was never started. *)
Theorem Stop_idempotent (s : pty.Session) (s' : vt.Session) (os : OS) :
  (pty.Stop s os).2 = None
  ∧ pty.Stop s (pty.Stop s os).1 = ((pty.Stop s os).1, None)
  ∧ (pty.pty s = None → pty.cmd s = None → pty.Stop s os = (os, None))
  ∧ (vt.Stop s' os).2 = None
  ∧ vt.Stop s' (vt.Stop s' os).1 = ((vt.Stop s' os).1, None)
  ∧ (vt.ptmx s' = None → vt.cmd s' = None → vt.Stop s' os = (os, None)).
Proof.
  rewrite !pty_Stop_eq, !vt_Stop_eq. simpl. rewrite !stop_effect_idem.
  repeat split; try done.
  - intros -> ->. done.
  - intros -> ->. done.
Qed.


(** ** The state store and the branch lifecycle manager *)

Lemma before_last_slash_state_file root :
  before_last_slash (root +:+ "/.cwt/state.json") = Some (root +:+ "/.cwt").
Proof. induction root as [|c root IH]; [reflexivity|]. simpl in *. by rewrite IH. Qed.

Lemma StateFilePath_eq root : StateFilePath root = root +:+ "/.cwt/state.json".
Proof. reflexivity. Qed.

Lemma Dir_StateFilePath root : filepath_Dir (StateFilePath root) = root +:+ "/.cwt".
Proof.
  unfold filepath_Dir. rewrite StateFilePath_eq, before_last_slash_state_file.
  destruct root; reflexivity.
Qed.

Lemma Save_run s io fs :
  Save s io fs =
  match mkdir_fault io, write_result io with
  | Some e, _ => (fs, Some e)
  | None, OpenFails e => (mkFS ({[RepoRoot s +:+ "/.cwt"]} ∪ dirs fs) (files fs), Some e)
  | None, WriteFails n e => (written s (take n (json_MarshalIndent s)) fs, Some e)
  | None, WriteOk => (written s (json_MarshalIndent s) fs, None)
  end.
Proof.
  unfold Save, os_MkdirAll, os_WriteFile, written.
  destruct (mkdir_fault io) as [e|]; [done|].
  rewrite Dir_StateFilePath. cbn [dirs files].
  rewrite decide_True by (apply elem_of_union_l; by apply elem_of_singleton).
  by destruct (write_result io).
Qed.

Ltac norm :=
  cbn [manager disk trace state repoRoot fst snd]; rewrite <- ?app_assoc; cbn [app].

Ltac run :=
  unfold GetCurrentBranch, GetCurrentCommit;
  unfold mbind, M_bind, mret, M_ret, get_manager, update_state, git, save;
  cbn [manager disk trace state repoRoot fst snd].

Lemma set_agent_twice s id a b : set_agent (set_agent s id a) id b = set_agent s id b.
Proof. unfold set_agent. cbn. by rewrite insert_insert_eq. Qed.

Lemma Merge_run env id sys a :
  GetAgent (state (manager sys)) id = Some a →
  let root := repoRoot (manager sys) in
  let s0 := state (manager sys) in
  let s1 := merging_state s0 id a in
  let s2 := merged_state s0 id a (clock env 0) in
  let sv1 := Save s1 (save_io env 0) (disk sys) in
  let sv2 := Save s2 (save_io env 1) sv1.1 in
  Merge env id sys =
  match (git_answer env (checkout_args a)).2, (git_answer env (merge_args a)).2 with
  | Some e, _ =>
    (Some (Errorf "failed to checkout base branch" (Some e)),
     mkSys (mkManager root s1) sv1.1
           (trace sys ++ [EvSave s1 sv1.2; EvGit root (checkout_args a)]))
  | None, Some e =>
    (Some (Errorf "merge failed" (Some e)),
     mkSys (mkManager root s1) sv1.1
           (trace sys ++ [EvSave s1 sv1.2; EvGit root (checkout_args a);
                          EvGit root (merge_args a)]))
  | None, None =>
    (sv2.2,
     mkSys (mkManager root s2) sv2.1
           (trace sys ++ [EvSave s1 sv1.2; EvGit root (checkout_args a);
                          EvGit root (merge_args a); EvSave s2 sv2.2]))
  end.
Proof.
  intros Ha. cbv zeta. unfold Merge. run. rewrite Ha. run.
  unfold merging_state, merged_state, checkout_args, merge_args.
  destruct (Save _ (save_io env 0) _) as [fs1 e1] eqn:E1. cbn [fst snd].
  cbn [BaseBranch ID Task Branch with_Status].
  destruct (git_answer env ["checkout"; BaseBranch a]%string) as [o1 [e|]] eqn:G1; cbn [snd].
  { by norm. }
  destruct (git_answer env ["merge"; _; _; _; Branch a]%string) as [o2 [e|]] eqn:G2; cbn [snd].
  { by norm. }
  norm. rewrite set_agent_twice.
  destruct (Save _ (save_io env 1) _) as [fs2 e2] eqn:E2. cbn [fst snd].
  by norm.
Qed.

Lemma UpdateAgentStatus_run env id st sys a :
  GetAgent (state (manager sys)) id = Some a →
  let s1 := set_agent (state (manager sys)) id (with_Status a st) in
  let sv := Save s1 (save_io env 0) (disk sys) in
  UpdateAgentStatus env id st sys =
  (sv.2, mkSys (mkManager (repoRoot (manager sys)) s1) sv.1 (trace sys ++ [EvSave s1 sv.2])).
Proof.
  intros Ha. cbv zeta. unfold UpdateAgentStatus. run. rewrite Ha. run.
  destruct (Save _ _ _). by norm.
Qed.

Lemma RemoveWorktree_run env id sys a :
  GetAgent (state (manager sys)) id = Some a →
  let root := repoRoot (manager sys) in
  let s1 := RemoveAgent (state (manager sys)) id in
  let sv := Save s1 (save_io env 0) (disk sys) in
  RemoveWorktree env id sys =
  (sv.2, mkSys (mkManager root s1) sv.1
               (trace sys ++ removal_events env root a ++ [EvSave s1 sv.2])).
Proof.
  intros Ha. cbv zeta. unfold RemoveWorktree, removal_events. run. rewrite Ha. run.
  destruct (git_answer env ["worktree"; "remove"; Worktree a]%string) as [o1 [e1|]];
  destruct (git_answer env ["branch"; "-d"; Branch a]%string) as [o2 [e2|]];
  run; destruct (Save _ _ _); by norm.
Qed.

Lemma RemoveWorktree_untracked env id sys :
  GetAgent (state (manager sys)) id = None →
  RemoveWorktree env id sys = (Some (not_found id), sys).
Proof. intros Ha. unfold RemoveWorktree. run. rewrite Ha. by destruct sys. Qed.

Lemma Merge_untracked env id sys :
  GetAgent (state (manager sys)) id = None → Merge env id sys = (Some (not_found id), sys).
Proof. intros Ha. unfold Merge. run. rewrite Ha. by destruct sys. Qed.

Lemma with_Status_Status a st : Status (with_Status a st) = st.
Proof. reflexivity. Qed.

(** Claim C1, as the code has it.  [Save] creates the directory of the
    state file and then writes the whole serialized state over the file in
    place: [os.WriteFile] truncates the file and writes into it, no temporary
    file is written and renamed.  When creating the directory fails, the
    error is returned and nothing changes; when opening the file fails, the
    error is returned and the files are as before; when the write fails
    after [n] bytes, the error is returned and the state file holds the
    first [n] bytes of the new contents, whatever it held before; when
    nothing fails, the file holds the new contents.  The error is the one of
    the failing call, not wrapped. *)
Theorem Save_writes_in_place (s : State) (io : SaveIO) (fs : FS) :
  let path := StateFilePath (RepoRoot s) in
  let dir := filepath_Dir path in
  let data := json_MarshalIndent s in
  let '(fs', err) := Save s io fs in
  match mkdir_fault io, write_result io with
  | Some e, _ => err = Some e ∧ fs' = fs
  | None, OpenFails e => err = Some e ∧ dir ∈ dirs fs' ∧ files fs' = files fs
  | None, WriteFails n e =>
    err = Some e ∧ dir ∈ dirs fs' ∧ files fs' = <[path := take n data]> (files fs)
  | None, WriteOk => err = None ∧ dir ∈ dirs fs' ∧ files fs' = <[path := data]> (files fs)
  end.
Proof.
  cbv zeta. rewrite Save_run, Dir_StateFilePath. unfold written.
  destruct (mkdir_fault io) as [e|]; [done|].
  destruct (write_result io); cbn [dirs files];
    (split; [done|]); (split; [|done]);
    apply elem_of_union_l; by apply elem_of_singleton.
Qed.

(** Claim C1 fails where it promises that a failed save leaves the previous
    file intact.  A valid state file is on disk; a save of another state
    fails after ten bytes; the file now holds those ten bytes, not the
    previous contents, and [LoadState] rejects it. *)
Lemma Save_failure_loses_previous_state :
  let prev := (Save (NewState "/r") io_ok (mkFS ∅ ∅)).1 in
  let io := mkSaveIO None (WriteFails 10 (EOther "write" "/r/.cwt/state.json")) in
  let r := Save sample_state io prev in
  LoadState None "/r" prev = Ok (NewState "/r")
  ∧ r.2 = Some (EOther "write" "/r/.cwt/state.json")
  ∧ files r.1 !! "/r/.cwt/state.json"%string = Some (take 10 (json_MarshalIndent sample_state))
  ∧ files r.1 !! "/r/.cwt/state.json"%string ≠ files prev !! "/r/.cwt/state.json"%string
  ∧ LoadState None "/r" r.1 = Err SyntaxError.
Proof. vm_compute. repeat split; try done. Qed.


Lemma sample_agent_tracked :
  GetAgent (state (manager sample_sys)) "cwt-20250104-a1b2" = Some sample_agent.
Proof. vm_compute. reflexivity. Qed.




Lemma status_of_set_agent root s id a fs tr :
  status_of (mkSys (mkManager root (set_agent s id a)) fs tr) id = Some (Status a).
Proof. unfold status_of, set_agent. cbn. by rewrite lookup_insert_eq. Qed.

Lemma saved_statuses_app id tr1 tr2 :
  saved_statuses id (tr1 ++ tr2) = saved_statuses id tr1 ++ saved_statuses id tr2.
Proof. unfold saved_statuses. apply omap_app. Qed.

Lemma Agents_set_agent_ne s id a id' :
  id ≠ id' → Agents (set_agent s id a) !! id' = Agents s !! id'.
Proof. intros Hne. unfold set_agent. cbn. by rewrite lookup_insert_ne. Qed.

Lemma saved_statuses_save id s e tr :
  saved_statuses id (EvSave s e :: tr) = (Status <$> (Agents s !! id)) :: saved_statuses id tr.
Proof. reflexivity. Qed.

Lemma saved_statuses_git id d args tr :
  saved_statuses id (EvGit d args :: tr) = saved_statuses id tr.
Proof. reflexivity. Qed.

Lemma saved_statuses_nil id : saved_statuses id [] = [].
Proof. reflexivity. Qed.

Lemma Status_set_agent s id a : Status <$> (Agents (set_agent s id a) !! id) = Some (Status a).
Proof. unfold set_agent. cbn [Agents]. by rewrite lookup_insert_eq. Qed.

Ltac statuses :=
  repeat first [ rewrite saved_statuses_app | rewrite saved_statuses_save
               | rewrite saved_statuses_git | rewrite saved_statuses_nil
               | rewrite Status_set_agent ].



(** Claim C6.  For a tracked agent, [RemoveWorktree] drops the record and
    saves the state, whatever git answers to the removal of the working copy
    and of the branch: after the git commands the trace ends with the save
    of the state without the agent, and the error returned is the one of
    that save.  With a working disk no error is returned and the state file
    holds the state without the agent.  A second call for the same ID, in
    any environment, returns the not-found error and changes nothing. *)
Theorem RemoveWorktree_idempotent (env env2 : Env) (id : string) (sys : Sys) (a : Agent) :
  GetAgent (state (manager sys)) id = Some a →
  let s1 := RemoveAgent (state (manager sys)) id in
  let r := RemoveWorktree env id sys in
  state (manager r.2) = s1
  ∧ GetAgent (state (manager r.2)) id = None
  ∧ (∃ gits, trace r.2 = trace sys ++ gits ++ [EvSave s1 r.1])
  ∧ (r.1, disk r.2)
    = ((Save s1 (save_io env 0) (disk sys)).2, (Save s1 (save_io env 0) (disk sys)).1)
  ∧ (save_io env 0 = io_ok →
     r.1 = None
     ∧ files (disk r.2) !! StateFilePath (RepoRoot s1) = Some (json_MarshalIndent s1))
  ∧ RemoveWorktree env2 id r.2 = (Some (not_found id), r.2).
Proof.
  intros Ha. cbv zeta. rewrite (RemoveWorktree_run _ _ _ _ Ha). cbv zeta.
  cbn [fst snd manager state].
  assert (Hgone : GetAgent (RemoveAgent (state (manager sys)) id) id = None).
  { unfold GetAgent, RemoveAgent. cbn. apply lookup_delete_eq. }
  split; [done|]. split; [done|]. split; [by eexists|]. split; [done|]. split.
  - intros ->. rewrite Save_run. cbn [mkdir_fault write_result io_ok fst snd].
    unfold written. cbn [files].
    split; [done|]. apply lookup_insert_eq.
  - by apply RemoveWorktree_untracked.
Qed.

(** [RemoveWorktree_idempotent] at the sample repository, with every git
    command failing. *)
Lemma RemoveWorktree_idempotent_witness :
  GetAgent (state (manager sample_sys)) "cwt-20250104-a1b2" = Some sample_agent
  ∧ GetAgent (state (manager (RemoveWorktree failing_git_env "cwt-20250104-a1b2" sample_sys).2))
             "cwt-20250104-a1b2" = None.
Proof.
  split; [exact sample_agent_tracked|].
  exact (proj1 (proj2 (RemoveWorktree_idempotent failing_git_env sample_env "cwt-20250104-a1b2"
                         sample_sys sample_agent sample_agent_tracked))).
Defined.

(** *** generateID and CreateWorktree *)

Lemma CreateWorktree_ok tbl env task sys a sys' :
  CreateWorktree tbl env task sys = (Ok a, sys') →
  ID a = generateID (clock env 0) (random env)
  ∧ state (manager sys') = AddAgent (state (manager sys)) a.
Proof.
  unfold CreateWorktree. run.
  destruct (git_answer env ["rev-parse"; "--abbrev-ref"; "HEAD"]%string) as [o1 [e1|]];
    run; [intros [=]|].
  destruct (git_answer env ["rev-parse"; "HEAD"]%string) as [o2 [e2|]]; run; [intros [=]|].
  destruct (git_answer env ["worktree"; "add"; _; _; _]%string) as [o3 [e3|]];
    run; [intros [=]|].
  destruct (Save _ _ _) as [fs [e|]]; run; intros [= <- <-]; done.
Qed.


(** ** Bytes and strings *)

Lemma byte_val_range c : 0 <= byte_val c < 256.
Proof.
  unfold byte_val. pose proof (N_ascii_bounded c). lia.
Qed.

Lemma byte_val_of z : 0 <= z < 256 → byte_val (byte_of z) = z.
Proof.
  intros Hz. unfold byte_val, byte_of. rewrite N_ascii_embedding by lia. lia.
Qed.

Lemma byte_of_val c : byte_of (byte_val c) = c.
Proof. unfold byte_val, byte_of. rewrite N2Z.id. apply ascii_N_embedding. Qed.

Lemma byte_val_inj c d : byte_val c = byte_val d → c = d.
Proof. intros H. rewrite <- (byte_of_val c), <- (byte_of_val d). by rewrite H. Qed.

Lemma B_S_ b : B (S_ b) = b.
Proof. apply list_ascii_of_string_of_list_ascii. Qed.

Lemma S_B s : S_ (B s) = s.
Proof. apply string_of_list_ascii_of_string. Qed.

(** ** Slugs *)

Lemma is_dash_eqb c : Ascii.eqb c "-" = is_dash c.
Proof.
  unfold is_dash. destruct (Ascii.eqb_spec c "-") as [->|Hne]; [reflexivity|].
  symmetry. apply Z.eqb_neq. intros H. apply Hne. apply byte_val_inj. exact H.
Qed.

Lemma alnum_byte r : is_lower_alnum r = true → byte_val (byte_of r) = r.
Proof. unfold is_lower_alnum. intros H. apply byte_val_of. lia. Qed.

Lemma alnum_not_dash r : is_lower_alnum r = true → is_dash (byte_of r) = false.
Proof.
  intros H. unfold is_dash. rewrite (alnum_byte _ H). unfold is_lower_alnum in H. lia.
Qed.

Lemma replace_runs_chars b rs : Forall (fun c => slug_char c = true) (replace_runs b rs).
Proof.
  revert b. induction rs as [|r rs IH]; intros b; cbn [replace_runs]; [constructor|].
  destruct (is_lower_alnum r) eqn:Hr.
  - constructor; [|apply IH]. unfold slug_char. by rewrite (alnum_byte _ Hr), Hr.
  - destruct b; [apply IH|]. constructor; [reflexivity | apply IH].
Qed.

Lemma replace_runs_head_in_run rs :
  match replace_runs true rs with c :: _ => is_dash c = false | [] => True end.
Proof.
  induction rs as [|r rs IH]; cbn [replace_runs]; [done|].
  destruct (is_lower_alnum r) eqn:Hr; [by apply alnum_not_dash | exact IH].
Qed.

Lemma replace_runs_no_double_dash b rs : no_double_dash (replace_runs b rs) = true.
Proof.
  revert b. induction rs as [|r rs IH]; intros b; cbn [replace_runs]; [done|].
  destruct (is_lower_alnum r) eqn:Hr.
  - cbn [no_double_dash]. rewrite (alnum_not_dash _ Hr), IH. by destruct (replace_runs false rs).
  - destruct b; [apply IH|]. cbn [no_double_dash].
    pose proof (replace_runs_head_in_run rs) as Hh.
    rewrite IH. destruct (replace_runs true rs); [done|]. rewrite Hh. by rewrite andb_false_r.
Qed.

Lemma no_double_dash_app_l s t : no_double_dash (s ++ t) = true → no_double_dash s = true.
Proof.
  induction s as [|a s IH]; [done|]. cbn [app no_double_dash].
  destruct s as [|b s]; [done|]. cbn [app]. intros [H1 H2]%andb_prop.
  rewrite H1. by apply IH.
Qed.

Lemma no_double_dash_app_r s t : no_double_dash (s ++ t) = true → no_double_dash t = true.
Proof.
  induction s as [|a s IH]; [done|]. cbn [app no_double_dash].
  intros H. apply IH. destruct (s ++ t) as [|b l]; [done|].
  by apply andb_prop in H as [_ H].
Qed.

Lemma trim_left_dash_split s : ∃ d, all_dashes d ∧ s = d ++ trim_left_dash s.
Proof.
  induction s as [|c s (d & Hd & IH)]; [exists []; split; [constructor|done]|].
  cbn [trim_left_dash].
  rewrite is_dash_eqb. destruct (is_dash c) eqn:Hc.
  - exists (c :: d). split; [by constructor|]. cbn. by rewrite <- IH.
  - exists []. split; [constructor|done].
Qed.

Lemma trim_left_dash_head s :
  match trim_left_dash s with c :: _ => is_dash c = false | [] => True end.
Proof.
  induction s as [|c s IH]; [done|]. cbn [trim_left_dash]. rewrite is_dash_eqb.
  by destruct (is_dash c) eqn:Hc.
Qed.

Lemma strings_Trim_dash_split s :
  ∃ d1 d2, all_dashes d1 ∧ all_dashes d2 ∧ s = d1 ++ strings_Trim_dash s ++ d2.
Proof.
  unfold strings_Trim_dash.
  destruct (trim_left_dash_split s) as (d1 & Hd1 & E1).
  destruct (trim_left_dash_split (rev (trim_left_dash s))) as (d2 & Hd2 & E2).
  exists d1, (rev d2). split; [done|]. split.
  - by apply List.Forall_rev.
  - rewrite <- rev_app_distr, <- E2, rev_involutive. exact E1.
Qed.

Lemma strings_Trim_dash_ends s :
  match strings_Trim_dash s with c :: _ => is_dash c = false | [] => True end
  ∧ match last (strings_Trim_dash s) with Some c => is_dash c = false | None => True end.
Proof.
  unfold strings_Trim_dash.
  pose proof (trim_left_dash_head (rev (trim_left_dash s))) as Hlast.
  pose proof (trim_left_dash_head s) as Hhead.
  destruct (trim_left_dash_split (rev (trim_left_dash s))) as (d2 & Hd2 & E2).
  set (u := trim_left_dash (rev (trim_left_dash s))) in *.
  split.
  - assert (E : trim_left_dash s = rev u ++ rev d2).
    { rewrite <- rev_app_distr, <- E2. by rewrite rev_involutive. }
    destruct (rev u) as [|c ru] eqn:Eu; [done|].
    rewrite E in Hhead. exact Hhead.
  - destruct u as [|c u']; [done|]. cbn [rev]. rewrite last_snoc. exact Hlast.
Qed.

Lemma replace_runs_content b rs :
  List.filter not_dash (replace_runs b rs) = byte_of <$> List.filter is_lower_alnum rs.
Proof.
  revert b. induction rs as [|r rs IH]; intros b; cbn [replace_runs List.filter]; [done|].
  destruct (is_lower_alnum r) eqn:Hr.
  - cbn [List.filter]. unfold not_dash at 1. rewrite (alnum_not_dash _ Hr). cbn. by rewrite IH.
  - destruct b; [apply IH|]. cbn [List.filter]. unfold not_dash at 1. cbn. apply IH.
Qed.

Lemma filter_all_dashes d : all_dashes d → List.filter not_dash d = [].
Proof.
  induction 1 as [|c d Hc _ IH]; [done|]. cbn. unfold not_dash at 1. by rewrite Hc.
Qed.

Lemma strings_Trim_dash_content s :
  List.filter not_dash (strings_Trim_dash s) = List.filter not_dash s.
Proof.
  destruct (strings_Trim_dash_split s) as (d1 & d2 & H1 & H2 & E).
  rewrite E at 2. rewrite !List.filter_app, (filter_all_dashes _ H1), (filter_all_dashes _ H2).
  by rewrite app_nil_r.
Qed.

(** *** The slug is the words of the task, joined by dashes *)

Lemma alnum_words_head r t :
  is_lower_alnum r = true → ∃ w ws, alnum_words (r :: t) = (r :: w) :: ws.
Proof.
  intros Hr. cbn [alnum_words]. rewrite Hr.
  destruct (alnum_words t) as [|w ws]; [by eexists _, _|].
  destruct (starts_word t); by eexists _, _.
Qed.

Lemma alnum_words_glue r r' t w ws :
  is_lower_alnum r = true → is_lower_alnum r' = true →
  alnum_words (r' :: t) = w :: ws →
  alnum_words (r :: r' :: t) = (r :: w) :: ws.
Proof.
  intros Hr Hr' E. cbn [alnum_words] in E |- *. rewrite Hr. rewrite Hr' in E |- *.
  rewrite E. cbn [starts_word]. by rewrite Hr'.
Qed.

Lemma alnum_words_new r r' t :
  is_lower_alnum r = true → is_lower_alnum r' = false →
  alnum_words (r :: r' :: t) = [r] :: alnum_words (r' :: t).
Proof.
  intros Hr Hr'. cbn [alnum_words]. rewrite Hr, Hr'. cbn [starts_word]. rewrite Hr'.
  by destruct (alnum_words t).
Qed.

Lemma alnum_words_skip r t : is_lower_alnum r = false → alnum_words (r :: t) = alnum_words t.
Proof. intros Hr. cbn [alnum_words]. by rewrite Hr. Qed.

Lemma dash_join_cons_word c w ws :
  dash_join ((c :: w) :: ws) = c :: dash_join (w :: ws).
Proof. cbn [dash_join]. by destruct ws. Qed.

(** After a run, [replace_runs] writes the words with one dash between
    them, and one more dash when runes follow the last word. *)
Lemma replace_runs_words rs :
  ∃ d, all_dashes d ∧ replace_runs true rs = dash_join (word_bytes (alnum_words rs)) ++ d.
Proof.
  induction rs as [|r t (d & Hd & IH)]; [exists []; by split; [constructor|]|].
  destruct (is_lower_alnum r) eqn:Hr.
  - cbn [replace_runs]. rewrite Hr.
    destruct t as [|r' t'].
    + exists []. split; [constructor|]. cbn [alnum_words]. by rewrite Hr.
    + destruct (is_lower_alnum r') eqn:Hr'.
      * destruct (alnum_words_head r' t' Hr') as (w & ws & E).
        rewrite (alnum_words_glue _ _ _ _ _ Hr Hr' E).
        exists d. split; [done|].
        cbn [replace_runs] in IH |- *. rewrite Hr' in IH |- *. rewrite IH, E.
        unfold word_bytes. cbn [map]. by rewrite !dash_join_cons_word.
      * rewrite (alnum_words_new _ _ _ Hr Hr').
        cbn [replace_runs] in IH |- *. rewrite Hr' in IH |- *. rewrite IH.
        unfold word_bytes. cbn [map dash_join].
        destruct (map (map byte_of) (alnum_words (r' :: t'))) as [|w ws] eqn:E.
        -- exists ("-"%char :: d). split; [by constructor|]. done.
        -- exists d. split; [done|]. done.
  - exists d. split; [done|]. cbn [replace_runs]. by rewrite Hr, alnum_words_skip.
Qed.

Lemma replace_runs_false rs :
  ∃ d, all_dashes d ∧ replace_runs false rs = d ++ replace_runs true rs.
Proof.
  destruct rs as [|r t]; [exists []; by split; [constructor|]|].
  cbn [replace_runs]. destruct (is_lower_alnum r).
  - exists []. by split; [constructor|].
  - exists ["-"%char]. split; [by repeat constructor|done].
Qed.

(** Every word is a non-empty list of runes of the class. *)
Lemma alnum_words_words rs :
  Forall (fun w => w ≠ [] ∧ Forall (fun r => is_lower_alnum r = true) w) (alnum_words rs).
Proof.
  induction rs as [|r t IH]; [constructor|].
  destruct (is_lower_alnum r) eqn:Hr; [|by rewrite alnum_words_skip].
  destruct t as [|r' t'].
  - cbn [alnum_words]. rewrite Hr. by repeat constructor.
  - destruct (is_lower_alnum r') eqn:Hr'.
    + destruct (alnum_words_head r' t' Hr') as (w & ws & E).
      rewrite (alnum_words_glue _ _ _ _ _ Hr Hr' E). rewrite E in IH.
      apply Forall_cons in IH as [[_ Hw] Hws]. constructor; [|done].
      split; [done|]. by constructor.
    + rewrite (alnum_words_new _ _ _ Hr Hr'). constructor; [|done].
      split; [done|]. by repeat constructor.
Qed.

Lemma dash_join_ends ws :
  Forall (fun w => w ≠ [] ∧ Forall (fun r => is_lower_alnum r = true) w) ws →
  no_dash_at_ends (dash_join (word_bytes ws)).
Proof.
  intros H. induction H as [|w ws [Hne Hw] Hws [IH1 IH2]]; [by split|].
  unfold word_bytes in *. cbn [map dash_join].
  destruct w as [|r w]; [done|]. apply Forall_cons in Hw as [Hr Hw].
  destruct (map (map byte_of) ws) as [|w' ws'] eqn:E.
  - split; [by apply alnum_not_dash|].
    cbn [map]. 
    assert (Hl : ∃ r', last (byte_of r :: map byte_of w) = Some (byte_of r')
                       ∧ is_lower_alnum r' = true).
    { clear -Hr Hw. revert r Hr. induction Hw as [|r1 w Hr1 Hw IH]; intros r Hr.
      - by exists r.
      - destruct (IH r1 Hr1) as (r' & E & Hr'). exists r'. split; [|done].
        cbn [map] in *. by rewrite last_cons, E. }
    destruct Hl as (r' & -> & Hr'). by apply alnum_not_dash.
  - split; [by apply alnum_not_dash|].
    cbn [map]. rewrite last_app.
    rewrite last_cons.
    destruct (last (dash_join (w' :: ws'))) as [c|] eqn:El; [exact IH2|].
    exfalso. apply last_None in El.
    destruct ws as [|w0 ws0]; [done|]. cbn [map] in E. injection E as <- <-.
    apply Forall_cons in Hws as [[Hne0 _] _]. destruct w0; [done|].
    cbn [map dash_join] in El. by destruct (map (map byte_of) ws0).
Qed.

Lemma trim_left_dash_all d s : all_dashes d → trim_left_dash (d ++ s) = trim_left_dash s.
Proof.
  induction 1 as [|c d Hc _ IH]; [done|]. cbn [app trim_left_dash].
  by rewrite is_dash_eqb, Hc.
Qed.

Lemma trim_left_dash_fixed s :
  match s with c :: _ => is_dash c = false | [] => True end → trim_left_dash s = s.
Proof. destruct s as [|c s]; [done|]. cbn [trim_left_dash]. rewrite is_dash_eqb. by intros ->. Qed.

Lemma strings_Trim_dash_middle d1 m d2 :
  all_dashes d1 → all_dashes d2 → no_dash_at_ends m →
  strings_Trim_dash (d1 ++ m ++ d2) = m.
Proof.
  intros H1 H2 [Hh Hl]. unfold strings_Trim_dash. rewrite trim_left_dash_all by done.
  destruct m as [|c m] using rev_ind.
  - cbn [app]. rewrite <- (app_nil_r d2), trim_left_dash_all by done. reflexivity.
  - clear IHm. rewrite last_snoc in Hl.
    rewrite (trim_left_dash_fixed ((m ++ [c]) ++ d2)).
    + rewrite rev_app_distr, trim_left_dash_all by (by apply List.Forall_rev).
      rewrite rev_app_distr. cbn [rev app].
      rewrite (trim_left_dash_fixed (c :: rev m)) by done.
      cbn [rev]. by rewrite rev_involutive.
    + destruct m as [|c' m]; [exact Hl | exact Hh].
Qed.

Lemma slug_untruncated_words tbl s :
  slug_untruncated tbl s
  = dash_join (word_bytes (alnum_words (utf8.runes (strings_ToLower tbl s)))).
Proof.
  unfold slug_untruncated, ReplaceAllString_dash.
  set (rs := utf8.runes (strings_ToLower tbl s)).
  destruct (replace_runs_false rs) as (d1 & H1 & E1).
  destruct (replace_runs_words rs) as (d2 & H2 & E2).
  rewrite E1, E2. apply strings_Trim_dash_middle; [done..|].
  apply dash_join_ends, alnum_words_words.
Qed.

Lemma slugify_take tbl task : B (slugify tbl task) = take 30 (slug_untruncated tbl (B task)).
Proof.
  unfold slugify. rewrite B_S_. destruct (30 <? _) eqn:E; [done|].
  rewrite take_ge; [done|]. apply Z.ltb_ge in E. lia.
Qed.


Example slugify_samples :
  slugify no_case_table "Add auth: OAuth2 + (PKCE)!" = "add-auth-oauth2-pkce"%string
  ∧ slugify no_case_table EmptyString = EmptyString
  ∧ slugify no_case_table "!!!" = EmptyString
  ∧ slugify no_case_table "Refactor the persistent state-store layer"
    = "refactor-the-persistent-state-"%string
  ∧ slugify no_case_table "Café ☕ menü: prix en €" = "caf-men-prix-en"%string
  ∧ slugify no_case_table (String "255" "x") = "x"%string.
Proof. vm_compute. repeat split; reflexivity. Qed.

(** ** The ring buffer *)

Lemma int_wrap_small z : - 2 ^ 63 <= z < 2 ^ 63 → int_wrap z = z.
Proof.
  intros Hz. unfold int_wrap.
  rewrite Z.mod_small; lia.
Qed.

Lemma mod_below_twice x c : 0 <= x < 2 * c → x mod c = if x <? c then x else x - c.
Proof.
  intros Hx. destruct (x <? c) eqn:E.
  - apply Z.ltb_lt in E. apply Z.mod_small. lia.
  - apply Z.ltb_ge in E. symmetry. apply (Z.mod_unique _ _ 1); lia.
Qed.

Ltac ltb_cases :=
  repeat match goal with
         | |- context [?a <? ?b] => destruct (Z.ltb_spec a b)
         end; lia.

Lemma index_at c r i :
  wf c r → 0 <= i <= c →
  int_rem (int_add (pty.start r) i) (pty.size r) = Some ((pty.start r + i) mod c)
  ∧ 0 <= (pty.start r + i) mod c < c.
Proof.
  intros [Hc Hs Hd Hst Hl] Hi. unfold pty.maxAlloc in Hc.
  assert (0 <= (pty.start r + i) mod c < c) as Hm by (apply Z.mod_pos_bound; lia).
  split; [|done].
  unfold int_rem, int_add. rewrite Hs.
  destruct (c =? 0) eqn:E; [lia|].
  rewrite (int_wrap_small (pty.start r + i)) by lia.
  rewrite Z.rem_mod_nonneg by lia. rewrite int_wrap_small by lia. done.
Qed.

Lemma Bytes_spec c r l :
  wf c r →
  pty.Bytes r = Some l ↔
  length l = Z.to_nat (pty.len r)
  ∧ ∀ i : nat, (i < Z.to_nat (pty.len r))%nat → l !! i = pty.data r !! slot r (Z.of_nat i).
Proof.
  intros Hwf. pose proof Hwf as [Hc Hs Hd Hst Hl]. unfold pty.Bytes.
  destruct (pty.len r <? 0) eqn:E; [lia|]. etrans; [apply mapM_Some|].
  rewrite Forall2_same_length_lookup. rewrite length_seqZ.
  split.
  - intros [Hlen H]. split; [lia|]. intros i Hi.
    destruct (lookup_lt_is_Some_2 l i) as [y Hy]; [lia|].
    rewrite Hy. symmetry.
    specialize (H i (Z.of_nat i) y). rewrite lookup_seqZ in H.
    specialize (H ltac:(lia) Hy).
    destruct (index_at c r (Z.of_nat i) Hwf ltac:(lia)) as [Hidx Hrange].
    rewrite Hidx in H. cbn in H. unfold pty.load in H.
    destruct (0 <=? _) eqn:E0; [|lia]. unfold slot. by rewrite Hs.
  - intros [Hlen H]. split; [lia|]. intros i x y Hx Hy.
    apply lookup_seqZ in Hx as [-> Hi].
    destruct (index_at c r (Z.of_nat i) Hwf ltac:(lia)) as [Hidx Hrange].
    rewrite Z.add_0_l, Hidx. cbn. unfold pty.load.
    destruct (0 <=? _) eqn:E0; [|lia].
    rewrite <- Hy, H by lia. unfold slot. by rewrite Hs.
Qed.

Lemma NewRingBuffer_wf c r :
  0 < c → pty.NewRingBuffer c = Some r → wf c r ∧ pty.len r = 0.
Proof.
  unfold pty.NewRingBuffer. intros Hc.
  destruct ((c <? 0) || (pty.maxAlloc <? c)) eqn:E; [done|]. intros [= <-].
  apply orb_false_elim in E as [_ E]. apply Z.ltb_ge in E.
  split; [|done]. split; cbn; try lia. by rewrite length_replicate.
Qed.

Lemma write_byte_spec c r l b :
  wf c r → pty.Bytes r = Some l →
  ∃ r', pty.write_byte r b = Some r' ∧ wf c r'
        ∧ pty.Bytes r' = Some (last_n (Z.to_nat c) (l ++ [b])).
Proof.
  intros Hwf Hl. pose proof Hwf as [Hc Hs Hd Hst Hlen].
  apply (Bytes_spec c) in Hl as [Hll Hl]; [|done].
  destruct (index_at c r (pty.len r) Hwf ltac:(lia)) as [Hpos Hposr].
  unfold pty.write_byte. rewrite Hpos. cbn [mbind option_bind].
  unfold pty.store. rewrite Hd.
  remember ((pty.start r + pty.len r) mod c) as pos eqn:Epos.
  assert (E : (0 <=? pos) && (pos <? Z.of_nat (Z.to_nat c)) = true).
  { apply andb_true_intro. split; [apply Z.leb_le | apply Z.ltb_lt]; lia. }
  rewrite E. cbn [mbind option_bind].
  set (d := <[Z.to_nat pos := b]> (pty.data r)).
  assert (Hdlen : length d = Z.to_nat c) by (unfold d; by rewrite length_insert).
  assert (Hhit : d !! Z.to_nat pos = Some b).
  { unfold d. apply list_lookup_insert_eq. lia. }
  rewrite Hs. destruct (pty.len r <? c) eqn:Elt.
  - (* the buffer is not full *)
    eexists. split; [done|]. unfold pty.maxAlloc in Hc.
    assert (Hwf' : wf c (pty.mkRingBuffer d c (pty.start r) (int_add (pty.len r) 1))).
    { unfold int_add. rewrite int_wrap_small by lia. split; cbn; try done; lia. }
    split; [done|]. apply (Bytes_spec c); [done|]. cbn [pty.len].
    unfold int_add. rewrite int_wrap_small by lia.
    unfold last_n. rewrite length_app. cbn [length].
    replace (length l + 1 - Z.to_nat c)%nat with 0%nat by lia. rewrite drop_0.
    split; [rewrite length_app; cbn; lia|].
    intros i Hi. unfold slot. cbn [pty.start pty.size pty.data].
    destruct (decide (i = length l)) as [->|Hne].
    + rewrite lookup_app_r, Nat.sub_diag by lia. cbn.
      rewrite Hll, Z2Nat.id by lia. by rewrite <- Epos, Hhit.
    + rewrite lookup_app_l by lia. rewrite Hl by lia. unfold slot, d. rewrite Hs.
      rewrite list_lookup_insert_ne; [done|]. rewrite Epos.
      rewrite !mod_below_twice by lia.
      ltb_cases.
  - (* the buffer is full: the oldest byte is overwritten *)
    assert (Hfull : pty.len r = c) by lia.
    destruct (index_at c r 1 Hwf ltac:(lia)) as [Hst' Hst'r].
    rewrite Hs in Hst'. rewrite Hst'. cbn [mbind option_bind].
    eexists. split; [done|].
    assert (Hwf' : wf c (pty.mkRingBuffer d c ((pty.start r + 1) mod c) (pty.len r))).
    { split; cbn; try done; lia. }
    split; [done|]. apply (Bytes_spec c); [done|]. cbn [pty.len].
    unfold last_n. rewrite length_app. cbn [length].
    replace (length l + 1 - Z.to_nat c)%nat with 1%nat by lia.
    split; [rewrite length_drop, length_app; cbn; lia|].
    intros i Hi. unfold slot. cbn [pty.start pty.size pty.data]. rewrite lookup_drop.
    assert (Hpos0 : pos = pty.start r).
    { rewrite Epos, Hfull. rewrite mod_below_twice by lia. ltb_cases. }
    destruct (decide (S i = length l)) as [Hlast|Hne].
    + rewrite lookup_app_r by lia.
      replace (1 + i - length l)%nat with 0%nat by lia. cbn.
      replace (Z.to_nat (((pty.start r + 1) mod c + Z.of_nat i) mod c)) with (Z.to_nat pos);
        [by rewrite Hhit|].
      rewrite Hpos0. f_equal. rewrite (mod_below_twice (pty.start r + 1) c) by lia.
      rewrite mod_below_twice by ltb_cases. ltb_cases.
    + rewrite lookup_app_l by lia. rewrite Hl by lia. unfold slot, d. rewrite Hs.
      rewrite list_lookup_insert_ne.
      * f_equal. f_equal. rewrite (mod_below_twice (pty.start r + 1) c) by lia.
        rewrite !mod_below_twice by ltb_cases. ltb_cases.
      * rewrite Hpos0. rewrite (mod_below_twice (pty.start r + 1) c) by lia.
        rewrite !mod_below_twice by ltb_cases. ltb_cases.
Qed.

Lemma last_n_app_last_n {A} n (x y : list A) :
  last_n n (last_n n x ++ y) = last_n n (x ++ y).
Proof.
  unfold last_n. rewrite !length_app, length_drop, !drop_app, drop_drop, length_drop.
  f_equal; f_equal; lia.
Qed.

Lemma write_loop_spec c r l p :
  wf c r → pty.Bytes r = Some l →
  ∃ r', pty.write_loop r p = Some r' ∧ wf c r'
        ∧ pty.Bytes r' = Some (last_n (Z.to_nat c) (l ++ p)).
Proof.
  revert r l. induction p as [|b p IH]; intros r l Hwf Hl.
  - exists r. split; [done|]. split; [done|]. rewrite app_nil_r.
    rewrite Hl. f_equal. unfold last_n.
    apply (Bytes_spec c) in Hl as [Hll _]; [|done]. destruct Hwf.
    replace (length l - Z.to_nat c)%nat with 0%nat by lia. by rewrite drop_0.
  - destruct (write_byte_spec c r l b Hwf Hl) as (r1 & Hw & Hwf1 & Hl1).
    destruct (IH r1 _ Hwf1 Hl1) as (r' & Hw' & Hwf' & Hl').
    exists r'. cbn [pty.write_loop]. rewrite Hw. cbn [mbind option_bind].
    split; [done|]. split; [done|].
    rewrite Hl'. f_equal. rewrite last_n_app_last_n. by rewrite <- app_assoc.
Qed.

Lemma Write_all_spec c r l ps :
  wf c r → pty.Bytes r = Some l →
  ∃ r', Write_all r ps = Some (r', (fun p => (Z.of_nat (length p), None)) <$> ps)
        ∧ pty.Bytes r' = Some (last_n (Z.to_nat c) (l ++ concat ps)).
Proof.
  revert r l. induction ps as [|p ps IH]; intros r l Hwf Hl.
  - destruct (write_loop_spec c r l [] Hwf Hl) as (r' & [= <-] & _ & Hl').
    exists r. by split.
  - destruct (write_loop_spec c r l p Hwf Hl) as (r1 & Hw & Hwf1 & Hl1).
    destruct (IH r1 _ Hwf1 Hl1) as (r' & Hw' & Hl').
    exists r'. cbn [Write_all]. unfold pty.Write. rewrite Hw. cbn [mbind option_bind].
    rewrite Hw'. cbn [mbind option_bind fmap list_fmap]. split; [done|].
    rewrite Hl'. f_equal. cbn [concat]. rewrite last_n_app_last_n. by rewrite <- app_assoc.
Qed.

(** Claim C10.  For a ring buffer of capacity [c > 0] and every finite
    sequence of calls of [pty.Write], each call returns the length of its input
    and no error, and [pty.Bytes] afterwards returns the last [min total c]
    bytes of the concatenation of what was written, in the order written. *)
Theorem RingBuffer_keeps_last_bytes (c : Z) (r0 : pty.RingBuffer) (writes : list bytes) :
  0 < c → pty.NewRingBuffer c = Some r0 →
  ∃ r, Write_all r0 writes = Some (r, (fun p => (Z.of_nat (length p), None)) <$> writes)
       ∧ pty.Bytes r = Some (last_n (Z.to_nat c) (concat writes))
       ∧ length (last_n (Z.to_nat c) (concat writes))
         = Nat.min (length (concat writes)) (Z.to_nat c).
Proof.
  intros Hc Hnew. destruct (NewRingBuffer_wf c r0 Hc Hnew) as [Hwf Hlen].
  assert (Hl : pty.Bytes r0 = Some []).
  { apply (Bytes_spec c); [done|]. rewrite Hlen. split; [done|]. intros i Hi. cbn in Hi. lia. }
  destruct (Write_all_spec c r0 [] writes Hwf Hl) as (r & Hw & Hb).
  exists r. split; [done|]. split; [done|]. unfold last_n. rewrite length_drop. lia.
Qed.

(** [RingBuffer_keeps_last_bytes] for capacity 3 and the writes ab, cde. *)
Lemma RingBuffer_keeps_last_bytes_witness :
  0 < 3 ∧ pty.NewRingBuffer 3 = Some (pty.mkRingBuffer [Ascii.zero; Ascii.zero; Ascii.zero] 3 0 0)
  ∧ ∃ r, Write_all (pty.mkRingBuffer [Ascii.zero; Ascii.zero; Ascii.zero] 3 0 0)
                   [B "ab"; B "cde"]
         = Some (r, [(2, None); (3, None)])
         ∧ pty.Bytes r = Some (B "cde")
         ∧ length (B "cde") = 3%nat.
Proof.
  split; [lia|]. split; [reflexivity|].
  exact (RingBuffer_keeps_last_bytes 3 _ [B "ab"; B "cde"] ltac:(lia) eq_refl).
Defined.

(** The capacity has to be positive: with capacity 0 the first byte written
    divides by zero, and a negative capacity cannot be allocated. Both
    panic. *)
Example RingBuffer_without_capacity :
  (r ← pty.NewRingBuffer 0; pty.Write r (B "a")) = None
  ∧ (r ← pty.NewRingBuffer 0; pty.Write r []) = Some (pty.mkRingBuffer [] 0 0 0, (0, None))
  ∧ pty.NewRingBuffer (-1) = None.
Proof. repeat split; reflexivity. Qed.

(** ** UTF-8 and string literals *)

(** *** Well-formed UTF-8 is decoded and encoded back unchanged *)

Ltac bool_hyps :=
  repeat match goal with
         | H : _ && _ = true |- _ => apply andb_prop in H as [? ?]
         | H : (_ <=? _) = true |- _ => apply Z.leb_le in H
         | H : (_ <? _) = true |- _ => apply Z.ltb_lt in H
         | H : (_ <? _) = false |- _ => apply Z.ltb_ge in H
         | H : (_ =? _) = true |- _ => apply Z.eqb_eq in H
         | H : (_ =? _) = false |- _ => apply Z.eqb_neq in H
         end.

Lemma in_range_spec lo hi c : utf8.in_range lo hi c = true → lo <= byte_val c <= hi.
Proof. unfold utf8.in_range. intros H. bool_hyps. lia. Qed.

Lemma second_bounds b0 : 128 <= utf8.second_lo b0 ∧ utf8.second_hi b0 <= 191.
Proof. unfold utf8.second_lo, utf8.second_hi. repeat case_match; lia. Qed.

Lemma second_lo_224 b0 : b0 = 224 → utf8.second_lo b0 = 160.
Proof. by intros ->. Qed.
Lemma second_hi_237 b0 : b0 = 237 → utf8.second_hi b0 = 159.
Proof. by intros ->. Qed.
Lemma second_lo_240 b0 : b0 = 240 → utf8.second_lo b0 = 144.
Proof. by intros ->. Qed.
Lemma second_hi_244 b0 : b0 = 244 → utf8.second_hi b0 = 143.
Proof. by intros ->. Qed.

Lemma div_of a b k : 0 < k → 0 <= b < k → (a * k + b) / k = a.
Proof. intros Hk Hb. symmetry. apply Z.div_unique with b; lia. Qed.

Lemma mod_of a b k : 0 < k → 0 <= b < k → (a * k + b) mod k = b.
Proof. intros Hk Hb. symmetry. apply Z.mod_unique with a; lia. Qed.

(** A multi-byte rune at the head of [s]: its bytes, re-encoded, are the
    bytes that were decoded, and the decoding does not look further. *)
Lemma DecodeRune_multibyte c t r n :
  128 <= byte_val c →
  utf8.DecodeRune (c :: t) = (r, n) →
  (r, n) ≠ (utf8.RuneError, 1%nat) →
  ∃ pre t', t = pre ++ t' ∧ S (length pre) = n
            ∧ utf8.EncodeRune r = c :: pre
            ∧ 128 <= r
            ∧ ∀ t'', utf8.DecodeRune (c :: pre ++ t'') = (r, n).
Proof.
  intros Hc. unfold utf8.DecodeRune.
  pose proof (byte_val_range c) as Hcr.
  pose proof (second_bounds (byte_val c)) as [Hlo Hhi].
  destruct (byte_val c <? 128) eqn:E0; [lia|]. pose proof (E0 : keep _) as B0.
  destruct ((194 <=? byte_val c) && (byte_val c <=? 223)) eqn:E2; pose proof (E2 : keep _) as B2.
  { destruct t as [|c1 t]; [by intros [= <- <-]|].
    destruct (utf8.is_cont c1) eqn:E1; [|by intros [= <- <-]].
    intros [= <- <-] _. pose proof (E1 : keep _) as E1'. apply in_range_spec in E1. bool_hyps.
    exists [c1], t. split; [done|]. split; [done|].
    set (b0 := byte_val c) in *. set (b1 := byte_val c1) in *.
    assert (Hd : ((b0 - 192) * 64 + (b1 - 128)) / 64 = b0 - 192) by (apply div_of; lia).
    assert (Hm : ((b0 - 192) * 64 + (b1 - 128)) mod 64 = b1 - 128) by (apply mod_of; lia).
    split; [|split].
    - unfold utf8.EncodeRune, utf8.MaxRune, utf8.RuneError.
      repeat (case_match; bool_hyps; try lia).
      rewrite Hd, Hm. f_equal; [|f_equal].
      + rewrite <- (byte_of_val c). f_equal. unfold b0. lia.
      + rewrite <- (byte_of_val c1). f_equal. unfold b1. lia.
    - lia.
    - intros t''. cbn [app]. unfold utf8.DecodeRune. cbv zeta. fold b0. unfold keep in *.
      by rewrite ?B0, ?B2, ?E1'. }
  destruct ((224 <=? byte_val c) && (byte_val c <=? 239)) eqn:E3; pose proof (E3 : keep _) as B3.
  { destruct t as [|c1 [|c2 t]]; [by intros [= <- <-]..|].
    destruct (utf8.in_range _ _ c1 && utf8.is_cont c2) eqn:E1; [|by intros [= <- <-]].
    intros [= <- <-] _. pose proof (E1 : keep _) as E1'. apply andb_prop in E1 as [H1 H2].
    apply in_range_spec in H1, H2. bool_hyps.
    exists [c1; c2], t. split; [done|]. split; [done|].
    pose proof (second_lo_224 (byte_val c)) as L224.
    pose proof (second_hi_237 (byte_val c)) as L237.
    set (b0 := byte_val c) in *. set (b1 := byte_val c1) in *. set (b2 := byte_val c2) in *.
    set (r := (b0 - 224) * 4096 + (b1 - 128) * 64 + (b2 - 128)).
    assert (Hd1 : r / 4096 = b0 - 224).
    { unfold r. rewrite <- Z.add_assoc. apply div_of; lia. }
    assert (Hd2 : (r / 64) mod 64 = b1 - 128).
    { replace r with (((b0 - 224) * 64 + (b1 - 128)) * 64 + (b2 - 128)) by (unfold r; lia).
      rewrite div_of by lia. apply mod_of; lia. }
    assert (Hm : r mod 64 = b2 - 128).
    { replace r with (((b0 - 224) * 64 + (b1 - 128)) * 64 + (b2 - 128)) by (unfold r; lia).
      apply mod_of; lia. }
    assert (Hr : 2048 <= r < 65536 ∧ ¬ (55296 <= r <= 57343)).
    { unfold r. destruct (decide (b0 = 224)) as [e|]; [specialize (L224 e); lia|].
      destruct (decide (b0 = 237)) as [e|]; [specialize (L237 e); lia|]. lia. }
    split; [|split].
    - unfold utf8.EncodeRune, utf8.MaxRune, utf8.RuneError.
      repeat (case_match; bool_hyps; try lia).
      rewrite Hd1, Hd2, Hm. f_equal; [|f_equal; [|f_equal]].
      + rewrite <- (byte_of_val c). f_equal. unfold b0. lia.
      + rewrite <- (byte_of_val c1). f_equal. unfold b1. lia.
      + rewrite <- (byte_of_val c2). f_equal. unfold b2. lia.
    - lia.
    - intros t''. cbn [app]. unfold utf8.DecodeRune. cbv zeta. fold b0. unfold keep in *.
      by rewrite ?B0, ?B2, ?B3, ?E1'. }
  destruct ((240 <=? byte_val c) && (byte_val c <=? 244)) eqn:E4; [|by intros [= <- <-]].
  pose proof (E4 : keep _) as B4.
  destruct t as [|c1 [|c2 [|c3 t]]]; [by intros [= <- <-]..|].
  destruct (utf8.in_range _ _ c1 && utf8.is_cont c2 && utf8.is_cont c3) eqn:E1;
    [|by intros [= <- <-]].
  intros [= <- <-] _. pose proof (E1 : keep _) as E1'. apply andb_prop in E1 as [H12 H3].
  apply andb_prop in H12 as [H1 H2].
  apply in_range_spec in H1, H2, H3. bool_hyps.
  exists [c1; c2; c3], t. split; [done|]. split; [done|].
  pose proof (second_lo_240 (byte_val c)) as L240.
  pose proof (second_hi_244 (byte_val c)) as L244.
  set (b0 := byte_val c) in *. set (b1 := byte_val c1) in *.
  set (b2 := byte_val c2) in *. set (b3 := byte_val c3) in *.
  set (r := (b0 - 240) * 262144 + (b1 - 128) * 4096 + (b2 - 128) * 64 + (b3 - 128)).
  assert (Hd1 : r / 262144 = b0 - 240).
  { replace r with ((b0 - 240) * 262144 + ((b1 - 128) * 4096 + (b2 - 128) * 64 + (b3 - 128)))
      by (unfold r; lia).
    apply div_of; lia. }
  assert (Hd2 : (r / 4096) mod 64 = b1 - 128).
  { replace r with (((b0 - 240) * 64 + (b1 - 128)) * 4096 + ((b2 - 128) * 64 + (b3 - 128)))
      by (unfold r; lia).
    rewrite div_of by lia. apply mod_of; lia. }
  assert (Hd3 : (r / 64) mod 64 = b2 - 128).
  { replace r with ((((b0 - 240) * 64 + (b1 - 128)) * 64 + (b2 - 128)) * 64 + (b3 - 128))
      by (unfold r; lia).
    rewrite div_of by lia. apply mod_of; lia. }
  assert (Hm : r mod 64 = b3 - 128).
  { replace r with ((((b0 - 240) * 64 + (b1 - 128)) * 64 + (b2 - 128)) * 64 + (b3 - 128))
      by (unfold r; lia).
    apply mod_of; lia. }
  assert (Hr : 65536 <= r <= 1114111).
  { unfold r. destruct (decide (b0 = 240)) as [e|]; [specialize (L240 e); lia|].
    destruct (decide (b0 = 244)) as [e|]; [specialize (L244 e); lia|]. lia. }
  split; [|split].
  - unfold utf8.EncodeRune, utf8.MaxRune, utf8.RuneError.
    repeat (case_match; bool_hyps; try lia).
    rewrite Hd1, Hd2, Hd3, Hm. f_equal; [|f_equal; [|f_equal; [|f_equal]]].
    + rewrite <- (byte_of_val c). f_equal. unfold b0. lia.
    + rewrite <- (byte_of_val c1). f_equal. unfold b1. lia.
    + rewrite <- (byte_of_val c2). f_equal. unfold b2. lia.
    + rewrite <- (byte_of_val c3). f_equal. unfold b3. lia.
  - lia.
  - intros t''. cbn [app]. unfold utf8.DecodeRune. cbv zeta. fold b0. unfold keep in *.
    by rewrite ?B0, ?B2, ?B3, ?B4, ?E1'.
Qed.

(** *** A string literal is read back as the string that was written *)

Lemma emit_Some pre out rest : json.emit pre (Some (out, rest)) = Some (pre ++ out, rest).
Proof. reflexivity. Qed.

Lemma unquote_escape_ascii c X :
  byte_val c < 128 →
  json.unquote_from 0 (json.escape_ascii c ++ X) = json.emit [c] (json.unquote_from 0 X).
Proof.
  intros Hc. destruct c as [b0 b1 b2 b3 b4 b5 b6 b7].
  destruct b7; [exfalso; destruct b0, b1, b2, b3, b4, b5, b6; vm_compute in Hc; discriminate|].
  destruct b0, b1, b2, b3, b4, b5, b6; reflexivity.
Qed.

Lemma appendString_pending k e pre t :
  length pre = k →
  json.appendString_from k e (pre ++ t)
  = (if e then pre else []) ++ json.appendString_from 0 true t.
Proof.
  revert k. induction pre as [|c pre IH]; intros k Hk; cbn in Hk; subst k.
  - cbn [app length]. destruct e; cbn [app]; by destruct t.
  - cbn [app length json.appendString_from]. rewrite IH by done. by destruct e.
Qed.

Lemma unquote_pending k pre t :
  length pre = k → json.unquote_from k (pre ++ t) = json.unquote_from 0 t.
Proof.
  revert k. induction pre as [|c pre IH]; intros k Hk; cbn in Hk; subst k; [done|].
  cbn [app length json.unquote_from]. by apply IH.
Qed.

Lemma valid_pending k pre t :
  length pre = k → utf8.valid_from k (pre ++ t) = utf8.valid_from 0 t.
Proof.
  revert k. induction pre as [|c pre IH]; intros k Hk; cbn in Hk; subst k; [done|].
  cbn [app length utf8.valid_from]. by apply IH.
Qed.

Lemma unquote_nonascii c t :
  128 <= byte_val c →
  json.unquote_from 0 (c :: t)
  = json.emit (utf8.EncodeRune (utf8.DecodeRune (c :: t)).1)
              (json.unquote_from (Nat.pred (utf8.DecodeRune (c :: t)).2) t).
Proof.
  intros Hc. cbn [json.unquote_from]. cbv zeta. unfold utf8.RuneSelf.
  replace (byte_val c =? 34) with false by lia.
  replace (byte_val c =? 92) with false by lia.
  replace (byte_val c <? 32) with false by lia.
  replace (byte_val c <? 128) with false by lia.
  by destruct (utf8.DecodeRune (c :: t)).
Qed.

Lemma unquote_u202x r X :
  (r =? 8232) || (r =? 8233) = true →
  json.unquote_from 0 ((B "\u202" ++ [hex_digit (r mod 16)]) ++ X)
  = json.emit (utf8.EncodeRune r) (json.unquote_from 0 X).
Proof.
  intros [Eu|Eu]%orb_prop; apply Z.eqb_eq in Eu; subst r; reflexivity.
Qed.

Lemma unquote_appendString n s rest :
  (length s ≤ n)%nat → utf8.valid_from 0 s = true →
  json.unquote_from 0 (json.appendString_from 0 true s ++ dquote :: rest) = Some (s, rest).
Proof.
  revert s. induction n as [|n IH]; intros s Hn Hv.
  { destruct s; [reflexivity | cbn in Hn; lia]. }
  destruct s as [|c t]; [reflexivity|]. cbn [length] in Hn.
  cbn [json.appendString_from]. cbn [utf8.valid_from] in Hv. unfold utf8.RuneSelf.
  destruct (byte_val c <? 128) eqn:Ec.
  - (* a byte below 0x80 *)
    assert (Hd : utf8.DecodeRune (c :: t) = (byte_val c, 1%nat)).
    { unfold utf8.DecodeRune. by rewrite Ec. }
    rewrite Hd in Hv. apply andb_prop in Hv as [_ Hv]. cbn [Nat.pred] in Hv.
    rewrite <- app_assoc, unquote_escape_ascii by lia.
    rewrite IH by (done || lia). reflexivity.
  - (* a rune of several bytes *)
    destruct (utf8.DecodeRune (c :: t)) as [r size] eqn:Hd.
    apply andb_prop in Hv as [Hne Hv].
    assert (Hne' : (r, size) ≠ (utf8.RuneError, 1%nat)).
    { intros [= -> ->]. by vm_compute in Hne. }
    destruct (DecodeRune_multibyte c t r size ltac:(lia) Hd Hne')
      as (pre & t' & -> & Hsize & Henc & Hr & Hdec).
    assert (Hpre : length pre = Nat.pred size) by lia.
    rewrite (valid_pending _ _ _ Hpre) in Hv.
    assert (Hlen : (length t' ≤ n)%nat) by (rewrite length_app in Hn; lia).
    destruct ((r =? utf8.RuneError) && (size =? 1)%nat) eqn:Eerr; [done|].
    destruct ((r =? 8232) || (r =? 8233)) eqn:Eu.
    + (* U+2028 and U+2029 are written as escapes *)
      rewrite (appendString_pending _ false _ _ Hpre), app_nil_l.
      rewrite <- (app_assoc (_ ++ [_])), unquote_u202x, IH by (done || lia).
      by rewrite Henc.
    + rewrite (appendString_pending _ true _ _ Hpre). cbn [app]. rewrite <- app_assoc.
      rewrite unquote_nonascii by lia. rewrite Hdec. cbn [fst snd].
      rewrite (unquote_pending _ _ _ Hpre), IH by done. by rewrite Henc.
Qed.

Lemma unquote_quote s rest :
  utf8.ValidString s = true →
  json.unquote_from 0 (tail (json.quote s) ++ rest) = Some (B s, rest).
Proof.
  intros Hv. unfold json.quote. cbn [app tail]. rewrite <- app_assoc. cbn [app].
  by apply (unquote_appendString (length (B s))).
Qed.

(** ** JSON documents *)

(** *** Integers are read back *)

Lemma read_uint_chars u rest :
  delim rest → json.read_uint (json.uint_chars u ++ rest) = (u, rest).
Proof.
  intros Hd. induction u as [|u IH|u IH|u IH|u IH|u IH|u IH|u IH|u IH|u IH|u IH];
    cbn [json.uint_chars app json.read_uint];
    try (change (json.digit_of _) with (Some D0) || change (json.digit_of _) with (Some D1)
         || change (json.digit_of _) with (Some D2) || change (json.digit_of _) with (Some D3)
         || change (json.digit_of _) with (Some D4) || change (json.digit_of _) with (Some D5)
         || change (json.digit_of _) with (Some D6) || change (json.digit_of _) with (Some D7)
         || change (json.digit_of _) with (Some D8) || change (json.digit_of _) with (Some D9));
    try (by rewrite IH).
  destruct rest as [|c rest]; [done|]. cbn [json.read_uint].
  unfold json.digit_of. destruct Hd as [-> | ->]; reflexivity.
Qed.

Lemma to_int_normal n :
  match Z.to_int n with
  | Pos u => unorm u = u
  | Neg u => unorm u = u ∧ u ≠ Nil
  end.
Proof.
  pose proof (DecimalZ.to_of (Z.to_int n)) as H. rewrite DecimalZ.of_to in H.
  destruct (Z.to_int n) as [u|u]; cbn [norm] in H.
  - by injection H.
  - destruct (nzhead u) eqn:E; try discriminate; injection H as H; subst u;
      (split; [|done]); rewrite unorm_nzhead; rewrite E; done.
Qed.

Lemma unorm_fixed_not_Nil u : unorm u = u → u ≠ Nil.
Proof. intros H ->. discriminate. Qed.

Lemma uint_chars_head u rest :
  u ≠ Nil → ∃ c t, json.uint_chars u ++ rest = c :: t ∧ 48 <= byte_val c <= 57.
Proof.
  intros Hu. destruct u; [done|..]; cbn [json.uint_chars app]; eexists _, _;
    (split; [reflexivity|]); vm_compute; split; discriminate.
Qed.

Lemma starts_fraction_delim rest : delim rest → json.starts_fraction rest = false.
Proof.
  destruct rest as [|c rest]; [done|]. unfold json.starts_fraction. intros [-> | ->]; reflexivity.
Qed.

Lemma parse_number_number n rest :
  delim rest → json.parse_number (json.number n ++ rest) = Some (json.JNum n, rest).
Proof.
  intros Hd. unfold json.number. pose proof (to_int_normal n) as Hn.
  pose proof (DecimalZ.of_to n) as Hof.
  destruct (Z.to_int n) as [u|u].
  - destruct (uint_chars_head u rest (unorm_fixed_not_Nil _ Hn)) as (c & t & E & Hc).
    unfold json.parse_number. rewrite E.
    replace (byte_val c =? 45) with false by lia. rewrite <- E.
    rewrite (read_uint_chars _ _ Hd), Hn, (internal_uint_dec_lb u u eq_refl).
    rewrite (starts_fraction_delim _ Hd). cbn [andb negb]. by rewrite Hof.
  - destruct Hn as [Hn _]. unfold json.parse_number. cbn [app].
    change (byte_val "-" =? 45) with true. cbv iota.
    rewrite (read_uint_chars _ _ Hd), Hn, (internal_uint_dec_lb u u eq_refl).
    rewrite (starts_fraction_delim _ Hd). cbn [andb negb]. by rewrite Hof.
Qed.

Lemma number_head n rest :
  ∃ c t, json.number n ++ rest = c :: t ∧ (48 <= byte_val c <= 57 ∨ byte_val c = 45).
Proof.
  unfold json.number. pose proof (to_int_normal n) as Hn.
  destruct (Z.to_int n) as [u|u].
  - destruct (uint_chars_head u rest (unorm_fixed_not_Nil _ Hn)) as (c & t & E & Hc).
    exists c, t. split; [done|]. by left.
  - eexists _, _. split; [reflexivity|]. by right.
Qed.

(** *** A rendered document is parsed back *)

Lemma render_JArr d x xs :
  render d (JArr (x :: xs))
  = "["%char :: newline (S d) ++ render (S d) x ++ render_elems d xs ++ newline d ++ B "]".
Proof.
  cbn [render]. change (B "[" ++ ?x) with ("["%char :: x). do 3 f_equal. f_equal.
  induction xs as [|y ys IH]; [done|].
  cbn [render_elems]. by rewrite IH.
Qed.

Lemma render_JObj d k x xs :
  render d (JObj ((k, x) :: xs))
  = "{"%char :: newline (S d) ++ quote k ++ B ": " ++ render (S d) x
    ++ render_members d xs ++ newline d ++ B "}".
Proof.
  cbn [render]. change (B "{" ++ ?x) with ("{"%char :: x). do 5 f_equal. f_equal.
  induction xs as [|[k' y] ys IH]; [done|].
  cbn [render_members]. by rewrite IH.
Qed.

Lemma skip_ws_blank w c t : blank w → is_ws c = false → skip_ws (w ++ c :: t) = c :: t.
Proof.
  intros Hw Hc. induction Hw as [|a w Ha _ IH]; cbn [app skip_ws]; [by rewrite Hc|].
  by rewrite Ha.
Qed.

Lemma newline_blank d : blank (newline d).
Proof.
  unfold newline. constructor; [reflexivity|].
  induction d as [|d IH]; [constructor|]. cbn. by repeat constructor.
Qed.

Lemma blank_app w1 w2 : blank w1 → blank w2 → blank (w1 ++ w2).
Proof. apply Forall_app_2. Qed.

Lemma render_head d v rest : ∃ c t, render d v ++ rest = c :: t ∧ opens c.
Proof.
  destruct v as [|[]|n|s|[|x xs]|[|[k x] xs]].
  1-3, 5-6, 8: eexists _, _; (split; [reflexivity|]); by vm_compute.
  - destruct (number_head n rest) as (c & t & E & Hc). exists c, t. split; [done|].
    unfold opens, is_ws. destruct Hc; (split; [|lia]);
      repeat (apply orb_false_intro); lia.
  - rewrite render_JArr. eexists _, _; (split; [reflexivity|]); by vm_compute.
  - rewrite render_JObj. eexists _, _; (split; [reflexivity|]); by vm_compute.
Qed.

Lemma parse_value_S f s :
  parse_value (S f) s =
  match skip_ws s with
  | [] => None
  | c :: r =>
    let b := byte_val c in
    if b =? 110 then literal "null" JNull (c :: r)
    else if b =? 116 then literal "true" (JBool true) (c :: r)
    else if b =? 102 then literal "false" (JBool false) (c :: r)
    else if b =? 34 then
      match unquote_from 0 r with
      | Some (str, r') => Some (JStr (S_ str), r')
      | None => None
      end
    else if b =? 91 then
      match skip_ws r with
      | c' :: r' =>
        if byte_val c' =? 93 then Some (JArr [], r')
        else match parse_elems f r with
             | Some (l, r'') => Some (JArr l, r'')
             | None => None
             end
      | [] => None
      end
    else if b =? 123 then
      match skip_ws r with
      | c' :: r' =>
        if byte_val c' =? 125 then Some (JObj [], r')
        else match parse_members f r with
             | Some (l, r'') => Some (JObj l, r'')
             | None => None
             end
      | [] => None
      end
    else parse_number (c :: r)
  end.
Proof. reflexivity. Qed.

Lemma parse_elems_S f s :
  parse_elems (S f) s =
  match parse_value f s with
  | None => None
  | Some (v, r) =>
    match skip_ws r with
    | c :: r' =>
      if byte_val c =? 44 then
        match parse_elems f r' with
        | Some (l, r'') => Some (v :: l, r'')
        | None => None
        end
      else if byte_val c =? 93 then Some ([v], r')
      else None
    | [] => None
    end
  end.
Proof. reflexivity. Qed.

Lemma parse_members_S f s :
  parse_members (S f) s =
  match skip_ws s with
  | q :: r0 =>
    if byte_val q =? 34 then
      match unquote_from 0 r0 with
      | None => None
      | Some (k, r1) =>
        match skip_ws r1 with
        | col :: r2 =>
          if byte_val col =? 58 then
            match parse_value f r2 with
            | None => None
            | Some (v, r3) =>
              match skip_ws r3 with
              | c :: r4 =>
                if byte_val c =? 44 then
                  match parse_members f r4 with
                  | Some (l, r5) => Some ((S_ k, v) :: l, r5)
                  | None => None
                  end
                else if byte_val c =? 125 then Some ([(S_ k, v)], r4)
                else None
              | [] => None
              end
            end
          else None
        | [] => None
        end
      end
    else None
  | [] => None
  end.
Proof. reflexivity. Qed.

Lemma skip_ws_app_blank w s : blank w → skip_ws (w ++ s) = skip_ws s.
Proof. intros Hw. induction Hw as [|a w Ha _ IH]; cbn [app skip_ws]; [done|]. by rewrite Ha. Qed.

Lemma skip_ws_opens c t : opens c → skip_ws (c :: t) = c :: t.
Proof. intros [Hc _]. cbn [skip_ws]. by rewrite Hc. Qed.

Lemma parse_value_blank f w s : blank w → parse_value f (w ++ s) = parse_value f s.
Proof.
  intros Hw. destruct f; [done|]. rewrite !parse_value_S. by rewrite skip_ws_app_blank.
Qed.

Lemma parse_value_quote f r :
  parse_value (S f) (dquote :: r)
  = match unquote_from 0 r with
    | Some (str, r') => Some (JStr (S_ str), r')
    | None => None
    end.
Proof. reflexivity. Qed.

Lemma parse_value_bracket f r :
  parse_value (S f) ("["%char :: r)
  = match skip_ws r with
    | c' :: r' =>
      if byte_val c' =? 93 then Some (JArr [], r')
      else match parse_elems f r with
           | Some (l, r'') => Some (JArr l, r'')
           | None => None
           end
    | [] => None
    end.
Proof. reflexivity. Qed.

Lemma parse_value_brace f r :
  parse_value (S f) ("{"%char :: r)
  = match skip_ws r with
    | c' :: r' =>
      if byte_val c' =? 125 then Some (JObj [], r')
      else match parse_members f r with
           | Some (l, r'') => Some (JObj l, r'')
           | None => None
           end
    | [] => None
    end.
Proof. reflexivity. Qed.

Lemma parse_value_number f c t :
  48 <= byte_val c <= 57 ∨ byte_val c = 45 →
  parse_value (S f) (c :: t) = parse_number (c :: t).
Proof.
  intros Hc. rewrite parse_value_S.
  assert (Hws : is_ws c = false).
  { unfold is_ws. destruct Hc; repeat (apply orb_false_intro); lia. }
  cbn [skip_ws]. rewrite Hws. cbv zeta.
  replace (byte_val c =? 110) with false by lia.
  replace (byte_val c =? 116) with false by lia.
  replace (byte_val c =? 102) with false by lia.
  replace (byte_val c =? 34) with false by lia.
  replace (byte_val c =? 91) with false by lia.
  replace (byte_val c =? 123) with false by lia.
  done.
Qed.

Lemma size_pos v : (1 ≤ nodes v)%nat.
Proof. destruct v; cbn; lia. Qed.

Lemma delim_comma t : delim (B "," ++ t).
Proof. by left. Qed.

Lemma delim_newline d t : delim (newline d ++ t).
Proof. by right. Qed.

Lemma value_ok_step f : value_ok f → elems_ok f → members_ok f → value_ok (S f).
Proof.
  intros IHv IHe IHm v d w rest Hsize Hvalid Hw Hd.
  rewrite parse_value_blank by done.
  destruct v as [|[]|n|s|[|x xs]|[|[k x] xs]].
  - reflexivity.
  - reflexivity.
  - reflexivity.
  - cbn [render]. destruct (number_head n rest) as (c & t & E & Hc).
    rewrite E, parse_value_number by done. rewrite <- E. by apply parse_number_number.
  - cbn [render]. unfold quote. cbn [app]. rewrite parse_value_quote.
    rewrite <- app_assoc. cbn [app].
    rewrite (unquote_appendString (length (B s))) by done. by rewrite S_B.
  - reflexivity.
  - rewrite render_JArr. cbn [app]. rewrite parse_value_bracket.
    rewrite <- !app_assoc.
    destruct (render_head (S d) x
                (render_elems d xs ++ newline d ++ B "]" ++ rest)) as (c & t & E & Hc).
    rewrite skip_ws_app_blank by apply newline_blank. rewrite E, (skip_ws_opens _ _ Hc).
    destruct Hc as (_ & Hc & _). replace (byte_val c =? 93) with false by lia.
    rewrite <- E. rewrite IHe; [done| |done].
    cbn [nodes] in Hsize. unfold size_list. lia.
  - reflexivity.
  - rewrite render_JObj. cbn [app]. rewrite parse_value_brace.
    rewrite <- !app_assoc.
    rewrite skip_ws_app_blank by apply newline_blank.
    unfold quote at 1. cbn [app skip_ws]. change (is_ws dquote) with false. cbv iota.
    change (byte_val dquote =? 125) with false. cbv iota.
    rewrite IHm; [done| |done].
    cbn [nodes] in Hsize. unfold size_members. lia.
Qed.

Lemma elems_ok_step f : value_ok f → elems_ok f → elems_ok (S f).
Proof.
  intros IHv IHe d x xs rest Hsize Hvalid.
  unfold size_list in Hsize. cbn [map list_sum fold_right] in Hsize.
  cbn [forallb] in Hvalid. apply andb_prop in Hvalid as [Hx Hxs].
  rewrite parse_elems_S.
  destruct xs as [|y ys]; cbn [map list_sum fold_right] in Hsize.
  - cbn [render_elems app].
    rewrite IHv; [|lia|done|apply newline_blank|apply delim_newline].
    change (B "]" ++ rest) with ("]"%char :: rest).
    rewrite skip_ws_blank; [reflexivity|apply newline_blank|reflexivity].
  - cbn [render_elems]. rewrite <- !app_assoc.
    rewrite IHv; [|lia|done|apply newline_blank|apply delim_comma].
    change (B "," ++ ?t) with (","%char :: t). cbn [skip_ws].
    change (is_ws ",") with false. cbv iota. change (byte_val "," =? 44) with true. cbv iota.
    rewrite IHe; [done| |done].
    unfold size_list. cbn [map list_sum fold_right] in *. lia.
Qed.

Lemma members_ok_step f : value_ok f → members_ok f → members_ok (S f).
Proof.
  intros IHv IHm d k x xs rest Hsize Hvalid.
  unfold size_members in Hsize. cbn [map list_sum fold_right snd] in Hsize.
  cbn [forallb] in Hvalid. apply andb_prop in Hvalid as [Hx Hxs].
  unfold valid_member in Hx. cbn [fst snd] in Hx. apply andb_prop in Hx as [Hk Hx].
  rewrite parse_members_S.
  rewrite skip_ws_app_blank by apply newline_blank.
  unfold quote at 1. cbn [app skip_ws]. change (is_ws dquote) with false. cbv iota.
  change (byte_val dquote =? 34) with true. cbv iota.
  rewrite <- app_assoc. cbn [app].
  rewrite (unquote_appendString (length (B k))) by done.
  change (B ": " ++ ?t) with (":"%char :: " "%char :: t). cbn [skip_ws].
  change (is_ws ":") with false. cbv iota. change (byte_val ":" =? 58) with true. cbv iota.
  assert (Hsp : blank [" "%char]) by (by repeat constructor).
  rewrite S_B.
  destruct xs as [|[k' y] ys]; cbn [map list_sum fold_right snd] in Hsize.
  - cbn [render_members app].
    pose proof (IHv x (S d) [" "%char] (newline d ++ B "}" ++ rest)
                  ltac:(lia) Hx Hsp (delim_newline _ _)) as Hv.
    cbn [app] in Hv. rewrite Hv.
    change (B "}" ++ rest) with ("}"%char :: rest).
    rewrite skip_ws_blank; [reflexivity|apply newline_blank|reflexivity].
  - cbn [render_members]. rewrite <- !app_assoc.
    match goal with
    | |- context [render (S d) x ++ ?tl] =>
      pose proof (IHv x (S d) [" "%char] tl ltac:(lia) Hx Hsp (delim_comma _)) as Hv
    end.
    cbn [app] in Hv. rewrite Hv.
    change (B "," ++ ?t) with (","%char :: t). cbn [skip_ws].
    change (is_ws ",") with false. cbv iota. change (byte_val "," =? 44) with true. cbv iota.
    rewrite IHm; [done| |done].
    unfold size_members. cbn [map list_sum fold_right snd] in *. lia.
Qed.

Lemma parse_render_fuel f : value_ok f ∧ elems_ok f ∧ members_ok f.
Proof.
  induction f as [|f (IHv & IHe & IHm)].
  - split; [|split].
    + intros v d w rest Hs. pose proof (size_pos v). lia.
    + intros d x xs rest Hs. unfold size_list in Hs. cbn in Hs. lia.
    + intros d k x xs rest Hs. unfold size_members in Hs. cbn in Hs. lia.
  - split; [|split].
    + by apply value_ok_step.
    + by apply elems_ok_step.
    + by apply members_ok_step.
Qed.

Lemma newline_length d : (1 ≤ length (newline d))%nat.
Proof. unfold newline. cbn [length]. lia. Qed.

Lemma size_JArr l : nodes (JArr l) = S (size_list l).
Proof. reflexivity. Qed.
Lemma size_JObj l : nodes (JObj l) = S (size_members l).
Proof. reflexivity. Qed.
Lemma size_list_cons x xs : size_list (x :: xs) = (S (nodes x) + size_list xs)%nat.
Proof. reflexivity. Qed.
Lemma size_members_cons k x xs :
  size_members ((k, x) :: xs) = (S (nodes x) + size_members xs)%nat.
Proof. reflexivity. Qed.

Lemma size_le_render n :
  ∀ v d, (nodes v ≤ n)%nat → (nodes v ≤ length (render d v))%nat.
Proof.
  induction n as [|n IH]; intros v d Hn; [pose proof (size_pos v); lia|].
  destruct v as [|[]|z|s|[|x xs]|[|[k x] xs]].
  1-3, 6, 8: cbn; lia.
  - (* a number has at least one digit *)
    destruct (number_head z []) as (c & t & E & _). rewrite app_nil_r in E.
    cbn [render nodes]. rewrite E. cbn [length]. lia.
  - cbn [render nodes]. unfold quote. rewrite !length_app. cbn [length]. lia.
  - rewrite render_JArr. rewrite size_JArr, size_list_cons in *.
    cbn [length]. rewrite !length_app. cbn [B list_ascii_of_string length].
    pose proof (newline_length (S d)). pose proof (newline_length d).
    assert (Hx : (nodes x ≤ length (render (S d) x))%nat) by (apply IH; lia).
    assert (Hxs : (size_list xs ≤ length (render_elems d xs))%nat).
    { assert (Hb : (size_list xs ≤ n)%nat) by lia.
      clear Hn Hx. induction xs as [|y ys IHys]; [cbn; lia|].
      rewrite size_list_cons in *. cbn [render_elems]. rewrite !length_app.
      pose proof (newline_length (S d)).
      assert (nodes y ≤ length (render (S d) y))%nat by (apply IH; lia).
      assert (size_list ys ≤ length (render_elems d ys))%nat by (apply IHys; lia).
      cbn [length B list_ascii_of_string]. lia. }
    lia.
  - rewrite render_JObj. rewrite size_JObj, size_members_cons in *.
    cbn [length]. rewrite !length_app. cbn [B list_ascii_of_string length].
    pose proof (newline_length (S d)). pose proof (newline_length d).
    assert (Hx : (nodes x ≤ length (render (S d) x))%nat) by (apply IH; lia).
    assert (Hxs : (size_members xs ≤ length (render_members d xs))%nat).
    { assert (Hb : (size_members xs ≤ n)%nat) by lia.
      clear Hn Hx. induction xs as [|[k' y] ys IHys]; [cbn; lia|].
      rewrite size_members_cons in *. cbn [render_members]. rewrite !length_app.
      pose proof (newline_length (S d)).
      assert (nodes y ≤ length (render (S d) y))%nat by (apply IH; lia).
      assert (size_members ys ≤ length (render_members d ys))%nat by (apply IHys; lia).
      cbn [length B list_ascii_of_string]. lia. }
    lia.
Qed.

(** Reading what [MarshalIndent] wrote gives the value back, when its
    strings are well-formed UTF-8. *)
Lemma parse_MarshalIndent v :
  valid_value v = true → parse (MarshalIndent v) = Some v.
Proof.
  intros Hv. unfold parse, MarshalIndent.
  destruct (parse_render_fuel (S (length (render 0 v)))) as [Hok _].
  pose proof (Hok v 0%nat [] [] ) as H. cbn [app] in H. rewrite app_nil_r in H.
  rewrite H; [done| |done|constructor|done].
  pose proof (size_le_render (nodes v) v 0%nat ltac:(lia)). lia.
Qed.

(** ** Saving and loading *)

(** *** The JSON form of a state is decoded to the state *)

Lemma unmarshal_marshal_Agent a : unmarshal_Agent (marshal_Agent a) = Some a.
Proof. destruct a as [? ? ? ? ? ? ? ? [t|]]; reflexivity. Qed.

Lemma unmarshal_marshal_MergeRecord r :
  unmarshal_MergeRecord (marshal_MergeRecord r) = Some r.
Proof. destruct r; reflexivity. Qed.

Lemma unmarshal_marshal_MergeHistory l :
  unmarshal_MergeHistory (Some (JArr (marshal_MergeRecord <$> l))) = Some l.
Proof.
  cbn [unmarshal_MergeHistory]. induction l as [|r l IH]; [done|].
  cbn [fmap list_fmap mapM]. rewrite unmarshal_marshal_MergeRecord. cbn [mbind option_bind].
  cbn [fmap list_fmap] in IH. rewrite IH. done.
Qed.

Lemma decode_encode_member p : decode_member (encode_member p) = Some p.
Proof.
  destruct p as [k a]. unfold decode_member, encode_member, prod_map. cbn [fst snd id].
  by rewrite unmarshal_marshal_Agent.
Qed.

Lemma mapM_decode_encode l : mapM decode_member (encode_member <$> l) = Some l.
Proof.
  induction l as [|p l IH]; [done|].
  cbn [fmap list_fmap mapM] in *. rewrite decode_encode_member. cbn [mbind option_bind].
  by rewrite IH.
Qed.

Lemma mapM_Permutation {A C} (g : A → option C) (l l' : list A) k' :
  l ≡ₚ l' → mapM g l' = Some k' → ∃ k, mapM g l = Some k ∧ k ≡ₚ k'.
Proof.
  intros Hp. revert k'. induction Hp as [|x l l' Hp IH|x y l|l l' l'' Hp1 IH1 Hp2 IH2];
    intros k' Hk'.
  - exists k'. by split.
  - cbn [mapM] in *. destruct (g x) as [c|]; [|done]. cbn [mbind option_bind] in *.
    destruct (mapM g l') as [k1|] eqn:E; [|done]. cbn in Hk'. injection Hk' as <-.
    destruct (IH k1 eq_refl) as (k & -> & Hk). exists (c :: k). split; [done|].
    by constructor.
  - cbn [mapM] in *. destruct (g x) as [c|]; [|by destruct (g y)].
    destruct (g y) as [c'|]; [|done]. cbn [mbind option_bind] in *.
    destruct (mapM g l) as [k1|]; [|done]. cbn in Hk'. injection Hk' as <-.
    exists (c' :: c :: k1). split; [done|]. apply perm_swap.
  - destruct (IH2 k' Hk') as (k2 & Hk2 & Hp2').
    destruct (IH1 k2 Hk2) as (k1 & Hk1 & Hp1').
    exists k1. split; [done|]. by etrans.
Qed.

Lemma foldl_insert_list_to_map (l : list (string * Agent)) (acc : gmap string Agent) :
  NoDup (l.*1) →
  foldl (fun acc p => <[p.1 := p.2]> acc) acc l = list_to_map l ∪ acc.
Proof.
  revert acc. induction l as [|[k a] l IH]; intros acc Hnd.
  - cbn [foldl]. change (list_to_map []) with (∅ : gmap string Agent).
    by rewrite (left_id_L ∅ (∪)).
  - cbn [foldl fst snd]. cbn [fmap list_fmap fst] in Hnd. apply NoDup_cons in Hnd as [Hk Hnd].
    rewrite IH by done. cbn [list_to_map foldr fst snd].
    rewrite <- insert_union_r; [|by apply not_elem_of_list_to_map_1].
    by rewrite insert_union_l.
Qed.

Lemma unmarshal_marshal_Agents m :
  unmarshal_Agents (Some (marshal_Agents m)) = Some (Some m).
Proof.
  unfold unmarshal_Agents, marshal_Agents.
  change (fun p : string * value => a ← unmarshal_Agent p.2; Some (p.1, a)) with decode_member.
  change (prod_map id marshal_Agent <$> map_to_list m) with (encode_member <$> map_to_list m).
  destruct (mapM_Permutation decode_member _ _ _
              (merge_sort_Permutation key_le (encode_member <$> map_to_list m))
              (mapM_decode_encode (map_to_list m))) as (k & -> & Hk).
  cbn [mbind option_bind]. do 2 f_equal.
  assert (Hnd : NoDup (k.*1)) by (rewrite Hk; apply NoDup_fst_map_to_list).
  rewrite foldl_insert_list_to_map by done. rewrite (right_id_L ∅ (∪)).
  rewrite (list_to_map_proper k (map_to_list m)) by done.
  apply list_to_map_to_list.
Qed.

Lemma unmarshal_marshal_State s :
  unmarshal_State (marshal_State s)
  = Some (mkRawState (Version s) (RepoRoot s) (WorktreeDir s) (Some (Agents s))
                     (MergeHistory s)).
Proof.
  unfold unmarshal_State, marshal_State.
  change (field "version" _) with (Some (JStr (Version s))).
  change (field "repoRoot" _) with (Some (JStr (RepoRoot s))).
  change (field "worktreeDir" _) with (Some (JStr (WorktreeDir s))).
  change (field "agents" _) with (Some (marshal_Agents (Agents s))).
  change (field "mergeHistory" _) with (Some (JArr (marshal_MergeRecord <$> MergeHistory s))).
  cbn [dec_string mbind option_bind].
  rewrite unmarshal_marshal_Agents, unmarshal_marshal_MergeHistory. reflexivity.
Qed.

Lemma valid_JObj l : valid_value (JObj l) = forallb valid_member l.
Proof. reflexivity. Qed.
Lemma valid_JArr l : valid_value (JArr l) = forallb valid_value l.
Proof. reflexivity. Qed.
Lemma valid_member_JStr k s :
  valid_member (k, JStr s) = utf8.ValidString k && utf8.ValidString s.
Proof. reflexivity. Qed.
Lemma valid_member_JNum k n : valid_member (k, JNum n) = utf8.ValidString k && true.
Proof. reflexivity. Qed.

Ltac valid_leaves :=
  repeat match goal with
         | H : utf8.ValidString ?x = true |- _ => rewrite H; clear H
         end;
  vm_compute; reflexivity.

Lemma valid_marshal_Agent a : valid_Agent a = true → valid_value (marshal_Agent a) = true.
Proof.
  unfold valid_Agent. intros H. repeat (apply andb_prop in H as [H ?]).
  unfold marshal_Agent. rewrite valid_JObj, forallb_app. cbn [forallb].
  rewrite !valid_member_JStr.
  destruct (MergedAt a) as [t|]; cbn [forallb]; rewrite ?valid_member_JStr; valid_leaves.
Qed.

Lemma valid_marshal_MergeRecord r :
  valid_MergeRecord r = true → valid_value (marshal_MergeRecord r) = true.
Proof.
  unfold valid_MergeRecord. intros H. repeat (apply andb_prop in H as [H ?]).
  unfold marshal_MergeRecord. rewrite valid_JObj. cbn [forallb].
  rewrite !valid_member_JStr, !valid_member_JNum. valid_leaves.
Qed.

Lemma valid_marshal_Agents m :
  forallb valid_entry (map_to_list m) = true → valid_value (marshal_Agents m) = true.
Proof.
  intros H. unfold marshal_Agents. rewrite valid_JObj.
  rewrite forallb_forall in H |- *. intros [k v] Hin.
  apply (Permutation_in _ (merge_sort_Permutation key_le _)) in Hin.
  apply list_elem_of_In, list_elem_of_fmap in Hin as ([k' a] & [= -> ->] & Hin).
  apply list_elem_of_In, H in Hin. unfold valid_entry in Hin. cbn [fst snd id] in *.
  apply andb_prop in Hin as [Hk Ha]. unfold valid_member. cbn [fst snd].
  rewrite Hk. cbn [andb]. by apply valid_marshal_Agent.
Qed.

Lemma valid_marshal_MergeHistory l :
  forallb valid_MergeRecord l = true →
  forallb valid_value (marshal_MergeRecord <$> l) = true.
Proof.
  intros H. rewrite forallb_forall in *. intros v Hin.
  apply list_elem_of_In, list_elem_of_fmap in Hin as (r & -> & Hin).
  apply valid_marshal_MergeRecord. apply H. by apply list_elem_of_In.
Qed.

Lemma valid_marshal_State s : valid_State s = true → valid_value (marshal_State s) = true.
Proof.
  unfold valid_State. intros H. repeat (apply andb_prop in H as [H ?]).
  unfold marshal_State. rewrite valid_JObj. cbn [forallb].
  rewrite !valid_member_JStr. unfold valid_member. cbn [fst snd].
  rewrite valid_JArr, valid_marshal_Agents, valid_marshal_MergeHistory by done.
  valid_leaves.
Qed.

Lemma json_Unmarshal_MarshalIndent s :
  valid_State s = true →
  json_Unmarshal (json_MarshalIndent s)
  = Ok (mkRawState (Version s) (RepoRoot s) (WorktreeDir s) (Some (Agents s)) (MergeHistory s)).
Proof.
  intros Hv. unfold json_Unmarshal, json_MarshalIndent.
  rewrite parse_MarshalIndent by (by apply valid_marshal_State).
  by rewrite unmarshal_marshal_State.
Qed.

Lemma Save_ok_inv s io fs fs' :
  Save s io fs = (fs', None) →
  files fs' !! StateFilePath (RepoRoot s) = Some (json_MarshalIndent s).
Proof.
  rewrite Save_run. destruct (mkdir_fault io); [by intros [=]|].
  destruct (write_result io); intros [= <-]. unfold written. cbn [files].
  apply lookup_insert_eq.
Qed.




(** * More of the code

    Properties read off the source of the rest of the state store and of
    the manager, of the session and its registry, and of the terminal
    interface. *)

#[local] Set Warnings "-clear-no-such-hyp".

(** ** Listing the agents *)

Lemma foldl_snoc_filter {A C} (keep : A → bool) (g : A → C) (l : list A) (acc : list C) :
  foldl (fun acc x => if keep x then acc ++ [g x] else acc) acc l
  = acc ++ (g <$> List.filter keep l).
Proof.
  revert acc. induction l as [|x l IH]; intros acc; cbn [foldl List.filter].
  - by rewrite app_nil_r.
  - rewrite IH. destruct (keep x); [|done]. cbn [fmap list_fmap]. by rewrite <- app_assoc.
Qed.

Lemma List_filter_Permutation {A} (keep : A → bool) (l l' : list A) :
  l ≡ₚ l' → List.filter keep l ≡ₚ List.filter keep l'.
Proof.
  induction 1 as [|x l l' _ IH|x y l|l l' l'' _ IH1 _ IH2]; cbn [List.filter].
  - done.
  - destruct (keep x); [by constructor | done].
  - destruct (keep x), (keep y); try done. apply perm_swap.
  - by etrans.
Qed.

Lemma ListAgents_eq visit : ListAgents visit = visit.*2.
Proof.
  unfold ListAgents.
  rewrite (foldl_snoc_filter (fun _ => true) snd visit []). cbn [app].
  f_equal. induction visit as [|x l IH]; [done|]. cbn. by rewrite IH.
Qed.

Lemma ListByStatus_eq status visit :
  ListByStatus status visit = List.filter (has_status status) (ListAgents visit).
Proof.
  unfold ListByStatus. rewrite ListAgents_eq.
  rewrite (foldl_snoc_filter (fun p => String.eqb (Status p.2) status) snd visit []).
  cbn [app]. unfold has_status.
  induction visit as [|x l IH]; [done|]. cbn [List.filter fmap list_fmap].
  destruct (String.eqb (Status x.2) status); cbn [fmap list_fmap]; by rewrite IH.
Qed.

Lemma visits_values (s : State) visit a :
  visits (Agents s) visit → a ∈ visit.*2 ↔ ∃ id, GetAgent s id = Some a.
Proof.
  intros Hv. unfold visits in Hv. rewrite Hv. unfold GetAgent. split.
  - intros ([id a'] & -> & Hin)%list_elem_of_fmap. exists id. by apply elem_of_map_to_list.
  - intros [id Hid]. apply list_elem_of_fmap. exists (id, a). split; [done|].
    by apply elem_of_map_to_list.
Qed.

(** Extra X1. [ListAgents] returns every agent of the state exactly once. Whatever
    the order in which the map is visited, the list is a permutation of the
    values of the agent map, it is as long as the map has entries, and an
    agent is in it exactly when some ID is tracked with it. *)
Theorem ListAgents_lists_every_agent_once (s : State) (visit : list (string * Agent)) :
  visits (Agents s) visit →
  ListAgents visit ≡ₚ (map_to_list (Agents s)).*2
  ∧ length (ListAgents visit) = size (Agents s)
  ∧ ∀ a, a ∈ ListAgents visit ↔ ∃ id, GetAgent s id = Some a.
Proof.
  intros Hv. rewrite ListAgents_eq. split; [|split].
  - unfold visits in Hv. by rewrite Hv.
  - unfold visits in Hv. by rewrite length_fmap, Hv, length_map_to_list.
  - intros a. by apply visits_values.
Qed.

Lemma ListAgents_lists_every_agent_once_witness :
  let visit := [("b", merged_agent); ("a", sample_agent)]%string in
  let s := mkState "1.0" "/r" ".cwt/worktrees"
             (<["a"%string := sample_agent]> (<["b"%string := merged_agent]> ∅)) [] in
  ListAgents visit ≡ₚ (map_to_list (Agents s)).*2
  ∧ length (ListAgents visit) = size (Agents s)
  ∧ ∀ a, a ∈ ListAgents visit ↔ ∃ id, GetAgent s id = Some a.
Proof.
  refine (ListAgents_lists_every_agent_once _ _ _).
  unfold visits. cbn [Agents].
  rewrite (map_to_list_insert _ "a"%string) by done.
  rewrite (map_to_list_insert _ "b"%string), map_to_list_empty by done.
  apply perm_swap.
Defined.

(** Extra X2. [ListByStatus] returns the agents of [ListAgents] that have the
    status, in the same order. Up to the visiting order these are the values
    of the agent map with that status: an agent is listed exactly when it is
    tracked and has the status, and the list is empty when no tracked agent
    has it. *)
Theorem ListByStatus_lists_the_agents_with_the_status
    (s : State) (status : AgentStatus) (visit : list (string * Agent)) :
  visits (Agents s) visit →
  ListByStatus status visit = List.filter (has_status status) (ListAgents visit)
  ∧ ListByStatus status visit
    ≡ₚ List.filter (has_status status) (map_to_list (Agents s)).*2
  ∧ (∀ a, a ∈ ListByStatus status visit
          ↔ (∃ id, GetAgent s id = Some a) ∧ Status a = status)
  ∧ ((∀ id a, GetAgent s id = Some a → Status a ≠ status)
     → ListByStatus status visit = []).
Proof.
  intros Hv. split; [apply ListByStatus_eq|]. rewrite ListByStatus_eq, ListAgents_eq.
  assert (Hmem : ∀ a, a ∈ List.filter (has_status status) visit.*2
                      ↔ (∃ id, GetAgent s id = Some a) ∧ Status a = status).
  { intros a. rewrite list_elem_of_In, List.filter_In, <- list_elem_of_In.
    rewrite (visits_values s visit a Hv). unfold has_status.
    by rewrite String.eqb_eq. }
  split; [|split].
  - unfold visits in Hv. apply List_filter_Permutation. by rewrite Hv.
  - exact Hmem.
  - intros Hnone. destruct (List.filter _ _) as [|a l] eqn:E; [done|].
    assert (Ha : a ∈ a :: l) by left.
    apply Hmem in Ha as [[id Hid] Hst]. by destruct (Hnone id a Hid).
Qed.

Lemma ListByStatus_lists_the_agents_with_the_status_witness :
  let visit := [("b", merged_agent); ("a", sample_agent)]%string in
  ListByStatus StatusRunning visit = [sample_agent].
Proof.
  pose (s := mkState "1.0" "/r" ".cwt/worktrees"
               (<["a"%string := sample_agent]> (<["b"%string := merged_agent]> ∅)) []).
  assert (Hv : visits (Agents s) [("b", merged_agent); ("a", sample_agent)]%string).
  { unfold visits. cbn [Agents s].
    rewrite (map_to_list_insert _ "a"%string) by done.
    rewrite (map_to_list_insert _ "b"%string), map_to_list_empty by done.
    apply perm_swap. }
  exact (eq_trans (proj1 (ListByStatus_lists_the_agents_with_the_status s StatusRunning _ Hv))
                  eq_refl).
Defined.

(** ** The agents of a state *)

(** Extra X3. The agents of a state are a map keyed by ID. An added agent is found
    under its own ID, and adding leaves every other ID alone; a removed ID is
    not found, and removing leaves every other ID alone; removing an agent
    just added to a state that did not track its ID gives the state back;
    removing an untracked ID changes nothing; and adding an agent twice is
    adding it once. *)
Theorem agent_store_laws (s : State) (a : Agent) (id : string) :
  GetAgent (AddAgent s a) (ID a) = Some a
  ∧ (id ≠ ID a → GetAgent (AddAgent s a) id = GetAgent s id)
  ∧ GetAgent (RemoveAgent s id) id = None
  ∧ (∀ id', id' ≠ id → GetAgent (RemoveAgent s id) id' = GetAgent s id')
  ∧ (GetAgent s (ID a) = None → RemoveAgent (AddAgent s a) (ID a) = s)
  ∧ (GetAgent s id = None → RemoveAgent s id = s)
  ∧ AddAgent (AddAgent s a) a = AddAgent s a.
Proof.
  unfold GetAgent, AddAgent, RemoveAgent. cbn [Agents Version RepoRoot WorktreeDir MergeHistory].
  split; [apply lookup_insert_eq|]. split; [intros Hne; by apply lookup_insert_ne|].
  split; [apply lookup_delete_eq|]. split; [intros id' Hne; by apply lookup_delete_ne|].
  split; [|split].
  - intros Hnone. rewrite delete_insert_eq, delete_id by done. by destruct s.
  - intros Hnone. rewrite delete_id by done. by destruct s.
  - by rewrite insert_insert_eq.
Qed.

(** ** Starting the manager *)

Lemma os_Stat_exists fs name : path_exists fs name → os_Stat None name fs = None.
Proof.
  intros [Hd|[data Hf]]; unfold os_Stat.
  - by rewrite decide_True.
  - rewrite Hf. by case_decide.
Qed.

Lemma os_Stat_missing fault fs name :
  ¬ path_exists fs name → os_Stat fault name fs = Some (ENOENT name).
Proof.
  intros Hn. unfold os_Stat. rewrite decide_False by (intros H; apply Hn; by left).
  destruct (files fs !! name) eqn:E; [|done]. destruct Hn. right. by eexists.
Qed.

Lemma LoadState_persisted s root fs :
  files fs !! StateFilePath root = Some (json_MarshalIndent s) →
  valid_State s = true →
  LoadState None root fs = Ok s.
Proof.
  intros Hf Hv. unfold LoadState, os_ReadFile.
  rewrite Hf, (json_Unmarshal_MarshalIndent _ Hv). clear Hf Hv.
  cbn [raw_Version raw_RepoRoot raw_WorktreeDir raw_Agents raw_MergeHistory default].
  by destruct s.
Qed.

Lemma NewManager_persisted (sys : Sys) :
  persisted sys →
  RepoRoot (state (manager sys)) = repoRoot (manager sys) →
  valid_State (state (manager sys)) = true →
  path_exists (disk sys) (filepath_Join [repoRoot (manager sys); ".git"]%string) →
  NewManager None None (repoRoot (manager sys)) (disk sys) = Ok (manager sys).
Proof.
  unfold persisted. destruct sys as [[root s] fs tr]. cbn [manager state repoRoot disk].
  intros Hp Hroot Hv Hgit. unfold NewManager. rewrite (os_Stat_exists _ _ Hgit).
  rewrite Hroot in Hp. rewrite (LoadState_persisted s root fs Hp Hv). clear Hp Hv Hgit.
  destruct s as [v r w ags h]. cbn [RepoRoot Version WorktreeDir Agents MergeHistory] in *.
  by rewrite Hroot.
Qed.

(** Extra X4. The outcomes of [NewManager]. At a root without [.git] it fails with
    not a git repository; an error of [os.Stat] other than not-exist is
    ignored; without a state file the manager starts from the empty state of
    the root; an error of [LoadState] is returned wrapped; and a manager that
    is returned has the root it was asked for, also as the root of its
    state, whatever root the state file names, and otherwise the state that
    was loaded. *)
Theorem NewManager_outcomes (stat_fault read_fault : option error) (root : string) (fs : FS) :
  let dot_git := filepath_Join [root; ".git"]%string in
  (¬ path_exists fs dot_git →
   NewManager stat_fault read_fault root fs
   = Err (Errorf ("not a git repository: " +:+ root) None))
  ∧ (∀ e, path_exists fs dot_git → os_IsNotExist e = false →
     NewManager (Some e) read_fault root fs = NewManager None read_fault root fs)
  ∧ (path_exists fs dot_git → files fs !! StateFilePath root = None →
     NewManager None read_fault root fs = Ok (mkManager root (NewState root)))
  ∧ (∀ e, path_exists fs dot_git → LoadState read_fault root fs = Err e →
     NewManager None read_fault root fs = Err (Errorf "failed to load state" (Some e)))
  ∧ (∀ m, NewManager stat_fault read_fault root fs = Ok m →
     repoRoot m = root ∧ RepoRoot (state m) = root
     ∧ ∃ s, LoadState read_fault root fs = Ok s
            ∧ state m = mkState (Version s) root (WorktreeDir s) (Agents s) (MergeHistory s)).
Proof.
  cbv zeta. unfold NewManager. split; [|split; [|split; [|split]]].
  - intros Hn. by rewrite (os_Stat_missing _ _ _ Hn).
  - intros e Hex He. rewrite (os_Stat_exists _ _ Hex).
    assert (Hs : os_Stat (Some e) (filepath_Join [root; ".git"]%string) fs = Some e).
    { unfold os_Stat. destruct Hex as [Hd|[data Hf]].
      - by rewrite decide_True.
      - rewrite Hf. by case_decide. }
    by rewrite Hs, He.
  - intros Hex Hf. rewrite (os_Stat_exists _ _ Hex). unfold LoadState, os_ReadFile.
    by rewrite Hf.
  - intros e Hex He. by rewrite (os_Stat_exists _ _ Hex), He.
  - intros m. destruct (match os_Stat _ _ _ with Some err => os_IsNotExist err | None => false end);
      [done|].
    destruct (LoadState read_fault root fs) as [s|e]; [|done]. intros [= <-].
    cbn [repoRoot state RepoRoot]. split; [done|]. split; [done|]. by exists s.
Qed.

(** ** Creating a worktree *)

Lemma CreateWorktree_run tbl env task sys :
  let root := repoRoot (manager sys) in
  let a := new_agent tbl env task sys in
  let s1 := AddAgent (state (manager sys)) a in
  let sv := Save s1 (save_io env 0) (disk sys) in
  CreateWorktree tbl env task sys =
  match (git_answer env branch_args).2 with
  | Some e =>
    (Err (Errorf "failed to get current branch" (Some e)),
     mkSys (manager sys) (disk sys) (trace sys ++ [EvGit root branch_args]))
  | None =>
    match (git_answer env commit_args).2 with
    | Some e =>
      (Err (Errorf "failed to get current commit" (Some e)),
       mkSys (manager sys) (disk sys)
             (trace sys ++ [EvGit root branch_args; EvGit root commit_args]))
    | None =>
      match (git_answer env (add_args a)).2 with
      | Some e =>
        (Err (Errorf "failed to create worktree" (Some e)),
         mkSys (manager sys) (disk sys)
               (trace sys ++ [EvGit root branch_args; EvGit root commit_args;
                              EvGit root (add_args a)]))
      | None =>
        match sv.2 with
        | Some e =>
          (Err (Errorf "failed to save state" (Some e)),
           mkSys (mkManager root s1) sv.1
                 (trace sys ++ [EvGit root branch_args; EvGit root commit_args;
                                EvGit root (add_args a); EvSave s1 (Some e);
                                EvGit root ["worktree"; "remove"; Worktree a]%string;
                                EvGit root ["branch"; "-D"; Branch a]%string]))
        | None =>
          (Ok a,
           mkSys (mkManager root s1) sv.1
                 (trace sys ++ [EvGit root branch_args; EvGit root commit_args;
                                EvGit root (add_args a); EvSave s1 None]))
        end
      end
    end
  end.
Proof.
  cbv zeta. unfold CreateWorktree, new_agent, branch_args, commit_args, add_args.
  cbn [Branch Worktree]. run. destruct sys as [[root s] fs tr].
  cbn [manager disk trace state repoRoot].
  destruct (git_answer env ["rev-parse"; "--abbrev-ref"; "HEAD"]%string) as [o1 [e1|]];
    cbn [fst snd]; [done|].
  destruct (git_answer env ["rev-parse"; "HEAD"]%string) as [o2 [e2|]]; cbn [fst snd];
    [by norm|].
  destruct (git_answer env ["worktree"; "add"; _; _; _]%string) as [o3 [e3|]]; cbn [fst snd];
    [by norm|].
  norm. destruct (Save _ _ _) as [fs1 [e|]]; cbn [fst snd]; by norm.
Qed.

Lemma UpdateAgentStatus_untracked env id st sys :
  GetAgent (state (manager sys)) id = None →
  UpdateAgentStatus env id st sys = (Some (not_found id), sys).
Proof. intros Ha. unfold UpdateAgentStatus. run. rewrite Ha. by destruct sys. Qed.

Lemma CreateWorktree_header tbl env task sys :
  header (CreateWorktree tbl env task sys).2 = header sys.
Proof.
  rewrite CreateWorktree_run. cbv zeta.
  destruct (git_answer env branch_args).2; [done|].
  destruct (git_answer env commit_args).2; [done|].
  destruct (git_answer env (add_args _)).2; [done|].
  destruct (Save _ _ _).2; reflexivity.
Qed.

Lemma RemoveWorktree_header env id sys : header (RemoveWorktree env id sys).2 = header sys.
Proof.
  destruct (GetAgent (state (manager sys)) id) as [a|] eqn:Ha.
  - by rewrite (RemoveWorktree_run _ _ _ _ Ha).
  - by rewrite (RemoveWorktree_untracked _ _ _ Ha).
Qed.

Lemma UpdateAgentStatus_header env id status sys :
  header (UpdateAgentStatus env id status sys).2 = header sys.
Proof.
  destruct (GetAgent (state (manager sys)) id) as [a|] eqn:Ha.
  - by rewrite (UpdateAgentStatus_run _ _ _ _ _ Ha).
  - by rewrite (UpdateAgentStatus_untracked _ _ _ _ Ha).
Qed.

Lemma Merge_header env id sys : header (Merge env id sys).2 = header sys.
Proof.
  destruct (GetAgent (state (manager sys)) id) as [a|] eqn:Ha.
  - rewrite (Merge_run _ _ _ _ Ha). cbv zeta.
    destruct (git_answer env (checkout_args a)).2; [done|].
    by destruct (git_answer env (merge_args a)).2.
  - by rewrite (Merge_untracked _ _ _ Ha).
Qed.

(** Extra X5. No operation of the manager ([CreateWorktree], [RemoveWorktree],
    [UpdateAgentStatus], [Merge]), whether it succeeds or fails, changes the
    root of the manager or the version, the root, the worktree directory and
    the merge history of its state. *)
Theorem operations_keep_the_header
    (tbl : Z → Z) (env : Env) (id : string) (status : AgentStatus) (task : string) (sys : Sys) :
  header (CreateWorktree tbl env task sys).2 = header sys
  ∧ header (RemoveWorktree env id sys).2 = header sys
  ∧ header (UpdateAgentStatus env id status sys).2 = header sys
  ∧ header (Merge env id sys).2 = header sys.
Proof.
  split; [apply CreateWorktree_header|]. split; [apply RemoveWorktree_header|].
  split; [apply UpdateAgentStatus_header | apply Merge_header].
Qed.

Lemma Save_persisted root s io fs tr :
  (Save s io fs).2 = None → persisted (mkSys (mkManager root s) (Save s io fs).1 tr).
Proof.
  intros Hs. unfold persisted. cbn [manager state disk].
  apply (Save_ok_inv s io fs). by destruct (Save s io fs) as [fs' [e|]].
Qed.

Lemma CreateWorktree_persisted tbl env task sys a :
  (CreateWorktree tbl env task sys).1 = Ok a → persisted (CreateWorktree tbl env task sys).2.
Proof.
  rewrite CreateWorktree_run. cbv zeta.
  destruct (git_answer env branch_args).2; [done|].
  destruct (git_answer env commit_args).2; [done|].
  destruct (git_answer env (add_args _)).2; [done|].
  destruct (Save _ _ _).2 eqn:E; [done|]. intros _. cbn [snd]. by apply Save_persisted.
Qed.

Lemma RemoveWorktree_persisted env id sys :
  (RemoveWorktree env id sys).1 = None → persisted (RemoveWorktree env id sys).2.
Proof.
  destruct (GetAgent (state (manager sys)) id) as [a|] eqn:Ha.
  - rewrite (RemoveWorktree_run _ _ _ _ Ha). cbv zeta. cbn [fst snd]. apply Save_persisted.
  - by rewrite (RemoveWorktree_untracked _ _ _ Ha).
Qed.

Lemma UpdateAgentStatus_persisted env id status sys :
  (UpdateAgentStatus env id status sys).1 = None
  → persisted (UpdateAgentStatus env id status sys).2.
Proof.
  destruct (GetAgent (state (manager sys)) id) as [a|] eqn:Ha.
  - rewrite (UpdateAgentStatus_run _ _ _ _ _ Ha). cbv zeta. cbn [fst snd].
    apply Save_persisted.
  - by rewrite (UpdateAgentStatus_untracked _ _ _ _ Ha).
Qed.

Lemma Merge_persisted env id sys :
  (Merge env id sys).1 = None → persisted (Merge env id sys).2.
Proof.
  destruct (GetAgent (state (manager sys)) id) as [a|] eqn:Ha.
  - rewrite (Merge_run _ _ _ _ Ha). cbv zeta.
    destruct (git_answer env (checkout_args a)).2; [done|].
    destruct (git_answer env (merge_args a)).2; [done|]. cbn [fst snd].
    apply Save_persisted.
  - by rewrite (Merge_untracked _ _ _ Ha).
Qed.

(** Extra X6. When one of the four operations returns without an error, the state
    file holds the serialized state that the manager has in memory. *)
Theorem successful_operations_are_persisted
    (tbl : Z → Z) (env : Env) (id : string) (status : AgentStatus) (task : string) (sys : Sys) :
  (∀ a, (CreateWorktree tbl env task sys).1 = Ok a
        → persisted (CreateWorktree tbl env task sys).2)
  ∧ ((RemoveWorktree env id sys).1 = None → persisted (RemoveWorktree env id sys).2)
  ∧ ((UpdateAgentStatus env id status sys).1 = None
     → persisted (UpdateAgentStatus env id status sys).2)
  ∧ ((Merge env id sys).1 = None → persisted (Merge env id sys).2).
Proof.
  split; [apply CreateWorktree_persisted|]. split; [apply RemoveWorktree_persisted|].
  split; [apply UpdateAgentStatus_persisted | apply Merge_persisted].
Qed.

(** Extra X7. When the git commands of [CreateWorktree] succeed and saving fails,
    it returns the error failed to save state and asks git to remove the
    worktree and to delete the branch, but the new agent stays in the state
    in memory: the next operation that succeeds writes it to the state file. *)
Theorem CreateWorktree_save_failure_keeps_the_agent
    (tbl : Z → Z) (env : Env) (task : string) (sys : Sys) (e : error) :
  let a := new_agent tbl env task sys in
  let r := CreateWorktree tbl env task sys in
  (git_answer env branch_args).2 = None →
  (git_answer env commit_args).2 = None →
  (git_answer env (add_args a)).2 = None →
  (Save (AddAgent (state (manager sys)) a) (save_io env 0) (disk sys)).2 = Some e →
  r.1 = Err (Errorf "failed to save state" (Some e))
  ∧ GetAgent (state (manager r.2)) (ID a) = Some a
  ∧ (∃ before, trace r.2
       = before ++ [EvGit (repoRoot (manager sys)) ["worktree"; "remove"; Worktree a]%string;
                    EvGit (repoRoot (manager sys)) ["branch"; "-D"; Branch a]%string])
  ∧ ∀ env' id status,
      let r' := UpdateAgentStatus env' id status r.2 in
      r'.1 = None →
      is_Some (GetAgent (state (manager r'.2)) (ID a)) ∧ persisted r'.2.
Proof.
  cbv zeta. intros H1 H2 H3 Hs. rewrite CreateWorktree_run. cbv zeta.
  rewrite H1, H2, H3, Hs. cbn [fst snd manager state].
  set (a := new_agent tbl env task sys) in *.
  assert (Ha : GetAgent (AddAgent (state (manager sys)) a) (ID a) = Some a).
  { unfold GetAgent, AddAgent. cbn [Agents]. apply lookup_insert_eq. }
  split; [done|]. split; [done|]. split.
  { eexists (trace sys ++ [_; _; _; _]). rewrite <- app_assoc. reflexivity. }
  intros env' id status.
  set (sys1 := mkSys _ _ _).
  destruct (GetAgent (state (manager sys1)) id) as [b|] eqn:Hb.
  - rewrite (UpdateAgentStatus_run _ _ _ _ _ Hb). cbv zeta. cbn [fst snd manager state].
    intros Hok. split; [|by apply Save_persisted].
    unfold GetAgent, set_agent. cbn [Agents].
    destruct (decide (id = ID a)) as [->|Hne].
    + rewrite lookup_insert_eq. by eexists.
    + rewrite lookup_insert_ne by done. by eexists.
  - by rewrite (UpdateAgentStatus_untracked _ _ _ _ Hb).
Qed.

Lemma CreateWorktree_save_failure_keeps_the_agent_witness :
  GetAgent (state (manager (CreateWorktree no_case_table full_disk_env "Add auth" empty_sys).2))
           "cwt-20250104-a1b2"
  = Some (new_agent no_case_table full_disk_env "Add auth" empty_sys).
Proof.
  exact (proj1 (proj2 (CreateWorktree_save_failure_keeps_the_agent
                         no_case_table full_disk_env "Add auth" empty_sys
                         (EOther "open" "/r/.cwt/state.json")
                         eq_refl eq_refl eq_refl eq_refl))).
Defined.



(** ** The names CreateWorktree makes *)

Lemma B_append s t : B (s +:+ t) = B s ++ B t.
Proof.
  unfold B. induction s as [|c s IH]; [done|].
  change (String c s +:+ t) with (String c (s +:+ t)). cbn. by rewrite IH.
Qed.

Lemma append_inv_head s t t' : s +:+ t = s +:+ t' → t = t'.
Proof.
  induction s as [|c s IH]; [done|].
  change (String c s +:+ ?x) with (String c (s +:+ x)). intros [= H]. by apply IH.
Qed.

Lemma hex_pair_chars c :
  Forall (fun d => is_lower_alnum (byte_val d) = true)
         [hex_digit (byte_val c / 16); hex_digit (byte_val c mod 16)].
Proof.
  destruct c as [b0 b1 b2 b3 b4 b5 b6 b7].
  destruct b0, b1, b2, b3, b4, b5, b6, b7; by repeat constructor.
Qed.

Lemma hex_pair_inj c d :
  [hex_digit (byte_val c / 16); hex_digit (byte_val c mod 16)]
  = [hex_digit (byte_val d / 16); hex_digit (byte_val d mod 16)] → c = d.
Proof.
  assert (Hhex : ∀ x y, 0 <= x < 16 → 0 <= y < 16 → hex_digit x = hex_digit y → x = y).
  { intros x y Hx Hy H. apply (f_equal byte_val) in H. unfold hex_digit in H.
    destruct (x <? 10) eqn:Ex, (y <? 10) eqn:Ey; rewrite !byte_val_of in H; lia. }
  intros [= H1 H2]. apply byte_val_inj.
  pose proof (byte_val_range c). pose proof (byte_val_range d).
  assert (Hq : ∀ v, 0 <= v < 256 → 0 <= v / 16 < 16).
  { intros v Hv. split; [apply Z.div_pos; lia | apply Z.div_lt_upper_bound; lia]. }
  apply Hhex in H1; [|by apply Hq..].
  apply Hhex in H2; [|apply Z.mod_pos_bound; lia..].
  rewrite (Z.div_mod (byte_val c) 16), (Z.div_mod (byte_val d) 16) by lia. lia.
Qed.

Lemma generateID_shape now rnd :
  ∃ suffix, generateID now rnd = "cwt-" +:+ Format_20060102 now +:+ "-" +:+ S_ suffix
            ∧ length suffix = 4%nat
            ∧ Forall (fun c => is_lower_alnum (byte_val c) = true) suffix.
Proof.
  eexists. unfold generateID. cbv zeta. split; [reflexivity|].
  cbn [hex_EncodeToString flat_map app]. split; [done|].
  pose proof (hex_pair_chars rnd.1) as Ha. pose proof (hex_pair_chars rnd.2) as Hb.
  apply Forall_cons in Ha as [Ha1 Ha2]. apply Forall_cons in Ha2 as [Ha2 _].
  apply Forall_cons in Hb as [Hb1 Hb2]. apply Forall_cons in Hb2 as [Hb2 _].
  by repeat constructor.
Qed.

(** Extra X9. Two IDs generated at the same time are equal exactly when the two
    random bytes are equal. An ID is cwt-, the date, a dash and four
    characters that are digits or lower-case letters (the hexadecimal form of
    the two bytes). *)
Theorem generateID_collides_only_on_equal_random_bytes
    (now : Time) (rnd rnd' : ascii * ascii) :
  (generateID now rnd = generateID now rnd' ↔ rnd = rnd')
  ∧ ∃ suffix, generateID now rnd = "cwt-" +:+ Format_20060102 now +:+ "-" +:+ S_ suffix
              ∧ length suffix = 4%nat
              ∧ Forall (fun c => is_lower_alnum (byte_val c) = true) suffix.
Proof.
  split; [|apply generateID_shape].
  split; [|by intros ->]. unfold generateID. cbv zeta.
  intros H. do 3 apply append_inv_head in H.
  apply (f_equal B) in H. rewrite !B_S_ in H. destruct rnd as [a b], rnd' as [a' b'].
  cbn [hex_EncodeToString flat_map fst snd app] in H.
  injection H as H1 H2 H3 H4.
  f_equal; apply hex_pair_inj; congruence.
Qed.

Lemma slugify_chars tbl task : Forall (fun c => slug_char c = true) (B (slugify tbl task)).
Proof.
  rewrite slugify_take. apply Forall_take. unfold slug_untruncated, ReplaceAllString_dash.
  set (rs := utf8.runes (strings_ToLower tbl (B task))).
  destruct (strings_Trim_dash_split (replace_runs false rs)) as (d1 & d2 & _ & _ & E).
  pose proof (replace_runs_chars false rs) as H. rewrite E in H.
  apply Forall_app in H as [_ H]. by apply Forall_app in H as [H _].
Qed.

Lemma CreateWorktree_Ok tbl env task sys a :
  (CreateWorktree tbl env task sys).1 = Ok a → a = new_agent tbl env task sys.
Proof.
  rewrite CreateWorktree_run. cbv zeta.
  destruct (git_answer env branch_args).2; [done|].
  destruct (git_answer env commit_args).2; [done|].
  destruct (git_answer env (add_args _)).2; [done|].
  destruct (Save _ _ _).2; [done|]. by intros [= <-].
Qed.


Lemma sample_creation :
  (CreateWorktree no_case_table sample_env "Add auth" empty_sys).1 = Ok first_agent.
Proof. vm_compute. reflexivity. Qed.


(** Extra X11. The slug of a task is empty exactly when the lower-cased task has no
    ASCII letter or digit. The branch of the new agent is cwt/ID/slug, so for
    such a task it ends in a slash, and that is the branch name handed to
    git worktree add. *)
Theorem slug_of_a_task_without_letters_or_digits
    (tbl : Z → Z) (env : Env) (task : string) (sys : Sys) :
  let lowered := utf8.runes (strings_ToLower tbl (B task)) in
  let id := generateID (clock env 0) (random env) in
  (slugify tbl task = EmptyString ↔ List.filter is_lower_alnum lowered = [])
  ∧ Branch (new_agent tbl env task sys) = "cwt/" +:+ id +:+ "/" +:+ slugify tbl task
  ∧ (List.filter is_lower_alnum lowered = []
     → add_args (new_agent tbl env task sys)
       = ["worktree"; "add"; "-b"; "cwt/" +:+ id +:+ "/";
          Worktree (new_agent tbl env task sys)]%string).
Proof.
  cbv zeta.
  set (rs := utf8.runes (strings_ToLower tbl (B task))).
  set (full := slug_untruncated tbl (B task)).
  assert (Hcontent : List.filter not_dash full = byte_of <$> List.filter is_lower_alnum rs).
  { unfold full, slug_untruncated, ReplaceAllString_dash.
    by rewrite strings_Trim_dash_content, replace_runs_content. }
  assert (Hhead : match full with c :: _ => is_dash c = false | [] => True end).
  { unfold full, slug_untruncated. apply strings_Trim_dash_ends. }
  assert (Hiff : slugify tbl task = EmptyString ↔ List.filter is_lower_alnum rs = []).
  { split.
    - intros Hs. apply (f_equal B) in Hs. rewrite slugify_take in Hs. fold full in Hs.
      assert (Hfull : full = []) by (destruct full; [done | discriminate Hs]).
      rewrite Hfull in Hcontent. symmetry in Hcontent. by apply fmap_nil_inv in Hcontent.
    - intros Hnone. rewrite Hnone in Hcontent.
      assert (Hfull : full = []).
      { destruct full as [|c l]; [done|]. cbn [List.filter] in Hcontent.
        unfold not_dash at 1 in Hcontent. by rewrite Hhead in Hcontent. }
      rewrite <- (S_B (slugify tbl task)), slugify_take. fold full. by rewrite Hfull. }
  split; [exact Hiff|]. split; [reflexivity|].
  intros Hnone. apply Hiff in Hnone. unfold add_args, new_agent. cbv zeta. cbn [Branch Worktree].
  by rewrite Hnone.
Qed.

(** ** Agents that are not tracked; the queries *)

(** Extra X12. For an ID that is not tracked, [RemoveWorktree], [UpdateAgentStatus],
    [Merge], [GetDiff], [GetCommits] and [HasConflicts] return the error
    agent ID not found and change nothing: no git command is run and nothing
    is saved. *)
Theorem untracked_agent_is_not_found (env : Env) (id : string) (status : AgentStatus) (sys : Sys) :
  GetAgent (state (manager sys)) id = None →
  RemoveWorktree env id sys = (Some (not_found id), sys)
  ∧ UpdateAgentStatus env id status sys = (Some (not_found id), sys)
  ∧ Merge env id sys = (Some (not_found id), sys)
  ∧ GetDiff env id sys = ((EmptyString, Some (not_found id)), sys)
  ∧ GetCommits env id sys = ((EmptyString, Some (not_found id)), sys)
  ∧ HasConflicts env id sys = ((false, Some (not_found id)), sys).
Proof.
  intros Ha.
  split; [by apply RemoveWorktree_untracked|]. split; [by apply UpdateAgentStatus_untracked|].
  split; [by apply Merge_untracked|].
  unfold GetDiff, GetCommits, HasConflicts. run. rewrite Ha. by destruct sys.
Qed.

Lemma untracked_agent_is_not_found_witness :
  Merge sample_env "cwt-20250104-ffff" sample_sys
  = (Some (not_found "cwt-20250104-ffff"), sample_sys).
Proof.
  exact (proj1 (proj2 (proj2 (untracked_agent_is_not_found
                                sample_env "cwt-20250104-ffff" StatusFailed sample_sys
                                eq_refl)))).
Defined.

Lemma strings_prefix_spec sub s : String.prefix sub s = true ↔ ∃ post, s = sub +:+ post.
Proof.
  revert s. induction sub as [|c sub IH]; intros s.
  - split; [intros _; by exists s|]. intros _. by destruct s.
  - destruct s as [|d s]; cbn [String.prefix].
    + split; [done|]. by intros [post [=]].
    + destruct (Ascii.ascii_dec c d) as [->|Hne].
      * rewrite IH. split; intros [post Hp]; exists post.
        -- change (String d sub +:+ post) with (String d (sub +:+ post)). by rewrite Hp.
        -- change (String d sub +:+ post) with (String d (sub +:+ post)) in Hp.
           by injection Hp.
      * split; [done|]. intros [post Hp].
        change (String c sub +:+ post) with (String c (sub +:+ post)) in Hp.
        injection Hp as -> _. by destruct Hne.
Qed.

Lemma strings_Contains_spec s sub :
  strings_Contains s sub = true ↔ ∃ pre post, s = pre +:+ sub +:+ post.
Proof.
  induction s as [|c s IH].
  - cbn [strings_Contains]. rewrite orb_false_r, strings_prefix_spec. split.
    + intros [post Hp]. by exists EmptyString, post.
    + intros (pre & post & Hp). destruct pre as [|d pre]; [by exists post|].
      discriminate Hp.
  - cbn [strings_Contains]. rewrite orb_true_iff, IH, strings_prefix_spec. split.
    + intros [[post Hp]|(pre & post & Hp)].
      * by exists EmptyString, post.
      * exists (String c pre), post. by rewrite Hp.
    + intros (pre & post & Hp). destruct pre as [|d pre].
      * left. by exists post.
      * right. exists pre, post.
        change (String d pre +:+ ?x) with (String d (pre +:+ x)) in Hp. by injection Hp.
Qed.

(** Extra X13. For a tracked agent, [GetDiff] runs git diff with base...branch and
    [GetCommits] runs git log --oneline with base..branch, and they return
    what git answers; these two and [HasConflicts] leave the manager and the
    disk as they are and save nothing. *)
Theorem queries_change_nothing (env : Env) (id : string) (sys : Sys) (a : Agent) :
  GetAgent (state (manager sys)) id = Some a →
  let root := repoRoot (manager sys) in
  let diff := ["diff"; BaseBranch a +:+ "..." +:+ Branch a]%string in
  let log := ["log"; "--oneline"; BaseBranch a +:+ ".." +:+ Branch a]%string in
  GetDiff env id sys
  = (git_answer env diff, mkSys (manager sys) (disk sys) (trace sys ++ [EvGit root diff]))
  ∧ GetCommits env id sys
    = (git_answer env log, mkSys (manager sys) (disk sys) (trace sys ++ [EvGit root log]))
  ∧ manager (HasConflicts env id sys).2 = manager sys
  ∧ disk (HasConflicts env id sys).2 = disk sys
  ∧ saved_states (trace (HasConflicts env id sys).2) = saved_states (trace sys).
Proof.
  intros Ha. cbv zeta. unfold GetDiff, GetCommits, HasConflicts. run. rewrite Ha. run.
  split; [done|]. split; [done|].
  destruct (git_answer env ["merge-base"; _; _]%string) as [base [e|]]; cbn [fst snd].
  - cbn [manager disk trace]. unfold saved_states. by rewrite omap_app, app_nil_r.
  - destruct (git_answer env ["merge-tree"; _; _; _]%string) as [out err]. norm.
    unfold saved_states. by rewrite omap_app, app_nil_r.
Qed.

Lemma queries_change_nothing_witness :
  manager (HasConflicts sample_env "cwt-20250104-a1b2" sample_sys).2 = manager sample_sys.
Proof.
  exact (proj1 (proj2 (proj2 (queries_change_nothing
                                sample_env "cwt-20250104-a1b2" sample_sys sample_agent
                                sample_agent_tracked)))).
Defined.

(** Extra X14. For a tracked agent, [HasConflicts] first asks git for the merge base
    of the two branches; when that fails it returns false and the error.
    Otherwise it runs git merge-tree on the merge base and the two branches,
    returns no error whatever merge-tree answers, and reports a conflict
    exactly when the output contains six less-than signs in a row. *)
Theorem HasConflicts_reads_the_merge_tree (env : Env) (id : string) (sys : Sys) (a : Agent) :
  GetAgent (state (manager sys)) id = Some a →
  let root := repoRoot (manager sys) in
  let merge_base := ["merge-base"; BaseBranch a; Branch a]%string in
  let merge_tree :=
    ["merge-tree"; (git_answer env merge_base).1; BaseBranch a; Branch a]%string in
  let r := HasConflicts env id sys in
  match (git_answer env merge_base).2 with
  | Some e =>
    r.1 = (false, Some e) ∧ trace r.2 = trace sys ++ [EvGit root merge_base]
  | None =>
    r.1.2 = None
    ∧ (r.1.1 = true ↔ ∃ pre post, (git_answer env merge_tree).1 = pre +:+ "<<<<<<" +:+ post)
    ∧ trace r.2 = trace sys ++ [EvGit root merge_base; EvGit root merge_tree]
  end.
Proof.
  intros Ha. cbv zeta. unfold HasConflicts. run. rewrite Ha. run.
  destruct (git_answer env ["merge-base"; _; _]%string) as [base [e|]]; cbn [fst snd].
  - done.
  - destruct (git_answer env ["merge-tree"; _; _; _]%string) as [out err]. norm.
    split; [done|]. split; [apply strings_Contains_spec|done].
Qed.

Lemma HasConflicts_reads_the_merge_tree_witness :
  (HasConflicts sample_env "cwt-20250104-a1b2" sample_sys).1.2 = None.
Proof.
  exact (proj1 (HasConflicts_reads_the_merge_tree
                  sample_env "cwt-20250104-a1b2" sample_sys sample_agent
                  sample_agent_tracked)).
Defined.

(** ** What a restart finds *)

Lemma Save_keeps_paths s io fs name :
  path_exists fs name → path_exists (Save s io fs).1 name.
Proof.
  intros Hp. rewrite Save_run. unfold written.
  assert (Hd : ∀ d fs', dirs fs' = {[d]} ∪ dirs fs → files fs' = files fs →
                        path_exists fs' name).
  { intros d fs' Hdirs Hfiles. destruct Hp as [Hp|Hp]; [left | right].
    - rewrite Hdirs. by apply elem_of_union_r.
    - by rewrite Hfiles. }
  assert (Hw : ∀ d data fs', dirs fs' = {[d]} ∪ dirs fs →
                 files fs' = <[StateFilePath (RepoRoot s) := data]> (files fs) →
                 path_exists fs' name).
  { intros d data fs' Hdirs Hfiles. destruct Hp as [Hp|Hp]; [left | right].
    - rewrite Hdirs. by apply elem_of_union_r.
    - rewrite Hfiles. destruct (decide (StateFilePath (RepoRoot s) = name)) as [->|Hne].
      + rewrite lookup_insert_eq. by eexists.
      + by rewrite lookup_insert_ne. }
  destruct (mkdir_fault io); [done|].
  destruct (write_result io); cbn [fst]; [by eapply Hw | by eapply Hd | by eapply Hw].
Qed.

Lemma run_operation_keeps_paths tbl env o sys name :
  path_exists (disk sys) name → path_exists (disk (run_operation tbl env o sys).2) name.
Proof.
  intros Hp. destruct o as [task|id|id status|id]; cbn [run_operation snd].
  - rewrite CreateWorktree_run. cbv zeta.
    destruct (git_answer env branch_args).2; [done|].
    destruct (git_answer env commit_args).2; [done|].
    destruct (git_answer env (add_args _)).2; [done|].
    destruct (Save _ _ _).2 eqn:E; cbn [snd disk]; by apply Save_keeps_paths.
  - destruct (GetAgent (state (manager sys)) id) as [a|] eqn:Ha.
    + rewrite (RemoveWorktree_run _ _ _ _ Ha). cbv zeta. cbn [snd disk].
      by apply Save_keeps_paths.
    + by rewrite (RemoveWorktree_untracked _ _ _ Ha).
  - destruct (GetAgent (state (manager sys)) id) as [a|] eqn:Ha.
    + rewrite (UpdateAgentStatus_run _ _ _ _ _ Ha). cbv zeta. cbn [snd disk].
      by apply Save_keeps_paths.
    + by rewrite (UpdateAgentStatus_untracked _ _ _ _ Ha).
  - destruct (GetAgent (state (manager sys)) id) as [a|] eqn:Ha.
    + rewrite (Merge_run _ _ _ _ Ha). cbv zeta.
      destruct (git_answer env (checkout_args a)).2; [by apply Save_keeps_paths|].
      destruct (git_answer env (merge_args a)).2; cbn [snd disk];
        by repeat apply Save_keeps_paths.
    + by rewrite (Merge_untracked _ _ _ Ha).
Qed.

Lemma run_operation_header tbl env o sys :
  header (run_operation tbl env o sys).2 = header sys.
Proof.
  destruct o; cbn [run_operation snd].
  - apply CreateWorktree_header.
  - apply RemoveWorktree_header.
  - apply UpdateAgentStatus_header.
  - apply Merge_header.
Qed.

Lemma run_operation_persisted tbl env o sys :
  (run_operation tbl env o sys).1 = None → persisted (run_operation tbl env o sys).2.
Proof.
  destruct o; cbn [run_operation fst snd].
  - destruct (CreateWorktree tbl env task sys).1 eqn:E; [|done]. intros _.
    by eapply CreateWorktree_persisted.
  - apply RemoveWorktree_persisted.
  - apply UpdateAgentStatus_persisted.
  - apply Merge_persisted.
Qed.

Lemma run_operations_invariant tbl history sys name :
  path_exists (disk sys) name →
  header (run_operations tbl history sys) = header sys
  ∧ path_exists (disk (run_operations tbl history sys)) name.
Proof.
  revert sys. induction history as [|[env o] history IH]; intros sys Hp; [done|].
  cbn [run_operations foldl fst snd].
  destruct (IH (run_operation tbl env o sys).2) as [Hh Hp'].
  { by apply run_operation_keeps_paths. }
  split; [|exact Hp']. unfold run_operations in Hh. rewrite Hh. apply run_operation_header.
Qed.

Lemma NewManager_Ok_inv rf root fs m :
  NewManager None rf root fs = Ok m →
  repoRoot m = root ∧ RepoRoot (state m) = root
  ∧ path_exists fs (filepath_Join [root; ".git"]%string).
Proof.
  unfold NewManager.
  destruct (decide (path_exists fs (filepath_Join [root; ".git"]%string))) as [Hex|Hn].
  - rewrite (os_Stat_exists _ _ Hex). destruct (LoadState rf root fs); [|done].
    by intros [= <-].
  - by rewrite (os_Stat_missing _ _ _ Hn).
Qed.


Lemma sample_repo_manager : NewManager None None "/r" sample_repo = Ok (manager sample_sys).
Proof. vm_compute. reflexivity. Qed.


(** ** The output a session keeps *)

Lemma NewSession_buffer id workdir task :
  ∃ r, pty.NewRingBuffer (1024 * 1024) = Some r
       ∧ pty.NewSession id workdir task = Some (pty.mkSession id workdir task None None r).
Proof.
  unfold pty.NewSession, pty.NewRingBuffer.
  change ((1024 * 1024 <? 0) || (pty.maxAlloc <? 1024 * 1024)) with false. cbv iota.
  eexists. split; reflexivity.
Qed.

Lemma readLoop_spec c reads s l :
  wf c (pty.buffer s) → pty.Bytes (pty.buffer s) = Some l →
  ∃ r, pty.readLoop reads s
       = Some (pty.mkSession (pty.ID s) (pty.Workdir s) (pty.Task s) (pty.pty s) (pty.cmd s) r)
       ∧ pty.Bytes r = Some (last_n (Z.to_nat c) (l ++ concat reads)).
Proof.
  revert s l. induction reads as [|chunk reads IH]; intros s l Hwf Hl.
  - destruct (write_loop_spec c _ l [] Hwf Hl) as (r' & [= <-] & _ & Hl').
    exists (pty.buffer s). split; [by destruct s|done].
  - cbn [pty.readLoop concat]. destruct (0 <? Z.of_nat (length chunk)) eqn:E.
    + destruct (write_loop_spec c _ l chunk Hwf Hl) as (r1 & Hw & Hwf1 & Hl1).
      unfold pty.Write. rewrite Hw. cbn [mbind option_bind].
      destruct (IH (pty.mkSession (pty.ID s) (pty.Workdir s) (pty.Task s) (pty.pty s)
                                  (pty.cmd s) r1) _ Hwf1 Hl1) as (r & Hr & Hb).
      exists r. split; [exact Hr|]. rewrite Hb. f_equal.
      rewrite last_n_app_last_n. by rewrite <- app_assoc.
    + apply Z.ltb_ge in E.
      assert (chunk = []) as -> by (destruct chunk; [done | cbn [length] in E; lia]).
      cbn [app]. by apply IH.
Qed.

(** Extra X16. A new session has an empty output. After the reader loop has taken
    any sequence of chunks from the device, [Output] is the last 1048576
    bytes of everything read, in order, and nothing else of the session has
    changed. *)
Theorem Output_is_the_last_mebibyte_read (id workdir task : string) (reads : list bytes) :
  ∃ s s', pty.NewSession id workdir task = Some s
          ∧ pty.Output s = Some EmptyString
          ∧ pty.readLoop reads s = Some s'
          ∧ pty.Output s' = Some (S_ (last_n (Z.to_nat (1024 * 1024)) (concat reads)))
          ∧ (pty.ID s', pty.Workdir s', pty.Task s', pty.pty s', pty.cmd s')
            = (id, workdir, task, None, None).
Proof.
  destruct (NewSession_buffer id workdir task) as (r0 & Hr0 & Hs).
  destruct (NewRingBuffer_wf (1024 * 1024) r0 ltac:(lia) Hr0) as [Hwf Hlen].
  assert (Hl : pty.Bytes r0 = Some []).
  { apply (Bytes_spec (1024 * 1024)); [done|]. rewrite Hlen. split; [done|].
    intros i Hi. cbn in Hi. lia. }
  destruct (readLoop_spec (1024 * 1024) reads
              (pty.mkSession id workdir task None None r0) [] Hwf Hl) as (r & Hr & Hb).
  eexists _, _. split; [exact Hs|]. split.
  { unfold pty.Output, pty.RingBuffer_String. cbn [pty.buffer]. by rewrite Hl. }
  split; [exact Hr|]. split; [|done].
  unfold pty.Output, pty.RingBuffer_String. cbn [pty.buffer]. rewrite Hb.
  reflexivity.
Qed.

(** ** Writing to a session *)

Lemma Start_Started fd pid s os :
  vt.Start (Started fd pid) s os
  = (vt.mkSession (vt.ID s) (vt.Workdir s) (vt.Task s) (Some fd) (Some (mkCmd (Some pid)))
                  (Some (vt.cols s, vt.rows s)) (vt.rows s) (vt.cols s),
     mkOS ({[fd]} ∪ open_files os) ({[pid]} ∪ running os), None).
Proof. reflexivity. Qed.

(** Extra X17. [Write] on a session that was not started fails with
    [io.ErrClosedPipe] and writes nothing. On a started session the data goes
    to the descriptor of its pseudo-terminal, and the count and the error are
    those of the system. After [Stop] the session still holds the descriptor,
    so [Write] reaches the closed file and fails with the error of a closed
    file, not with [io.ErrClosedPipe]. *)
Theorem Write_reaches_only_a_running_session
    (o : write_answer) (data : bytes) (id workdir task : string) (fd pid : nat) (os : OS) :
  let fresh := vt.NewSession id workdir task in
  let started := vt.Start (Started fd pid) fresh os in
  let stopped := (vt.Stop started.1.1 started.1.2).1 in
  vt.Write o data fresh os = (0, Some ErrClosedPipe, [])
  ∧ vt.Write Wrote data started.1.1 started.1.2 = (Z.of_nat (length data), None, [(fd, data)])
  ∧ (∀ n e, vt.Write (WroteOnly n e) data started.1.1 started.1.2
            = (Z.of_nat (length (take n data)), Some e, [(fd, take n data)]))
  ∧ vt.Write o data started.1.1 stopped = (0, Some ErrFileClosed, []).
Proof.
  cbv zeta. rewrite Start_Started. cbn [fst snd].
  assert (Hin : fd ∈ ({[fd]} ∪ open_files os : gset nat)) by set_solver.
  unfold vt.Write, File_Write. cbn [vt.ptmx vt.NewSession open_files].
  split; [done|]. split; [by rewrite decide_True|].
  split; [intros n e; by rewrite decide_True|].
  rewrite vt_Stop_eq. cbn [fst vt.ptmx vt.cmd]. unfold stop_effect, File_Close.
  cbn [open_files running].
  destruct (decide (fd ∈ {[fd]} ∪ open_files os)) as [_|Hn]; [|done]. cbn [fst].
  unfold Process_Kill. cbn [open_files running].
  assert (Hout : fd ∉ ({[fd]} ∪ open_files os) ∖ ({[fd]} : gset nat)).
  { apply not_elem_of_difference. right. by apply elem_of_singleton. }
  destruct (decide (pid ∈ _)); cbn [fst open_files]; by rewrite decide_False.
Qed.

(** ** The size of a session *)

(** Extra X18. [Resize] stores the rows and the columns in the session. A new
    session is 24 by 80 and has no virtual terminal until [Start] makes one of
    the stored size, so a [Resize] before [Start] decides the size of the
    terminal. Without a pseudo-terminal [Resize] returns no error and sets no
    window size; on an open one the device gets the rows and columns
    converted to [uint16]; on a closed one an error is returned and the
    stored size has changed all the same. *)
Theorem Resize_is_kept_and_used_by_Start
    (fault : option error) (rows cols : Z) (s : vt.Session) (os : OS)
    (id workdir task : string) (fd pid : nat) :
  let r := vt.Resize fault rows cols s os in
  let fresh := vt.NewSession id workdir task in
  (vt.Rows r.1.1, vt.Cols r.1.1) = (rows, cols)
  ∧ (vt.Rows fresh, vt.Cols fresh, vt.term fresh) = (24, 80, None)
  ∧ vt.term (vt.Start (Started fd pid) fresh os).1.1 = Some (80, 24)
  ∧ vt.term (vt.Start (Started fd pid) (vt.Resize fault rows cols fresh os).1.1 os).1.1
    = Some (cols, rows)
  ∧ (vt.ptmx s = None → r = (resized rows cols s, None, []))
  ∧ (∀ f, vt.ptmx s = Some f → f ∈ open_files os → fault = None →
     r = (resized rows cols s, None, [(f, rows mod 65536, cols mod 65536)]))
  ∧ (∀ f, vt.ptmx s = Some f → f ∉ open_files os →
     r.1.1 = resized rows cols s ∧ r.2 = [] ∧ is_Some r.1.2).
Proof.
  cbv zeta. unfold vt.Resize, vt.Rows, vt.Cols, resized, Setsize, uint16.
  cbn [vt.ptmx vt.rows vt.cols].
  split; [by destruct (vt.ptmx s); [case_decide; [destruct fault|]|]|].
  split; [done|]. split; [done|]. split; [done|]. split; [by intros ->|]. split.
  - intros f -> Hin ->. by rewrite decide_True.
  - intros f -> Hnin. rewrite decide_False by done. by split; [|split; [|eexists]].
Qed.

(** ** Stopping every session *)

Lemma stop_effect_sets f c os :
  open_files (stop_effect f c os) = open_files os ∖ one_or_none f
  ∧ running (stop_effect f c os) = running os ∖ one_or_none (c ≫= Process).
Proof.
  unfold stop_effect, File_Close, Process_Kill.
  destruct f as [f|], c as [[[p|]]|]; cbn [one_or_none mbind option_bind Process];
    repeat case_decide; cbn [fst open_files running]; split; set_solver.
Qed.

Lemma StopAll_fold visit m os :
  vt.StopAll visit m os
  = (vt.mkManager (foldl (fun ss p => delete p.1 ss) (vt.sessions m) visit),
     foldl (fun os p => stop_effect (vt.ptmx p.2) (vt.cmd p.2) os) os visit).
Proof.
  unfold vt.StopAll. revert m os. induction visit as [|p visit IH]; intros m os.
  - by destruct m.
  - cbn [foldl fst snd]. rewrite vt_Stop_eq. cbn [fst snd vt.sessions].
    specialize (IH (vt.mkManager (delete p.1 (vt.sessions m)))
                   (stop_effect (vt.ptmx p.2) (vt.cmd p.2) os)).
    cbn [vt.sessions] in IH. exact IH.
Qed.

Lemma foldl_stop_sets (visit : list (string * vt.Session)) os :
  let os' := foldl (fun os p => stop_effect (vt.ptmx p.2) (vt.cmd p.2) os) os visit in
  open_files os' = open_files os ∖ list_to_set (omap (fun p => vt.ptmx p.2) visit)
  ∧ running os'
    = running os ∖ list_to_set (omap (fun p => c ← vt.cmd p.2; Process c) visit).
Proof.
  cbv zeta. revert os. induction visit as [|p visit IH]; intros os.
  - cbn. split; set_solver.
  - cbn [foldl]. destruct (IH (stop_effect (vt.ptmx p.2) (vt.cmd p.2) os)) as [-> ->].
    destruct (stop_effect_sets (vt.ptmx p.2) (vt.cmd p.2) os) as [-> ->].
    cbn [omap list_omap].
    destruct (vt.ptmx p.2) as [f|], (vt.cmd p.2 ≫= Process) as [q|];
      cbn [one_or_none list_to_set]; split; set_solver.
Qed.

Lemma foldl_delete_lookup {A} (visit : list (string * A)) (ss : gmap string A) k :
  foldl (fun ss p => delete p.1 ss) ss visit !! k
  = if decide (k ∈ visit.*1) then None else ss !! k.
Proof.
  revert ss. induction visit as [|p visit IH]; intros ss; [done|].
  cbn [foldl fmap list_fmap]. rewrite IH.
  destruct (decide (k = p.1)) as [->|Hne].
  - rewrite lookup_delete_eq. rewrite (decide_True (P := p.1 ∈ p.1 :: visit.*1)) by left.
    by case_decide.
  - rewrite lookup_delete_ne by done.
    destruct (decide (k ∈ visit.*1)) as [Hin|Hnin].
    + by rewrite decide_True by (by right).
    + rewrite decide_False; [done|]. by intros [?|?]%elem_of_cons.
Qed.

Lemma list_to_set_omap_perm {A} (g : A → option nat) (l l' : list A) :
  l ≡ₚ l' → (list_to_set (omap g l) : gset nat) = list_to_set (omap g l').
Proof.
  intros Hp. apply list_to_set_perm_L. by apply omap_Permutation.
Qed.

(** Extra X19. [StopAll], over any visiting order, empties the registry, closes the
    descriptors and kills the processes of all its sessions, and leaves the
    rest of the system alone. *)
Theorem StopAll_stops_and_forgets_every_session
    (visit : list (string * vt.Session)) (m : vt.Manager) (os : OS) :
  visits (vt.sessions m) visit →
  vt.StopAll visit m os
  = (vt.NewManager, mkOS (open_files os ∖ descriptors m) (running os ∖ processes m))
  ∧ vt.Count (vt.StopAll visit m os).1 = 0
  ∧ (∀ id, vt.Get (vt.StopAll visit m os).1 id = None)
  ∧ (∀ id s fd, vt.Get m id = Some s → vt.ptmx s = Some fd →
                fd ∉ open_files (vt.StopAll visit m os).2).
Proof.
  intros Hv. unfold visits in Hv.
  assert (E : vt.StopAll visit m os
              = (vt.NewManager,
                 mkOS (open_files os ∖ descriptors m) (running os ∖ processes m))).
  { rewrite StopAll_fold. destruct (foldl_stop_sets visit os) as [Ho Hr]. cbv zeta in Ho, Hr.
    f_equal.
    - unfold vt.NewManager. f_equal. apply map_empty. intros k.
      rewrite foldl_delete_lookup. case_decide as Hk; [done|].
      destruct (vt.sessions m !! k) as [s|] eqn:Hs; [|done].
      destruct Hk. apply list_elem_of_fmap. exists (k, s). split; [done|].
      rewrite Hv. by apply elem_of_map_to_list.
    - destruct (foldl _ os visit) as [o r]. cbn [open_files running] in Ho, Hr.
      rewrite Ho, Hr. unfold descriptors, processes.
      by rewrite (list_to_set_omap_perm _ _ _ Hv),
                 (list_to_set_omap_perm (fun p => c ← vt.cmd p.2; Process c) _ _ Hv). }
  rewrite E. cbn [fst snd open_files]. split; [done|]. split; [done|]. split; [done|].
  intros id s fd Hs Hfd. apply not_elem_of_difference. right.
  unfold descriptors. apply elem_of_list_to_set, list_elem_of_omap.
  exists (id, s). split; [by apply elem_of_map_to_list | done].
Qed.

Lemma StopAll_stops_and_forgets_every_session_witness :
  vt.StopAll (map_to_list (vt.sessions sample_registry)) sample_registry sample_os
  = (vt.NewManager,
     mkOS (open_files sample_os ∖ descriptors sample_registry)
          (running sample_os ∖ processes sample_registry)).
Proof.
  exact (proj1 (StopAll_stops_and_forgets_every_session
                  (map_to_list (vt.sessions sample_registry)) sample_registry sample_os
                  (Permutation_refl _))).
Defined.

(** ** Counting and listing the sessions *)

Lemma List_eq (visit : list (string * vt.Session)) : vt.List visit = visit.*1.
Proof.
  unfold vt.List.
  rewrite (foldl_snoc_filter (fun _ => true) fst visit []). cbn [app].
  f_equal. induction visit as [|x l IH]; [done|]. cbn. by rewrite IH.
Qed.

(** Extra X20. [List] returns each registered ID once: it is as long as [Count]
    says, it has no duplicates, an ID is in it exactly when [Get] finds it,
    and it is empty exactly when the count is 0. *)
Theorem List_and_Count_agree (visit : list (string * vt.Session)) (m : vt.Manager) :
  visits (vt.sessions m) visit →
  Z.of_nat (length (vt.List visit)) = vt.Count m
  ∧ NoDup (vt.List visit)
  ∧ (∀ id, id ∈ vt.List visit ↔ is_Some (vt.Get m id))
  ∧ (vt.Count m = 0 ↔ vt.List visit = []).
Proof.
  intros Hv. unfold visits in Hv. rewrite List_eq. unfold vt.Count, vt.Get.
  assert (Hlen : length visit.*1 = size (vt.sessions m)).
  { by rewrite length_fmap, Hv, length_map_to_list. }
  split; [by rewrite Hlen|]. split; [rewrite Hv; apply NoDup_fst_map_to_list|]. split.
  - intros id. rewrite Hv. split.
    + intros ([k s] & -> & Hin)%list_elem_of_fmap. apply elem_of_map_to_list in Hin.
      by eexists.
    + intros [s Hs]. apply list_elem_of_fmap. exists (id, s). split; [done|].
      by apply elem_of_map_to_list.
  - rewrite <- Hlen. destruct visit.*1; cbn [length]; split; (done || lia).
Qed.

Lemma List_and_Count_agree_witness :
  Z.of_nat (length (vt.List (map_to_list (vt.sessions sample_registry))))
  = vt.Count sample_registry.
Proof.
  exact (proj1 (List_and_Count_agree (map_to_list (vt.sessions sample_registry))
                  sample_registry (Permutation_refl _))).
Defined.

(** Extra X21. [Count] is 0 for a new registry and never negative. A [Spawn] that
    succeeds raises it by one and one that fails leaves it; a [Kill] that
    succeeds lowers it by one and one that fails leaves it. *)
Theorem Count_follows_Spawn_and_Kill
    (o : start_outcome) (id workdir task : string) (m : vt.Manager) (os : OS) :
  vt.Count vt.NewManager = 0
  ∧ 0 <= vt.Count m
  ∧ vt.Count (vt.Spawn o id workdir task m os).1.2
    = match (vt.Spawn o id workdir task m os).1.1 with
      | Ok _ => vt.Count m + 1
      | Err _ => vt.Count m
      end
  ∧ vt.Count (vt.Kill id m os).1.2
    = match (vt.Kill id m os).1.1 with
      | None => vt.Count m - 1
      | Some _ => vt.Count m
      end.
Proof.
  unfold vt.Count, vt.Spawn, vt.Kill. split; [done|]. split; [lia|]. split.
  - destruct (vt.sessions m !! id) as [s|] eqn:Hs; [done|].
    destruct o as [fd pid|e]; [|done]. cbn [vt.Start fst snd vt.sessions].
    rewrite map_size_insert_None by done. lia.
  - destruct (vt.sessions m !! id) as [s|] eqn:Hs; [|done].
    rewrite vt_Stop_eq. cbn [fst snd vt.sessions].
    rewrite map_size_delete, Hs.
    assert (size (vt.sessions m) ≠ 0%nat).
    { intros H0. apply map_size_empty_iff in H0. by rewrite H0 in Hs. }
    lia.
Qed.

(** ** Spawn and Kill undo each other *)

Lemma Spawn_Started id workdir task fd pid m os :
  vt.sessions m !! id = None →
  let s := vt.mkSession id workdir task (Some fd) (Some (mkCmd (Some pid))) (Some (80, 24))
                        24 80 in
  vt.Spawn (Started fd pid) id workdir task m os
  = (Ok s, vt.mkManager (<[id := s]> (vt.sessions m)),
     mkOS ({[fd]} ∪ open_files os) ({[pid]} ∪ running os)).
Proof. intros Hfree. unfold vt.Spawn. by rewrite Hfree. Qed.

(** Extra X22. Spawning a session under a free ID, with a descriptor and a process
    that are new to the system, and then killing it gives back the registry
    and the system as they were. A write to the ID then fails with session
    not found, and the ID can be spawned again. *)
Theorem Kill_undoes_Spawn
    (id workdir task : string) (fd pid : nat) (m : vt.Manager) (os : OS) :
  vt.Get m id = None → fd ∉ open_files os → pid ∉ running os →
  let spawned := vt.Spawn (Started fd pid) id workdir task m os in
  let killed := vt.Kill id spawned.1.2 spawned.2 in
  (∃ s, spawned.1.1 = Ok s ∧ vt.Get spawned.1.2 id = Some s)
  ∧ killed = (None, m, os)
  ∧ (∀ o data, vt.Manager_Write o id data killed.1.2 killed.2
               = (0, Some (Errorf ("session " +:+ id +:+ " not found") None), []))
  ∧ ∃ s', (vt.Spawn (Started fd pid) id workdir task killed.1.2 killed.2).1.1 = Ok s'.
Proof.
  unfold vt.Get. intros Hfree Hfd Hpid. cbv zeta.
  rewrite (Spawn_Started _ _ _ _ _ _ _ Hfree). cbv zeta. cbn [fst snd].
  split; [eexists; split; [done|]; cbn [vt.sessions]; apply lookup_insert_eq|].
  assert (Hos : stop_effect (Some fd) (Some (mkCmd (Some pid)))
                  (mkOS ({[fd]} ∪ open_files os) ({[pid]} ∪ running os)) = os).
  { destruct (stop_effect_sets (Some fd) (Some (mkCmd (Some pid)))
                (mkOS ({[fd]} ∪ open_files os) ({[pid]} ∪ running os))) as [Ho Hr].
    cbn [one_or_none mbind option_bind Process open_files running] in Ho, Hr.
    destruct (stop_effect _ _ _) as [o r]. cbn [open_files running] in Ho, Hr.
    destruct os as [o0 r0]. cbn [open_files running] in *. f_equal; set_solver. }
  match goal with
  | |- vt.Kill id ?m' ?os' = _ ∧ _ => assert (Hk : vt.Kill id m' os' = (None, m, os))
  end.
  { unfold vt.Kill. cbn [vt.sessions]. rewrite lookup_insert_eq, vt_Stop_eq.
    cbn [fst snd vt.ptmx vt.cmd]. rewrite delete_insert_eq, delete_id, Hos by done.
    by destruct m. }
  rewrite Hk. cbn [fst snd]. split; [done|]. split.
  - intros o data. unfold vt.Manager_Write, vt.Get. by rewrite Hfree.
  - rewrite Spawn_Started by done. by eexists.
Qed.

Lemma Kill_undoes_Spawn_witness :
  vt.Kill "cwt-20250104-a1b2"
    (vt.Spawn (Started 4 101) "cwt-20250104-a1b2" "/w" "Add auth" sample_registry sample_os).1.2
    (vt.Spawn (Started 4 101) "cwt-20250104-a1b2" "/w" "Add auth" sample_registry sample_os).2
  = (None, sample_registry, sample_os).
Proof.
  exact (proj1 (proj2 (Kill_undoes_Spawn "cwt-20250104-a1b2" "/w" "Add auth" 4 101
                         sample_registry sample_os eq_refl
                         ltac:(vm_compute; set_solver) ltac:(vm_compute; set_solver)))).
Defined.

(** ** Resizing every session *)

Lemma Resize_session fault rows cols s os :
  (vt.Resize fault rows cols s os).1.1 = resized rows cols s.
Proof.
  unfold vt.Resize, resized, Setsize. cbn [vt.ptmx].
  destruct (vt.ptmx s); [|done]. case_decide; [by destruct fault | done].
Qed.

Lemma ResizeAll_registry faults rows cols visit m os :
  (vt.ResizeAll faults rows cols visit m os).1
  = vt.mkManager (foldl (fun ss p => <[p.1 := resized rows cols p.2]> ss) (vt.sessions m) visit).
Proof.
  unfold vt.ResizeAll. generalize (@nil (nat * Z * Z)). revert m.
  induction visit as [|p visit IH]; intros m sizes; [by destruct m|].
  cbn [foldl fst snd].
  pose proof (Resize_session (faults p.1) rows cols p.2 os) as Hr.
  destruct (vt.Resize (faults p.1) rows cols p.2 os) as [[s' err] sz]. cbn [fst] in Hr.
  subst s'. apply (IH (vt.mkManager _)).
Qed.

Lemma foldl_insert_fmap {A} (g : A → A) (visit : list (string * A)) (m : gmap string A) :
  visits m visit →
  foldl (fun ss p => <[p.1 := g p.2]> ss) m visit = g <$> m.
Proof.
  intros Hv. unfold visits in Hv.
  assert (Hgen : ∀ ss : gmap string A, NoDup visit.*1 →
            foldl (fun ss p => <[p.1 := g p.2]> ss) ss visit
            = list_to_map (prod_map id g <$> visit) ∪ ss).
  { clear Hv. induction visit as [|[k a] l IH]; intros ss Hnd.
    - cbn [foldl fmap list_fmap list_to_map foldr]. by rewrite (left_id_L ∅ (∪)).
    - cbn [foldl fst snd]. cbn [fmap list_fmap fst] in Hnd.
      apply NoDup_cons in Hnd as [Hk Hnd]. rewrite IH by done.
      cbn [fmap list_fmap prod_map list_to_map foldr fst snd id].
      rewrite <- insert_union_r; [by rewrite insert_union_l|].
      apply not_elem_of_list_to_map_1. rewrite <- list_fmap_compose.
      by replace (fst ∘ prod_map id g) with (fst : string * A → string) by done. }
  rewrite Hgen by (rewrite Hv; apply NoDup_fst_map_to_list).
  rewrite list_to_map_fmap.
  rewrite (list_to_map_proper visit (map_to_list m))
    by (done || rewrite Hv; apply NoDup_fst_map_to_list).
  rewrite list_to_map_to_list. apply map_eq. intros i.
  rewrite lookup_union, lookup_fmap. by destruct (m !! i).
Qed.

(** Extra X23. [ResizeAll], over any visiting order, resizes every session of the
    registry and adds or removes none: every ID holds the session as [Resize]
    leaves it, so every session reports the new rows and columns, and the
    count is unchanged. *)
Theorem ResizeAll_resizes_every_session
    (faults : string → option error) (rows cols : Z)
    (visit : list (string * vt.Session)) (m : vt.Manager) (os : OS) :
  visits (vt.sessions m) visit →
  let m' := (vt.ResizeAll faults rows cols visit m os).1 in
  vt.sessions m' = resized rows cols <$> vt.sessions m
  ∧ vt.Count m' = vt.Count m
  ∧ (∀ id, vt.Get m' id = resized rows cols <$> vt.Get m id)
  ∧ (∀ id s', vt.Get m' id = Some s' → vt.Rows s' = rows ∧ vt.Cols s' = cols).
Proof.
  intros Hv. cbv zeta. rewrite ResizeAll_registry. cbn [vt.sessions].
  rewrite (foldl_insert_fmap _ _ _ Hv).
  split; [done|]. split; [unfold vt.Count; cbn [vt.sessions]; by rewrite map_size_fmap|].
  unfold vt.Get. cbn [vt.sessions]. split; [intros id; apply lookup_fmap|].
  intros id s'. rewrite lookup_fmap. destruct (vt.sessions m !! id); [|done].
  by intros [= <-].
Qed.

Lemma ResizeAll_resizes_every_session_witness :
  vt.sessions (vt.ResizeAll (fun _ => None) 40 120 (map_to_list (vt.sessions sample_registry))
                 sample_registry sample_os).1
  = resized 40 120 <$> vt.sessions sample_registry.
Proof.
  exact (proj1 (ResizeAll_resizes_every_session (fun _ => None) 40 120
                  (map_to_list (vt.sessions sample_registry)) sample_registry sample_os
                  (Permutation_refl _))).
Defined.

(** ** The terminal interface *)

Lemma int_wrap_id z : is_int z → int_wrap z = z.
Proof.
  unfold is_int, int_wrap. intros H. rewrite Z.mod_small; lia.
Qed.

Lemma length_B s : length (B s) = String.length s.
Proof. unfold B. induction s as [|c s IH]; [done|]. cbn. by rewrite IH. Qed.

Lemma length_S_ b : String.length (S_ b) = length b.
Proof. unfold S_. induction b as [|c b IH]; [done|]. cbn. by rewrite IH. Qed.

Lemma string_length_app (s t : string) :
  String.length (s +:+ t) = (String.length s + String.length t)%nat.
Proof. induction s as [|c s IH]; [done|]. cbn. by rewrite <- IH. Qed.

Lemma truncate_short s max :
  Z.of_nat (String.length s) <= max → tui.truncate s max = Some s.
Proof. intros H. unfold tui.truncate. by rewrite (proj2 (Z.leb_le _ _) H). Qed.

Lemma truncate_long s max :
  1 <= max < Z.of_nat (String.length s) → max < 2 ^ 63 →
  tui.truncate s max = Some (S_ (take (Z.to_nat (max - 1)) (B s)) +:+ tui.ellipsis).
Proof.
  intros [H1 H2] Hint. unfold tui.truncate. rewrite (proj2 (Z.leb_gt _ _) H2).
  rewrite int_wrap_id by (unfold is_int; lia).
  rewrite (proj2 (Z.ltb_ge _ _)) by lia. by rewrite (proj2 (Z.ltb_ge _ _)) by lia.
Qed.

Lemma truncate_15 s : ∃ name, tui.truncate s 15 = Some name.
Proof.
  destruct (Z.le_gt_cases (Z.of_nat (String.length s)) 15) as [H|H].
  - exists s. by apply truncate_short.
  - eexists. apply truncate_long; lia.
Qed.

(** Extra X24. [truncate] returns a string of at most [max] bytes unchanged. A
    longer one is cut to its first [max - 1] bytes, followed by the three
    bytes of the ellipsis: the result has [max + 2] bytes, two more than
    [max]. When [max] is zero or negative and the string is longer, the bound
    of the slice is negative and the call panics. *)
Theorem truncate_bounds (s : string) (max : Z) :
  let len := Z.of_nat (String.length s) in
  (len <= max → tui.truncate s max = Some s)
  ∧ (1 <= max < len → max < 2 ^ 63 →
     tui.truncate s max = Some (S_ (take (Z.to_nat (max - 1)) (B s)) +:+ tui.ellipsis)
     ∧ ∀ t, tui.truncate s max = Some t → Z.of_nat (String.length t) = max + 2)
  ∧ (- 2 ^ 63 < max <= 0 → max < len → tui.truncate s max = None).
Proof.
  cbv zeta. split; [apply truncate_short|split].
  - intros H Hint. rewrite (truncate_long s max H Hint).
    split; [done|]. intros t [= <-].
    rewrite string_length_app, length_S_, length_take, length_B.
    change (String.length tui.ellipsis) with 3%nat. lia.
  - intros H1 H2. unfold tui.truncate. rewrite (proj2 (Z.leb_gt _ _) H2).
    rewrite int_wrap_id by (unfold is_int; lia).
    by rewrite (proj2 (Z.ltb_lt _ _)) by lia.
Qed.

(** *** Closing a tab *)

Lemma Kill_forgets id m os : vt.Get (vt.Kill id m os).1.2 id = None.
Proof.
  unfold vt.Kill, vt.Get. destruct (vt.sessions m !! id) as [s|] eqn:E; [|exact E].
  unfold vt.Stop. cbn [fst snd vt.sessions]. apply lookup_delete_eq.
Qed.

Lemma RemoveWorktree_untracks env id sys :
  GetAgent (state (manager (RemoveWorktree env id sys).2)) id = None.
Proof.
  destruct (GetAgent (state (manager sys)) id) as [a|] eqn:E.
  - rewrite (RemoveWorktree_run env id sys a E). cbn [snd manager state].
    unfold GetAgent, RemoveAgent. cbn [Agents]. apply lookup_delete_eq.
  - by rewrite (RemoveWorktree_untracked env id sys E).
Qed.

Lemma closeCurrentTab_run out k m w tab :
  0 < tui.activeTab m →
  tui.tabs m !! Z.to_nat (tui.activeTab m) = Some tab →
  let i := Z.to_nat (tui.activeTab m) in
  let killed := vt.Kill (tui.SessionID tab) (tui.ptyManager w) (tui.system w) in
  let wt := match tui.Agent tab with
            | Some id => (RemoveWorktree (tui.manager_env out k) id (tui.wtManager w)).2
            | None => tui.wtManager w
            end in
  tui.closeCurrentTab out k m w
  = Some (tui.mkModel (delete i (tui.tabs m))
            (Z.min (tui.activeTab m) (Z.of_nat (length (tui.tabs m)) - 2))
            (tui.width m) (tui.height m) (tui.inputMode m) (tui.inputBuffer m)
            (tui.inputPrompt m) (tui.inputAction m) (tui.quitting m) (tui.ready m),
          tui.CmdNil, tui.set_world_managers w wt killed.1.2 killed.2).
Proof.
  intros Hpos Htab. cbv zeta. unfold tui.closeCurrentTab.
  rewrite (proj2 (Z.eqb_neq _ _)) by lia. rewrite (proj2 (Z.ltb_ge _ _)) by lia.
  rewrite Htab. cbn [mbind option_bind].
  destruct (vt.Kill _ _ _) as [[err pm] os]. cbn [fst snd].
  pose proof (lookup_lt_Some _ _ _ Htab) as Hlt.
  replace (Z.to_nat (tui.activeTab m + 1)) with (S (Z.to_nat (tui.activeTab m))) by lia.
  rewrite <- delete_take_drop.
  assert (Hlen : length (delete (Z.to_nat (tui.activeTab m)) (tui.tabs m))
                 = Nat.pred (length (tui.tabs m))).
  { rewrite length_delete by (by rewrite Htab). lia. }
  rewrite Hlen.
  assert (Hact : (if Z.of_nat (Nat.pred (length (tui.tabs m))) <=? tui.activeTab m
                  then Z.of_nat (Nat.pred (length (tui.tabs m))) - 1 else tui.activeTab m)
                 = Z.min (tui.activeTab m) (Z.of_nat (length (tui.tabs m)) - 2)).
  { destruct (Z.leb_spec (Z.of_nat (Nat.pred (length (tui.tabs m)))) (tui.activeTab m)); lia. }
  by rewrite Hact.
Qed.


(** *** Merging the agent of a tab *)

Lemma Merge_keeps_tracked env id sys a :
  GetAgent (state (manager sys)) id = Some a →
  is_Some (GetAgent (state (manager (Merge env id sys).2)) id)
  ∧ ((Merge env id sys).1 = None → status_of (Merge env id sys).2 id = Some StatusMerged).
Proof.
  intros Ha. rewrite (Merge_run env id sys a Ha). cbv zeta.
  unfold merging_state, merged_state, GetAgent.
  destruct (git_answer env (checkout_args a)).2;
    [|destruct (git_answer env (merge_args a)).2]; cbn [fst snd manager state].
  - split; [|done]. unfold set_agent. cbn [Agents]. rewrite lookup_insert_eq. by eexists.
  - split; [|done]. unfold set_agent. cbn [Agents]. rewrite lookup_insert_eq. by eexists.
  - split; [unfold set_agent; cbn [Agents]; rewrite lookup_insert_eq; by eexists|].
    intros _. apply status_of_set_agent.
Qed.

Lemma mergeCurrentTab_run out m w tab id :
  0 < tui.activeTab m →
  tui.tabs m !! Z.to_nat (tui.activeTab m) = Some tab →
  tui.Agent tab = Some id →
  let merged := Merge (tui.manager_env out 0) id (tui.wtManager w) in
  let w1 := tui.set_world_managers w merged.2 (tui.ptyManager w) (tui.system w) in
  tui.mergeCurrentTab out m w
  = match merged.1 with
    | Some _ => Some (m, tui.CmdNil, w1)
    | None => tui.closeCurrentTab out 1 m w1
    end.
Proof.
  intros Hpos Htab Hid. cbv zeta. unfold tui.mergeCurrentTab.
  rewrite (proj2 (Z.eqb_neq _ _)) by lia. rewrite (proj2 (Z.ltb_ge _ _)) by lia.
  rewrite Htab. cbn [mbind option_bind]. rewrite Hid.
  by destruct (Merge _ _ _) as [[e|] sys'].
Qed.

(** Extra X26. [mergeCurrentTab] on the tab of a tracked agent. When [Merge] returns
    an error the model stays as it is, the sessions are not touched and the
    agent stays tracked. When [Merge] succeeds the agent has the status
    merged, and then the tab is closed, which removes the worktree and the
    agent: the session is no longer registered, the agent is no longer
    tracked, and the last state handed to [Save] has no record of it. *)
Theorem mergeCurrentTab_forgets_the_merged_agent
    (out : tui.Outside) (m : tui.Model) (w : tui.World) (tab : tui.Tab) (id : string)
    (a : Agent) :
  0 < tui.activeTab m →
  tui.tabs m !! Z.to_nat (tui.activeTab m) = Some tab →
  tui.Agent tab = Some id →
  tracked w id = Some a →
  let merged := Merge (tui.manager_env out 0) id (tui.wtManager w) in
  (∀ e, merged.1 = Some e →
     ∃ w', tui.mergeCurrentTab out m w = Some (m, tui.CmdNil, w')
           ∧ tui.wtManager w' = merged.2
           ∧ tui.ptyManager w' = tui.ptyManager w
           ∧ is_Some (tracked w' id))
  ∧ (merged.1 = None →
     status_of merged.2 id = Some StatusMerged
     ∧ ∃ m' w' s err,
         tui.mergeCurrentTab out m w = Some (m', tui.CmdNil, w')
         ∧ tui.tabs m' = delete (Z.to_nat (tui.activeTab m)) (tui.tabs m)
         ∧ vt.Get (tui.ptyManager w') (tui.SessionID tab) = None
         ∧ tracked w' id = None
         ∧ last (trace (tui.wtManager w')) = Some (EvSave s err)
         ∧ GetAgent s id = None).
Proof.
  intros Hpos Htab Hid Ha. cbv zeta.
  rewrite (mergeCurrentTab_run out m w tab id Hpos Htab Hid). cbv zeta.
  unfold tracked in Ha.
  destruct (Merge_keeps_tracked (tui.manager_env out 0) id (tui.wtManager w) a Ha)
    as [[a' Ha'] Hst].
  destruct (Merge (tui.manager_env out 0) id (tui.wtManager w)) as [err sys'] eqn:E.
  cbn [fst snd] in *. split.
  - intros e ->. eexists. split; [reflexivity|].
    unfold tracked, tui.set_world_managers. cbn [tui.wtManager tui.ptyManager].
    split; [done|]. split; [done|]. by eexists.
  - intros ->. split; [by apply Hst|].
    rewrite (closeCurrentTab_run out 1 m _ tab Hpos Htab). cbv zeta. rewrite Hid.
    unfold tui.set_world_managers. cbn [tui.wtManager tui.ptyManager tui.system].
    rewrite (RemoveWorktree_run (tui.manager_env out 1) id sys' a' Ha'). cbv zeta.
    cbn [snd].
    eexists _, _, _, _. split; [reflexivity|]. cbn [tui.tabs tui.ptyManager tui.wtManager].
    split; [done|]. split; [apply Kill_forgets|].
    unfold tracked. cbn [tui.wtManager manager state trace].
    split; [|split].
    + unfold GetAgent, RemoveAgent. cbn [Agents]. apply lookup_delete_eq.
    + rewrite !app_assoc. apply last_snoc.
    + unfold GetAgent, RemoveAgent. cbn [Agents]. apply lookup_delete_eq.
Qed.

Lemma mergeCurrentTab_forgets_the_merged_agent_witness :
  status_of (Merge sample_env "cwt-20250104-a1b2" sample_sys).2 "cwt-20250104-a1b2"
  = Some StatusMerged
  ∧ ∃ m' w' s err,
      tui.mergeCurrentTab sample_outside sample_model sample_world = Some (m', tui.CmdNil, w')
      ∧ tui.tabs m' = [main_tab]
      ∧ vt.Get (tui.ptyManager w') "cwt-20250104-a1b2" = None
      ∧ tracked w' "cwt-20250104-a1b2" = None
      ∧ last (trace (tui.wtManager w')) = Some (EvSave s err)
      ∧ GetAgent s "cwt-20250104-a1b2" = None.
Proof.
  refine (proj2 (mergeCurrentTab_forgets_the_merged_agent sample_outside sample_model
                   sample_world sample_tab "cwt-20250104-a1b2" sample_agent _ _ _ _) _).
  - reflexivity.
  - reflexivity.
  - reflexivity.
  - vm_compute. reflexivity.
  - vm_compute. reflexivity.
Defined.

(** *** No step adds a tab *)

Lemma createNewAgent_total tbl out task bound w :
  ∃ bound' w', tui.createNewAgent tbl out task bound w = Some (bound', w').
Proof.
  unfold tui.createNewAgent.
  destruct (CreateWorktree tbl _ task _) as [[agent|e] wt]; [|by eexists _, _].
  destruct (vt.Spawn _ _ _ _ _ _) as [[[session|e] pm] os].
  - destruct (match vt.Get pm (ID agent) with Some _ => _ | None => _ end) as [pm' sizes].
    destruct (truncate_15 task) as [name ->]. cbn [mbind option_bind]. by eexists _, _.
  - destruct (RemoveWorktree _ _ _) as [err wt']. by eexists _, _.
Qed.

Lemma good_step_same m cmd w : active_tab_in_range m → good_step m (Some (m, cmd, w)).
Proof. intros Hin. exists m, cmd, w. split; [done|]. split; [done|]. split; [by left|done]. Qed.

Lemma good_step_tabs m m' cmd w :
  active_tab_in_range m → tui.tabs m' = tui.tabs m → tui.activeTab m' = tui.activeTab m →
  good_step m (Some (m', cmd, w)).
Proof.
  intros Hin Ht Ha. exists m', cmd, w. split; [done|].
  unfold active_tab_in_range, keeps_or_closes. rewrite Ht, Ha. split; [done|].
  split; [by left|done].
Qed.

Lemma handleInputMode_good tbl out msg m w :
  active_tab_in_range m → good_step m (tui.handleInputMode tbl out msg m w).
Proof.
  intros Hin. unfold tui.handleInputMode.
  destruct (tui.key_Type msg); try by apply good_step_same.
  - by apply good_step_tabs.
  - destruct (tui.inputAction m) as [bound|]; [|by apply good_step_tabs].
    destruct (String.eqb (tui.inputBuffer m) EmptyString); [by apply good_step_tabs|].
    destruct (createNewAgent_total tbl out (tui.inputBuffer m) bound w) as (b' & w' & ->).
    by apply good_step_tabs.
  - destruct (0 <? _); [by apply good_step_tabs | by apply good_step_same].
  - by apply good_step_tabs.
  - by apply good_step_tabs.
Qed.

Lemma closeCurrentTab_good out k m w :
  active_tab_in_range m → good_step m (tui.closeCurrentTab out k m w).
Proof.
  intros Hin. destruct (decide (tui.activeTab m = 0)) as [H0|Hne].
  - unfold tui.closeCurrentTab. rewrite H0. cbn [Z.eqb]. by apply good_step_same.
  - unfold active_tab_in_range in Hin.
    destruct (lookup_lt_is_Some_2 (tui.tabs m) (Z.to_nat (tui.activeTab m))) as [tab Htab];
      [lia|].
    rewrite (closeCurrentTab_run out k m w tab) by (done || lia). cbv zeta.
    eexists _, _, _. split; [reflexivity|].
    assert (Hlen : length (delete (Z.to_nat (tui.activeTab m)) (tui.tabs m))
                   = Nat.pred (length (tui.tabs m))).
    { rewrite length_delete by (by rewrite Htab). lia. }
    unfold active_tab_in_range, keeps_or_closes. cbn [tui.tabs tui.activeTab].
    rewrite Hlen. split; [lia|]. split; [right; split; [lia|done]|].
    rewrite list_lookup_delete_lt by lia. done.
Qed.

Lemma mergeCurrentTab_good out m w :
  active_tab_in_range m → good_step m (tui.mergeCurrentTab out m w).
Proof.
  intros Hin. unfold tui.mergeCurrentTab.
  destruct (tui.activeTab m =? 0); [by apply good_step_same|].
  unfold active_tab_in_range in Hin. rewrite (proj2 (Z.ltb_ge _ _)) by lia.
  destruct (lookup_lt_is_Some_2 (tui.tabs m) (Z.to_nat (tui.activeTab m))) as [tab Htab];
    [lia|].
  rewrite Htab. cbn [mbind option_bind].
  destruct (tui.Agent tab) as [id|]; [|by apply good_step_same].
  destruct (Merge _ _ _) as [[e|] wt]; [by apply good_step_same|].
  by apply closeCurrentTab_good.
Qed.

Lemma handleKeyMsg_good tbl out msg m w :
  active_tab_in_range m → good_step m (tui.handleKeyMsg tbl out msg m w).
Proof.
  intros Hin. unfold tui.handleKeyMsg.
  destruct (tui.inputMode m); [by apply handleInputMode_good|].
  destruct (tui.is_one_of _ _).
  { destruct (Z.ltb_spec 0 (tui.activeTab m)); [|by apply good_step_same].
    exists (tui.set_activeTab m (tui.activeTab m - 1)), tui.CmdNil, w.
    unfold active_tab_in_range, keeps_or_closes in *.
    cbn [tui.set_activeTab tui.tabs tui.activeTab].
    split; [done|]. split; [lia|]. split; [by left|done]. }
  destruct (tui.is_one_of _ _).
  { destruct (Z.ltb_spec (tui.activeTab m) (Z.of_nat (length (tui.tabs m)) - 1));
      [|by apply good_step_same].
    exists (tui.set_activeTab m (tui.activeTab m + 1)), tui.CmdNil, w.
    unfold active_tab_in_range, keeps_or_closes in *.
    cbn [tui.set_activeTab tui.tabs tui.activeTab].
    split; [done|]. split; [lia|]. split; [by left|done]. }
  destruct (tui.is_one_of _ _); [by apply good_step_tabs|].
  destruct (tui.is_one_of _ _).
  { destruct (0 <? _); [by apply closeCurrentTab_good | by apply good_step_same]. }
  destruct (tui.is_one_of _ _).
  { destruct (0 <? _); [by apply mergeCurrentTab_good | by apply good_step_same]. }
  destruct (tui.is_one_of _ _).
  { destruct (vt.StopAll _ _ _) as [pm os]. by apply good_step_tabs. }
  destruct (tui.currentTab m) as [tab|]; [|by apply good_step_same].
  destruct (vt.Get _ _) as [session|]; [|by apply good_step_same].
  destruct (0 <? _); [|by apply good_step_same].
  destruct (vt.Write _ _ _ _) as [[n err] writes]. by apply good_step_same.
Qed.

Lemma Update_good tbl out msg m w :
  active_tab_in_range m → good_step m (tui.Update tbl out msg m w).
Proof.
  intros Hin. destruct msg as [msg|Width Height| |]; cbn [tui.Update].
  - by apply handleKeyMsg_good.
  - destruct (vt.ResizeAll _ _ _ _ _ _) as [pm sizes]. by apply good_step_tabs.
  - by apply good_step_same.
  - by apply good_step_same.
Qed.

(** Extra X27. When the active tab is one of the tabs, [Update] handles every
    message without a panic; afterwards the active tab is one of the tabs,
    the first tab is the same, and the tabs are those of before, or those of
    before without the active one. No message adds a tab. *)
Theorem Update_never_adds_a_tab
    (tbl : Z → Z) (out : tui.Outside) (msg : tui.Msg) (m : tui.Model) (w : tui.World) :
  active_tab_in_range m →
  ∃ m' cmd w',
    tui.Update tbl out msg m w = Some (m', cmd, w')
    ∧ active_tab_in_range m'
    ∧ keeps_or_closes m m'
    ∧ tui.tabs m' !! 0%nat = tui.tabs m !! 0%nat.
Proof. apply Update_good. Qed.

Lemma Update_never_adds_a_tab_witness :
  ∃ m' cmd w',
    tui.Update no_case_table sample_outside (tui.Key key_alt_w) sample_model sample_world
    = Some (m', cmd, w')
    ∧ active_tab_in_range m'
    ∧ keeps_or_closes sample_model m'
    ∧ tui.tabs m' !! 0%nat = Some main_tab.
Proof.
  refine (Update_never_adds_a_tab no_case_table sample_outside (tui.Key key_alt_w)
            sample_model sample_world _).
  unfold active_tab_in_range. cbn. lia.
Defined.

(** *** A new agent *)

Lemma CreateWorktree_tracks tbl env task sys a :
  (CreateWorktree tbl env task sys).1 = Ok a →
  GetAgent (state (manager (CreateWorktree tbl env task sys).2)) (ID a) = Some a.
Proof.
  rewrite CreateWorktree_run. cbv zeta.
  destruct (git_answer env branch_args).2; [done|].
  destruct (git_answer env commit_args).2; [done|].
  destruct (git_answer env (add_args _)).2; [done|].
  destruct (Save _ _ _).2; [done|]. cbn [fst snd manager state]. intros [= <-].
  unfold GetAgent, AddAgent. cbn [Agents]. apply lookup_insert_eq.
Qed.

Lemma createNewAgent_Started tbl out task bound w a fd pid :
  (CreateWorktree tbl (tui.manager_env out 0) task (tui.wtManager w)).1 = Ok a →
  tui.start out = Started fd pid →
  vt.Get (tui.ptyManager w) (ID a) = None →
  ∃ name session sizes,
    tui.truncate task 15 = Some name
    ∧ vt.ptmx session = Some fd
    ∧ tui.createNewAgent tbl out task bound w
      = Some (tui.mkReceiver (tui.r_tabs bound ++ [tui.agent_tab a name])
                (Z.of_nat (length (tui.r_tabs bound ++ [tui.agent_tab a name])) - 1)
                (tui.r_width bound) (tui.r_height bound),
              tui.mkWorld (CreateWorktree tbl (tui.manager_env out 0) task (tui.wtManager w)).2
                (vt.mkManager (<[ID a := session]> (vt.sessions (tui.ptyManager w))))
                (mkOS ({[fd]} ∪ open_files (tui.system w)) ({[pid]} ∪ running (tui.system w)))
                (tui.sent w) (tui.sized w ++ sizes)).
Proof.
  intros Hok Hstart Hfree. unfold tui.createNewAgent.
  destruct (CreateWorktree tbl _ task _) as [r wt]. cbn [fst snd] in *. subst r.
  rewrite Hstart, (Spawn_Started _ _ _ fd pid _ _ Hfree). cbv zeta.
  unfold vt.Get at 1. cbn [vt.sessions]. rewrite lookup_insert_eq.
  pose proof (Resize_session (tui.resize_fault out (ID a)) (tui.termHeight (tui.r_height bound))
                (tui.r_width bound)
                (vt.mkSession (ID a) (Worktree a) (Task a) (Some fd) (Some (mkCmd (Some pid)))
                   (Some (80, 24)) 24 80)
                (mkOS ({[fd]} ∪ open_files (tui.system w)) ({[pid]} ∪ running (tui.system w))))
    as Hr.
  destruct (vt.Resize _ _ _ _ _) as [[session err] sizes]. cbn [fst] in Hr.
  destruct (truncate_15 task) as [name Hname]. rewrite Hname. cbn [mbind option_bind].
  exists name, session, sizes. split; [done|]. split; [by rewrite Hr|].
  by rewrite insert_insert_eq.
Qed.

Lemma handleKeyMsg_alt_n tbl out k m w :
  tui.inputMode m = false →
  tui.key_String k = "alt+n"%string →
  tui.handleKeyMsg tbl out k m w
  = Some (tui.mkModel (tui.tabs m) (tui.activeTab m) (tui.width m) (tui.height m) true
            EmptyString "Task description: " (Some (tui.receiver_of m))
            (tui.quitting m) (tui.ready m),
          tui.CmdNil, w).
Proof. intros Hmode Hk. unfold tui.handleKeyMsg. by rewrite Hmode, Hk. Qed.

Lemma handleKeyMsg_runes tbl out k m w :
  tui.inputMode m = true →
  tui.key_Type k = tui.KeyRunes →
  tui.handleKeyMsg tbl out k m w
  = Some (tui.set_input m true
            (tui.inputBuffer m +:+ S_ (concat (utf8.EncodeRune <$> tui.key_Runes k))),
          tui.CmdNil, w).
Proof.
  intros Hmode Hk. unfold tui.handleKeyMsg, tui.handleInputMode. by rewrite Hmode, Hk.
Qed.

Lemma handleKeyMsg_enter tbl out k m w bound :
  tui.inputMode m = true →
  tui.key_Type k = tui.KeyEnter →
  tui.inputAction m = Some bound →
  tui.inputBuffer m ≠ EmptyString →
  tui.handleKeyMsg tbl out k m w
  = r ← tui.createNewAgent tbl out (tui.inputBuffer m) bound w;
    Some (tui.mkModel (tui.tabs m) (tui.activeTab m) (tui.width m) (tui.height m) false
            EmptyString (tui.inputPrompt m) (Some r.1) (tui.quitting m) (tui.ready m),
          tui.CmdNil, r.2).
Proof.
  intros Hmode Hk Hact Hbuf. unfold tui.handleKeyMsg, tui.handleInputMode.
  rewrite Hmode, Hk, Hact, (proj2 (String.eqb_neq _ _) Hbuf).
  by destruct (tui.createNewAgent _ _ _ _ _) as [[b' w']|].
Qed.

(** Extra X28. Outside input mode, Alt+N, a typed task and Enter, with git, the disk
    and the start of the session succeeding: the worktree manager tracks the
    new agent, with the typed task, and its session is registered and runs,
    but the model that is returned has the tabs and the active tab of before.
    [handleKeyMsg] has a value receiver, so the action it stores is bound to
    its own copy of the model, and the new tab is appended to that copy. *)
Theorem a_new_agent_gets_no_tab
    (tbl : Z → Z) (o1 o2 o3 : tui.Outside) (k1 k2 k3 : tui.KeyMsg)
    (m : tui.Model) (w : tui.World) (a : Agent) (fd pid : nat) :
  let task := S_ (concat (utf8.EncodeRune <$> tui.key_Runes k2)) in
  tui.inputMode m = false →
  tui.key_String k1 = "alt+n"%string →
  tui.key_Type k2 = tui.KeyRunes →
  tui.key_Type k3 = tui.KeyEnter →
  task ≠ EmptyString →
  (CreateWorktree tbl (tui.manager_env o3 0) task (tui.wtManager w)).1 = Ok a →
  tui.start o3 = Started fd pid →
  vt.Get (tui.ptyManager w) (ID a) = None →
  ∃ m' w',
    updates tbl [(o1, tui.Key k1); (o2, tui.Key k2); (o3, tui.Key k3)] m w = Some (m', w')
    ∧ tui.tabs m' = tui.tabs m
    ∧ tui.activeTab m' = tui.activeTab m
    ∧ tui.inputMode m' = false
    ∧ Task a = task
    ∧ tracked w' (ID a) = Some a
    ∧ (∃ session, vt.Get (tui.ptyManager w') (ID a) = Some session
                  ∧ vt.ptmx session = Some fd)
    ∧ fd ∈ open_files (tui.system w')
    ∧ ∃ bound name, tui.inputAction m' = Some bound
                    ∧ tui.r_tabs bound = tui.tabs m ++ [tui.agent_tab a name].
Proof.
  cbv zeta. intros Hmode Hk1 Hk2 Hk3 Htask Hok Hstart Hfree.
  set (task := S_ (concat (utf8.EncodeRune <$> tui.key_Runes k2))) in *.
  cbn [updates fst snd tui.Update].
  rewrite (handleKeyMsg_alt_n tbl o1 k1 m w Hmode Hk1). cbn [mbind option_bind].
  rewrite handleKeyMsg_runes; [|reflexivity|exact Hk2]. cbn [mbind option_bind].
  unfold tui.set_input. cbn [tui.inputAction tui.inputBuffer tui.tabs tui.activeTab tui.width
                             tui.height tui.inputPrompt tui.quitting tui.ready].
  change (EmptyString +:+ S_ (concat (utf8.EncodeRune <$> tui.key_Runes k2))) with task.
  rewrite (handleKeyMsg_enter tbl o3 k3 _ w (tui.receiver_of m));
    [|reflexivity|exact Hk3|reflexivity|exact Htask].
  cbn [tui.inputAction tui.inputBuffer tui.tabs tui.activeTab tui.width
       tui.height tui.inputPrompt tui.quitting tui.ready].
  destruct (createNewAgent_Started tbl o3 task (tui.receiver_of m) w a fd pid Hok Hstart Hfree)
    as (name & session & sizes & Hname & Hfd & ->).
  cbn [mbind option_bind fst snd]. eexists _, _. split; [reflexivity|].
  cbn [tui.tabs tui.activeTab tui.inputMode tui.inputAction tui.ptyManager tui.system
       tui.wtManager open_files].
  split; [done|]. split; [done|]. split; [done|].
  split; [by rewrite (CreateWorktree_Ok _ _ _ _ _ Hok)|].
  split; [by apply CreateWorktree_tracks|].
  split; [exists session; split; [|done]; unfold vt.Get; cbn [vt.sessions];
          apply lookup_insert_eq|].
  split; [apply elem_of_union_l; by apply elem_of_singleton|].
  by eexists _, name.
Qed.

Lemma a_new_agent_gets_no_tab_witness :
  let a := new_agent no_case_table sample_env "fix" empty_sys in
  ∃ m' w',
    updates no_case_table
      [(sample_outside, tui.Key key_alt_n); (sample_outside, tui.Key key_fix);
       (sample_outside, tui.Key key_enter)] start_model start_world
    = Some (m', w')
    ∧ tui.tabs m' = [main_tab]
    ∧ tracked w' "cwt-20250104-a1b2" = Some a
    ∧ ∃ session, vt.Get (tui.ptyManager w') "cwt-20250104-a1b2" = Some session
                 ∧ vt.ptmx session = Some 5%nat.
Proof.
  cbv zeta.
  destruct (a_new_agent_gets_no_tab no_case_table sample_outside sample_outside sample_outside
              key_alt_n key_fix key_enter start_model start_world
              (new_agent no_case_table sample_env "fix" empty_sys) 5 102)
    as (m' & w' & Hrun & Htabs & _ & _ & _ & Htracked & Hsession & _).
  - reflexivity.
  - reflexivity.
  - reflexivity.
  - reflexivity.
  - discriminate.
  - vm_compute. reflexivity.
  - reflexivity.
  - reflexivity.
  - exists m', w'. split; [exact Hrun|]. split; [exact Htabs|].
    split; [exact Htracked | exact Hsession].
Defined.

(** *** From the start of the interface on *)

Lemma restore_appends starts agents tabs pm os :
  ∃ more pm' os', tui.restore starts agents tabs pm os = Some (tabs ++ more, pm', os').
Proof.
  revert tabs pm os. induction agents as [|agent agents IH]; intros tabs pm os; cbn [tui.restore].
  - exists [], pm, os. by rewrite app_nil_r.
  - destruct (String.eqb (Status agent) StatusRunning); [|apply IH].
    destruct (vt.Spawn _ _ _ _ _ _) as [[[session|e] pm'] os']; [|apply IH].
    destruct (truncate_15 (Task agent)) as [name ->]. cbn [mbind option_bind].
    destruct (IH (tabs ++ [tui.agent_tab agent name]) pm' os') as (more & pm'' & os'' & ->).
    exists (tui.agent_tab agent name :: more), pm'', os''. by rewrite <- app_assoc.
Qed.

Lemma keeps_or_closes_sublist m m' : keeps_or_closes m m' → sublist (tui.tabs m') (tui.tabs m).
Proof. intros [->|[_ ->]]; [done|]. apply sublist_delete. Qed.

Lemma updates_good tbl history m w :
  active_tab_in_range m →
  ∃ m' w', updates tbl history m w = Some (m', w')
           ∧ active_tab_in_range m'
           ∧ sublist (tui.tabs m') (tui.tabs m)
           ∧ tui.tabs m' !! 0%nat = tui.tabs m !! 0%nat.
Proof.
  revert m w. induction history as [|step history IH]; intros m w Hin; cbn [updates].
  - by exists m, w.
  - destruct (Update_good tbl step.1 step.2 m w Hin) as (m1 & cmd & w1 & -> & Hin1 & Hk & H0).
    cbn [mbind option_bind]. destruct (IH m1 w1 Hin1) as (m' & w' & -> & Hin' & Hsub & H0').
    exists m', w'. split; [done|]. split; [done|]. split; [|congruence].
    etrans; [exact Hsub|]. by apply keeps_or_closes_sublist.
Qed.


(** *** The text of the session *)

Lemma termHeight_pos height : 1 <= tui.termHeight height.
Proof. unfold tui.termHeight. cbv zeta. destruct (Z.ltb_spec (int_wrap (height - 2)) 1); lia. Qed.

Lemma strings_Split_ne sep s : tui.strings_Split sep s ≠ [].
Proof.
  destruct s as [|c s]; cbn [tui.strings_Split]; [done|].
  destruct (Ascii.eqb c sep); [done|]. by destruct (tui.strings_Split sep s).
Qed.

Lemma strings_Split_no_sep sep s : Forall (fun line => sep ∉ line) (tui.strings_Split sep s).
Proof.
  induction s as [|c s IH]; cbn [tui.strings_Split].
  - repeat constructor. by intros ?%elem_of_nil.
  - destruct (Ascii.eqb_spec c sep) as [->|Hne].
    + constructor; [by intros ?%elem_of_nil | done].
    + destruct (tui.strings_Split sep s) as [|line lines].
      * repeat constructor. intros [->|?%elem_of_nil]%elem_of_cons; done.
      * apply Forall_cons in IH as [Hl Hls]. constructor; [|done].
        intros [->|?]%elem_of_cons; done.
Qed.

Lemma cut_lines_nonneg width lines :
  0 <= width →
  ∃ cut, tui.cut_lines width lines = Some cut
         ∧ length cut = length lines
         ∧ Forall (fun line => Z.of_nat (length line) <= width) cut
         ∧ (Forall (fun line => linefeed ∉ line) lines →
            Forall (fun line => linefeed ∉ line) cut).
Proof.
  intros Hw. induction lines as [|line lines IH]; cbn [tui.cut_lines].
  - by exists [].
  - destruct IH as (cut & -> & Hlen & Hcut & Hlf).
    destruct (Z.ltb_spec width (Z.of_nat (length line))) as [Hlong|Hshort].
    + rewrite (proj2 (Z.ltb_ge _ _) Hw). cbn [mbind option_bind].
      exists (take (Z.to_nat width) line :: cut). split; [done|].
      split; [cbn [length]; by rewrite Hlen|]. split.
      * constructor; [|done]. rewrite length_take. lia.
      * intros [Hl Hls]%Forall_cons. constructor; [|by apply Hlf].
        intros Hin. apply Hl. exact (subseteq_take _ _ _ Hin).
    + cbn [mbind option_bind]. exists (line :: cut). split; [done|].
      split; [cbn [length]; by rewrite Hlen|]. split.
      * by constructor.
      * intros [Hl Hls]%Forall_cons. constructor; [done|by apply Hlf].
Qed.

Lemma cut_lines_neg width line lines :
  width < 0 → tui.cut_lines width (line :: lines) = None.
Proof.
  intros Hw. cbn [tui.cut_lines].
  rewrite (proj2 (Z.ltb_lt width (Z.of_nat (length line)))) by lia.
  by rewrite (proj2 (Z.ltb_lt _ _) Hw).
Qed.

Lemma strings_Join_text lines :
  lines ≠ [] → tui.strings_Join lines [linefeed] ++ [linefeed] = text_of lines.
Proof.
  unfold text_of. induction lines as [|line lines IH]; [done|]. intros _.
  destruct lines as [|line' lines]; [cbn; by rewrite app_nil_r|].
  change (tui.strings_Join (line :: line' :: lines) [linefeed])
    with (line ++ [linefeed] ++ tui.strings_Join (line' :: lines) [linefeed]).
  rewrite fmap_cons. cbn [concat]. rewrite <- IH by done. by rewrite <- !app_assoc.
Qed.

Lemma replicate_text n : replicate n linefeed = text_of (replicate n []).
Proof. unfold text_of. induction n as [|n IH]; [done|]. cbn. by rewrite <- IH. Qed.

(** Extra X30. [renderSession] draws exactly as many lines as the height of the
    terminal area, which is the height less 2 and at least 1, each ended by
    a line feed. When the width is not negative no line is longer than the
    width; when it is negative and the current tab has a session, the call
    panics. *)
Theorem renderSession_fills_the_height (screen : string) (m : tui.Model) (w : tui.World) :
  let h := tui.termHeight (tui.height m) in
  1 <= h
  ∧ (0 <= tui.width m →
     ∃ lines,
       tui.renderSession screen m w = Some (text_of lines)
       ∧ Z.of_nat (length lines) = h
       ∧ Forall (fun line => Z.of_nat (length line) <= tui.width m ∧ linefeed ∉ line) lines)
  ∧ (tui.width m < 0 →
     ∀ tab session,
       tui.currentTab m = Some tab →
       vt.Get (tui.ptyManager w) (tui.SessionID tab) = Some session →
       tui.renderSession screen m w = None).
Proof.
  cbv zeta. pose proof (termHeight_pos (tui.height m)) as Hh. split; [done|].
  unfold tui.renderSession. cbv zeta.
  set (h := tui.termHeight (tui.height m)) in *.
  assert (Hempty : 0 <= tui.width m →
            ∃ lines, Some (replicate (Z.to_nat h) linefeed) = Some (text_of lines)
                     ∧ Z.of_nat (length lines) = h
                     ∧ Forall (fun line => Z.of_nat (length line) <= tui.width m
                                           ∧ linefeed ∉ line) lines).
  { intros Hw. exists (replicate (Z.to_nat h) []). split; [by rewrite replicate_text|].
    split; [rewrite length_replicate; lia|].
    apply Forall_replicate. split; [done|]. by intros ?%elem_of_nil. }
  split.
  - intros Hw. destruct (tui.currentTab m) as [tab|]; [|by apply Hempty].
    destruct (vt.Get _ _) as [session|]; [|by apply Hempty].
    set (lines0 := tui.strings_Split linefeed (B (vt.Output screen session))).
    set (lines1 := if h <? Z.of_nat (length lines0)
                   then drop (Z.to_nat (Z.of_nat (length lines0) - h)) lines0 else lines0).
    set (lines2 := lines1 ++ replicate (Z.to_nat (h - Z.of_nat (length lines1))) []).
    assert (Hlf1 : Forall (fun line => linefeed ∉ line) lines1).
    { unfold lines1. destruct (h <? _); [apply Forall_drop|]; apply strings_Split_no_sep. }
    assert (Hlen1 : Z.of_nat (length lines1) <= h).
    { unfold lines1. destruct (Z.ltb_spec h (Z.of_nat (length lines0))); [|done].
      rewrite length_drop. lia. }
    assert (Hlen2 : Z.of_nat (length lines2) = h).
    { unfold lines2. rewrite length_app, length_replicate. lia. }
    assert (Hlf2 : Forall (fun line => linefeed ∉ line) lines2).
    { unfold lines2. apply Forall_app. split; [done|].
      apply Forall_replicate. by intros ?%elem_of_nil. }
    destruct (cut_lines_nonneg (tui.width m) lines2 Hw) as (cut & -> & Hlen & Hcut & Hlf).
    cbn [mbind option_bind]. exists cut.
    split; [f_equal; apply strings_Join_text; intros ->; cbn [length] in Hlen; lia|].
    split; [lia|]. apply Forall_and. split; [done|by apply Hlf].
  - intros Hw tab session -> ->.
    set (lines0 := tui.strings_Split linefeed (B (vt.Output screen session))).
    set (lines1 := if h <? Z.of_nat (length lines0)
                   then drop (Z.to_nat (Z.of_nat (length lines0) - h)) lines0 else lines0).
    destruct (lines1 ++ replicate (Z.to_nat (h - Z.of_nat (length lines1))) [])
      as [|line lines] eqn:E.
    + apply (f_equal length) in E. rewrite length_app, length_replicate in E. cbn in E.
      assert (Z.of_nat (length lines1) <= h).
      { unfold lines1. destruct (Z.ltb_spec h (Z.of_nat (length lines0))); [|lia].
        rewrite length_drop. lia. }
      lia.
    + by rewrite (cut_lines_neg _ _ _ Hw).
Qed.
